(** * BeatBorders: the country-genre aggregation and geometry-join pipeline

    A shallow embedding of [spotify_data_refresh.py],
    [prepare_and_render_maps.py] and [app.py], and the properties of the
    Fetcher, the Paginated Collector, the Aggregator, the Snapshot Builder,
    the Boundary Normalizer and the Joiner.

    Layout: - [Py]        the Python values and built-ins the scripts use;
            - [Refresh]   spotify_data_refresh.py over a network oracle;
            - [Pandas], [Snapshot]  the data-frame operations and the data
                          the two renderers work on;
            - [RenderMaps], [App]   the two renderers;
            - [Vocab], [Examples]   the words of the properties, and inputs;
            - the properties, one module per component. *)

From Stdlib Require Import ZArith List String Ascii Bool Lia DecimalString.
From Stdlib Require Import Permutation Sorted.
Import ListNotations.

#[local] Set Warnings "-register-all".

Local Open Scope string_scope.
Local Open Scope Z_scope.
Local Open Scope list_scope.

(* ===================================================================== *)
(** ** Python values and built-ins *)
(* ===================================================================== *)

Module Py.

(** A decoded JSON document.  Numbers are integers (the API's scores are);
    an object is the list of its members in document order. *)
Inductive json : Type :=
| JNull
| JBool (b : bool)
| JNum (n : Z)
| JStr (s : string)
| JList (l : list json)
| JDict (kvs : list (string * json)).

(** The exceptions that can escape the scripts. *)
Inductive exn : Type :=
| ValueError
| TypeError
| AttributeError
| KeyError
| IndexError
| RuntimeError (msg : string).

Inductive result (A : Type) : Type :=
| Ret (a : A)
| Raise (e : exn).
Arguments Ret {A} a.
Arguments Raise {A} e.

(** [bool(v)]: the truth value of [if v] and [not v]. *)
Definition truthy (v : json) : bool :=
  match v with
  | JNull => false
  | JBool b => b
  | JNum n => negb (n =? 0)
  | JStr s => negb (String.eqb s "")
  | JList l => match l with [] => false | _ => true end
  | JDict kvs => match kvs with [] => false | _ => true end
  end.

(** [None] and scalars hash; lists and dicts do not. *)
Definition hashable (v : json) : bool :=
  match v with
  | JList _ | JDict _ => false
  | _ => true
  end.

(** [a == b] on hashable values: [True == 1] and [False == 0]. *)
Definition key_eqb (a b : json) : bool :=
  match a, b with
  | JNull, JNull => true
  | JBool x, JBool y => Bool.eqb x y
  | JBool x, JNum n | JNum n, JBool x => n =? (if x then 1 else 0)
  | JNum n, JNum m => n =? m
  | JStr s, JStr t => String.eqb s t
  | _, _ => false
  end.

(** A Python [dict] with hashable keys: the entries in insertion order. *)
Definition dict (V : Type) : Type := list (json * V).

Fixpoint dict_get {V} (k : json) (d : dict V) : option V :=
  match d with
  | [] => None
  | (k', v) :: d' => if key_eqb k' k then Some v else dict_get k d'
  end.

(** [d[k] = v]: an existing key keeps its place (and its key object), a new
    key goes last. *)
Fixpoint dict_set {V} (k : json) (v : V) (d : dict V) : dict V :=
  match d with
  | [] => [(k, v)]
  | (k', v') :: d' =>
      if key_eqb k' k then (k', v) :: d' else (k', v') :: dict_set k v d'
  end.

Definition dict_keys {V} (d : dict V) : list json := map fst d.

Definition has_key {V} (k : json) (d : dict V) : bool :=
  existsb (fun k' => key_eqb k' k) (dict_keys d).

(** Member lookup in a decoded JSON object (string keys). *)
Fixpoint assoc {V} (k : string) (kvs : list (string * V)) : option V :=
  match kvs with
  | [] => None
  | (k', v) :: r => if String.eqb k' k then Some v else assoc k r
  end.

(** [v.get(k, dflt)]: only a dict has [get]. *)
Definition get_or (v : json) (k : string) (dflt : json) : result json :=
  match v with
  | JDict kvs => Ret (match assoc k kvs with Some x => x | None => dflt end)
  | _ => Raise AttributeError
  end.

(** [v[k]] for a string [k]: a dict without the key raises [KeyError]; a
    list or a string wants an integer index; anything else has no
    subscript. *)
Definition getitem_str (v : json) (k : string) : result json :=
  match v with
  | JDict kvs => match assoc k kvs with Some x => Ret x | None => Raise KeyError end
  | _ => Raise TypeError
  end.

Definition chars_of (s : string) : list json :=
  map (fun c => JStr (String c EmptyString)) (list_ascii_of_string s).

(** [v[0]]. *)
Definition getitem_0 (v : json) : result json :=
  match v with
  | JList (x :: _) => Ret x
  | JList [] => Raise IndexError
  | JStr s => match chars_of s with x :: _ => Ret x | [] => Raise IndexError end
  | JDict _ => Raise KeyError
  | _ => Raise TypeError
  end.

(** [iter(v)]: a list yields its elements, a dict its keys, a string its
    characters; the rest is not iterable. *)
Definition iterate (v : json) : result (list json) :=
  match v with
  | JList l => Ret l
  | JDict kvs => Ret (map (fun kv => JStr (fst kv)) kvs)
  | JStr s => Ret (chars_of s)
  | _ => Raise TypeError
  end.

(** [len(v)]. *)
Definition len (v : json) : result Z :=
  match v with
  | JList l => Ret (Z.of_nat (List.length l))
  | JDict kvs => Ret (Z.of_nat (List.length kvs))
  | JStr s => Ret (Z.of_nat (String.length s))
  | _ => Raise TypeError
  end.

(** [a + v] for an integer [a]: [v] must be a number ([bool] is one). *)
Definition int_add (a : Z) (v : json) : result Z :=
  match v with
  | JNum n => Ret (a + n)
  | JBool b => Ret (a + (if b then 1 else 0))
  | _ => Raise TypeError
  end.

(** [l[:n]]: a negative [n] counts from the end. *)
Definition slice_to {A} (l : list A) (n : Z) : list A :=
  if 0 <=? n then firstn (Z.to_nat n) l
  else firstn (Z.to_nat (Z.of_nat (List.length l) + n)) l.

(** [range(start, stop, step)] for a positive [step]. *)
Definition range (start stop step : Z) : list Z :=
  map (fun i => start + step * Z.of_nat i)
      (seq 0 (Z.to_nat ((stop - start + step - 1) / step))).

(** *** [int(s)] on a string *)

Definition is_space (c : ascii) : bool :=
  let n := nat_of_ascii c in
  ((9 <=? n) && (n <=? 13))%nat || ((28 <=? n) && (n <=? 32))%nat
  || (n =? 133)%nat || (n =? 160)%nat.

Definition is_digit (c : ascii) : bool :=
  let n := nat_of_ascii c in ((48 <=? n) && (n <=? 57))%nat.

Definition digit_val (c : ascii) : Z := Z.of_nat (nat_of_ascii c) - 48.

Fixpoint lstrip (s : list ascii) : list ascii :=
  match s with
  | c :: s' => if is_space c then lstrip s' else s
  | [] => []
  end.

Definition strip (s : list ascii) : list ascii := rev (lstrip (rev (lstrip s))).

(** Digits, with single underscores allowed between two digits. *)
Fixpoint parse_digits (acc : Z) (after_digit : bool) (s : list ascii) : option Z :=
  match s with
  | [] => if after_digit then Some acc else None
  | c :: s' =>
      if is_digit c then parse_digits (10 * acc + digit_val c) true s'
      else if Ascii.eqb c "_"%char
           then (if after_digit then parse_digits acc false s' else None)
           else None
  end.

(** [int(s)]: surrounding white space, an optional sign, decimal digits.
    [None] stands for [ValueError].  (CPython also refuses strings of more
    than 4300 digits; that limit is left out.) *)
Definition int_of_string (s : string) : option Z :=
  match strip (list_ascii_of_string s) with
  | "-"%char :: r => option_map Z.opp (parse_digits 0 false r)
  | "+"%char :: r => parse_digits 0 false r
  | r => parse_digits 0 false r
  end.

(** *** [str.upper], [str.lower] (ASCII letters; other bytes unchanged) *)

Definition upper_char (c : ascii) : ascii :=
  let n := nat_of_ascii c in
  if ((97 <=? n) && (n <=? 122))%nat then ascii_of_nat (n - 32) else c.

Definition lower_char (c : ascii) : ascii :=
  let n := nat_of_ascii c in
  if ((65 <=? n) && (n <=? 90))%nat then ascii_of_nat (n + 32) else c.

Fixpoint map_string (f : ascii -> ascii) (s : string) : string :=
  match s with
  | EmptyString => EmptyString
  | String c s' => String (f c) (map_string f s')
  end.

Definition upper : string -> string := map_string upper_char.
Definition lower : string -> string := map_string lower_char.

(** [sub in s]. *)
Fixpoint contains (sub s : string) : bool :=
  String.prefix sub s ||
  match s with
  | EmptyString => false
  | String _ s' => contains sub s'
  end.

(** *** [sorted(l, key=..., reverse=True)]

    Python's sort is stable, and [reverse=True] keeps the original order of
    items with equal keys.  Insertion from the right, placing an item before
    the first one whose key is not strictly greater, has exactly that
    result. *)

Section Sorted.
Context {A : Type} (key : A -> Z).

Fixpoint insert_desc (x : A) (l : list A) : list A :=
    match l with
    | [] => [x]
    | y :: l' => if key y <=? key x then x :: l else y :: insert_desc x l'
    end.

Definition sorted_desc (l : list A) : list A :=
    fold_right insert_desc [] l.
End Sorted.

End Py.

(* ===================================================================== *)
(** ** spotify_data_refresh.py *)
(* ===================================================================== *)

Module Refresh.
Import Py.

(** *** The outside world *)

(** A query parameter of a request. *)
Inductive pval : Type :=
| PInt (n : Z)                 (* 'limit', 'offset' *)
| PStr (s : string)            (* 'type' *)
| PGenreQuery (genre : json)   (* 'q': f'genre:"{genre}"' *)
| PVal (v : json).             (* 'market' *)

(** The arguments of [requests.request]: the token request carries the
    client credentials ([auth]) and a form body, the API requests a bearer
    token and query parameters. *)
Record request : Type := {
  method : string;
  url : string;
  bearer : option json;
  auth : option (string * string);
  form : list (string * string);
  params : list (string * pval)
}.

(** A [requests.Response]: [retry_after] is what the headers hold under
    'Retry-After', [body] the decoded payload ([None] when the body is not
    JSON). *)
Record response : Type := {
  status_code : Z;
  retry_after : option string;
  body : option json
}.

(** What one call of [requests.request] does: it returns a response or
    raises a [requests.RequestException] (time-out, connection error). *)
Inductive outcome : Type :=
| Response (r : response)
| RequestException.

(** The persisted snapshot: the [result] dict handed to [json.dump]. *)
Record snapshot : Type := {
  top_genres : list json;
  country_genre_popularity : dict (dict Z);
  top_artists : dict (dict (list (json * Z)))
}.

(** What the run does to the world, newest event first.  Sleeps are in
    milliseconds. *)
Inductive event : Type :=
| EvRequest (r : request)
| EvSleep (ms : Z)
| EvWrite (s : snapshot).

Definition world : Type := list event.

Definition is_request (e : event) : bool :=
  match e with EvRequest _ => true | _ => false end.

Definition requests_made (w : world) : nat := List.length (filter is_request w).

(** The requests of a run, oldest first. *)
Definition requests_of (w : world) : list request :=
  rev (flat_map (fun e => match e with EvRequest r => [r] | _ => [] end) w).

Definition writes_of (w : world) : list snapshot :=
  rev (flat_map (fun e => match e with EvWrite s => [s] | _ => [] end) w).

(** *** Computations: a state over the world, with exceptions *)

Definition M (A : Type) : Type := world -> result A * world.

Definition ret {A} (a : A) : M A := fun w => (Ret a, w).
Definition raise {A} (e : exn) : M A := fun w => (Raise e, w).
Definition bind {A B} (m : M A) (k : A -> M B) : M B :=
  fun w => match m w with
           | (Ret a, w') => k a w'
           | (Raise e, w') => (Raise e, w')
           end.
Definition lift {A} (r : result A) : M A := fun w => (r, w).

Notation "x <- m ;; k" := (bind m (fun x => k))
  (at level 61, m at next level, right associativity).
Notation "m ;;; k" := (bind m (fun _ => k))
  (at level 61, right associativity).

(** [time.sleep(secs)] refuses a negative duration.  (CPython also refuses
    durations beyond the platform's clock range.) *)
Definition sleep_ms (ms : Z) : M unit :=
  fun w => if ms <? 0 then (Raise ValueError, w) else (Ret tt, EvSleep ms :: w).

Definition sleep (secs : Z) : M unit := sleep_ms (1000 * secs).

(** [resp.json()]: a body that is not JSON raises a [ValueError]
    (requests' [JSONDecodeError]), outside the [try] of [safe_request]. *)
Definition json_of (r : response) : M json :=
  match body r with
  | Some j => ret j
  | None => raise ValueError
  end.

Section Program.

(** The configuration ([config.yaml]) and the network. *)
Variables CLIENT_ID CLIENT_SECRET : string.
Variables MARKETS_LIMIT GENRES_LIMIT TRACKS_LIMIT TOP_N_GENRES TOP_N_ARTISTS : Z.

(** [net n r]: the outcome of [requests.request] for [r] when [n] requests
    went out before it. *)
Variable net : nat -> request -> outcome.

Definition http (r : request) : M outcome :=
  fun w => (Ret (net (requests_made w) r), EvRequest r :: w).

(** [resp.raise_for_status()] raises on 400..599. *)
Definition raises_for_status (r : response) : bool :=
  (400 <=? status_code r) && (status_code r <? 600).

(** [safe_request]: the body of the [for attempt in range(1, 4)] loop, over
    the attempts still to make. *)
Fixpoint safe_request_from (attempts : list Z) (r : request) : M (option response) :=
  match attempts with
  | [] => ret None
  | attempt :: rest =>
      o <- http r ;;
      match o with
      | Response resp =>
          if status_code resp =? 429 then
            match int_of_string (match retry_after resp with
                                 | Some s => s | None => "1" end) with
            | None => raise ValueError
            | Some retry => sleep retry ;;; safe_request_from rest r
            end
          else if (400 <=? status_code resp) && (status_code resp <? 500) then
            ret None
          else if raises_for_status resp then
            sleep (2 ^ attempt) ;;; safe_request_from rest r
          else ret (Some resp)
      | RequestException =>
          sleep (2 ^ attempt) ;;; safe_request_from rest r
      end
  end.

Definition safe_request (r : request) : M (option response) :=
  safe_request_from (range 1 4 1) r.

(** [get_token]: Python's [None] is [JNull]. *)
Definition token_request : request :=
  {| method := "POST"; url := "https://accounts.spotify.com/api/token";
     bearer := None; auth := Some (CLIENT_ID, CLIENT_SECRET);
     form := [("grant_type", "client_credentials")]; params := [] |}.

Definition get_token : M json :=
  resp <- safe_request token_request ;;
  match resp with
  | None => ret JNull
  | Some resp =>
      j <- json_of resp ;;
      lift (get_or j "access_token" JNull)
  end.

Definition api_get (token : json) (u : string) (ps : list (string * pval)) : request :=
  {| method := "GET"; url := u; bearer := Some token; auth := None;
     form := []; params := ps |}.

(** The page size of both paginated fetches ([batch = 50]). *)
Definition batch : Z := 50.

(** [resp.json().get(outer, {}).get('items', [])]. *)
Definition items_of (outer : string) (resp : response) : M json :=
  j <- json_of resp ;;
  o <- lift (get_or j outer (JDict [])) ;;
  lift (get_or o "items" (JList [])).

(** [(i['name'], i['id']) for i in items]. *)
Fixpoint name_id_pairs (items : list json) : result (list (json * json)) :=
  match items with
  | [] => Ret []
  | i :: rest =>
      match getitem_str i "name" with
      | Raise e => Raise e
      | Ret name =>
          match getitem_str i "id" with
          | Raise e => Raise e
          | Ret id =>
              match name_id_pairs rest with
              | Raise e => Raise e
              | Ret ps => Ret ((name, id) :: ps)
              end
          end
      end
  end.

Definition categories_request (token : json) (offset : Z) : request :=
  api_get token "https://api.spotify.com/v1/browse/categories"
          [("limit", PInt batch); ("offset", PInt offset)].

(** The [for offset in range(0, total, batch)] loop of [get_all_categories],
    over the offsets still to visit; [categories] is the accumulator. *)
Fixpoint categories_loop (token : json) (offsets : list Z)
         (categories : list (json * json)) : M (list (json * json)) :=
  match offsets with
  | [] => ret categories
  | offset :: rest =>
      resp <- safe_request (categories_request token offset) ;;
      match resp with
      | None => ret categories
      | Some resp =>
          items <- items_of "categories" resp ;;
          if negb (truthy items) then ret categories
          else
            elems <- lift (iterate items) ;;
            pairs <- lift (name_id_pairs elems) ;;
            n <- lift (len items) ;;
            if n <? batch then ret (categories ++ pairs)
            else sleep_ms 100 ;;; categories_loop token rest (categories ++ pairs)
      end
  end.

Definition get_all_categories (token : json) (total : Z) : M (list (json * json)) :=
  categories <- categories_loop token (range 0 total batch) [] ;;
  ret (slice_to categories total).

Definition search_request (token genre market : json) (offset : Z) : request :=
  api_get token "https://api.spotify.com/v1/search"
          ([("q", PGenreQuery genre); ("type", PStr "track");
            ("limit", PInt batch); ("offset", PInt offset)]
           ++ (if truthy market then [("market", PVal market)] else [])).

(** The loop of [fetch_genre_tracks]. *)
Fixpoint tracks_loop (token genre market : json) (offsets : list Z)
         (all_tracks : list json) : M (list json) :=
  match offsets with
  | [] => ret all_tracks
  | offset :: rest =>
      resp <- safe_request (search_request token genre market offset) ;;
      match resp with
      | None => ret all_tracks
      | Some resp =>
          items <- items_of "tracks" resp ;;
          if negb (truthy items) then ret all_tracks
          else
            elems <- lift (iterate items) ;;
            n <- lift (len items) ;;
            if n <? batch then ret (all_tracks ++ elems)
            else sleep_ms 100 ;;; tracks_loop token genre market rest (all_tracks ++ elems)
      end
  end.

Definition fetch_genre_tracks (token genre market : json) (total_tracks : Z)
  : M (list json) :=
  all_tracks <- tracks_loop token genre market (range 0 total_tracks batch) [] ;;
  ret (slice_to all_tracks total_tracks).

Definition markets_request (token : json) : request :=
  api_get token "https://api.spotify.com/v1/markets" [("limit", PInt MARKETS_LIMIT)].

(** [markets[:MARKETS_LIMIT]]: a list or a string can be sliced; a dict
    refuses the slice as a key ([TypeError]; [KeyError] from Python 3.12
    on), the other values have no subscript. *)
Definition slice_value (v : json) (n : Z) : result json :=
  match v with
  | JList l => Ret (JList (slice_to l n))
  | JStr s => Ret (JStr (string_of_list_ascii (slice_to (list_ascii_of_string s) n)))
  | _ => Raise TypeError
  end.

Definition get_markets (token : json) : M json :=
  resp <- safe_request (markets_request token) ;;
  match resp with
  | None => ret (JList [])
  | Some resp =>
      j <- json_of resp ;;
      markets <- lift (get_or j "markets" (JList [])) ;;
      lift (slice_value markets MARKETS_LIMIT)
  end.

(** The accumulation loop of [fetch_top_artists_for_genre] over the tracks
    still to visit ([artist_scores] is the [defaultdict(int)]). *)
Fixpoint artist_scores_loop (tracks : list json) (artist_scores : dict Z)
  : result (dict Z) :=
  match tracks with
  | [] => Ret artist_scores
  | t :: rest =>
      match get_or t "artists" (JList []) with
      | Raise e => Raise e
      | Ret artists =>
          if negb (truthy artists) then artist_scores_loop rest artist_scores
          else
            match getitem_0 artists with
            | Raise e => Raise e
            | Ret first =>
                match get_or first "name" JNull with
                | Raise e => Raise e
                | Ret primary_name =>
                    match get_or t "popularity" (JNum 0) with
                    | Raise e => Raise e
                    | Ret popularity =>
                        if negb (hashable primary_name) then Raise TypeError
                        else
                          let old := match dict_get primary_name artist_scores with
                                     | Some x => x | None => 0 end in
                          match int_add old popularity with
                          | Raise e => Raise e
                          | Ret new =>
                              artist_scores_loop rest
                                (dict_set primary_name new artist_scores)
                          end
                    end
                end
            end
      end
  end.

(** [sorted(artist_scores.items(), key=lambda x: x[1], reverse=True)[:top_n]]. *)
Definition rank_artists (tracks : list json) (top_n : Z) : result (list (json * Z)) :=
  match artist_scores_loop tracks [] with
  | Raise e => Raise e
  | Ret artist_scores => Ret (slice_to (sorted_desc snd artist_scores) top_n)
  end.

Definition fetch_top_artists_for_genre (token genre market : json)
           (total_tracks top_n : Z) : M (list (json * Z)) :=
  tracks <- fetch_genre_tracks token genre market total_tracks ;;
  lift (rank_artists tracks top_n).

(** [sum(t.get('popularity', 0) for t in tracks)]. *)
Fixpoint sum_popularity (acc : Z) (tracks : list json) : result Z :=
  match tracks with
  | [] => Ret acc
  | t :: rest =>
      match get_or t "popularity" (JNum 0) with
      | Raise e => Raise e
      | Ret v =>
          match int_add acc v with
          | Raise e => Raise e
          | Ret acc' => sum_popularity acc' rest
          end
      end
  end.

(** *** [main] *)

(** The loop over the categories that builds [global_scores]. *)
Fixpoint global_scores_loop (token : json) (categories : list (json * json))
         (global_scores : list (json * Z)) : M (list (json * Z)) :=
  match categories with
  | [] => ret global_scores
  | (name, _) :: rest =>
      tracks <- fetch_genre_tracks token name JNull TRACKS_LIMIT ;;
      score <- lift (sum_popularity 0 tracks) ;;
      sleep_ms 200 ;;;
      global_scores_loop token rest (global_scores ++ [(name, score)])
  end.

Definition select_top_genres (global_scores : list (json * Z)) : list json :=
  map fst (slice_to (sorted_desc snd global_scores) TOP_N_GENRES).

(** The inner loop of [main], over the genres still to visit. *)
Fixpoint genres_loop (token market : json) (genres : list json)
         (country_scores : dict Z) (country_artists : dict (list (json * Z)))
  : M (dict Z * dict (list (json * Z))) :=
  match genres with
  | [] => ret (country_scores, country_artists)
  | genre :: rest =>
      tracks <- fetch_genre_tracks token genre market TRACKS_LIMIT ;;
      score <- lift (sum_popularity 0 tracks) ;;
      if negb (hashable genre) then raise TypeError
      else
        artists <- fetch_top_artists_for_genre token genre market
                     TRACKS_LIMIT TOP_N_ARTISTS ;;
        sleep_ms 200 ;;;
        genres_loop token market rest
          (dict_set genre score country_scores)
          (dict_set genre artists country_artists)
  end.

(** The outer loop of [main], over the markets still to visit. *)
Fixpoint markets_loop (token : json) (genres : list json) (markets : list json)
         (result : snapshot) : M snapshot :=
  match markets with
  | [] => ret result
  | market :: rest =>
      cs <- genres_loop token market genres [] [] ;;
      if negb (hashable market) then raise TypeError
      else
        markets_loop token genres rest
          {| top_genres := top_genres result;
             country_genre_popularity :=
               dict_set market (fst cs) (country_genre_popularity result);
             top_artists := dict_set market (snd cs) (top_artists result) |}
  end.

(** [json.dump(result, f)] into the freshly opened output file. *)
Definition write_snapshot (s : snapshot) : M unit :=
  fun w => (Ret tt, EvWrite s :: w).

Definition main : M unit :=
  token <- get_token ;;
  if negb (truthy token) then ret tt
  else
    categories <- get_all_categories token GENRES_LIMIT ;;
    global_scores <- global_scores_loop token categories [] ;;
    let top_genres := select_top_genres global_scores in
    markets <- get_markets token ;;
    if negb (truthy markets) then ret tt
    else
      ms <- lift (iterate markets) ;;
      result <- markets_loop token top_genres ms
                  {| top_genres := top_genres;
                     country_genre_popularity := [];
                     top_artists := [] |} ;;
      write_snapshot result.

End Program.
End Refresh.

(* ===================================================================== *)
(** ** The data-frame operations of the renderers *)
(* ===================================================================== *)

Module Pandas.
Import Py.

(** A cell of a text column: a string, or missing (NaN). *)
Definition cell : Type := option string.

(** A frame seen through its text columns, in column order: the label of
    each column and its cells. *)
Definition frame : Type := list (string * list cell).

Definition labels (fr : frame) : list string := map fst fr.

(** [df.rename(columns={old: new})]. *)
Definition rename (old new : string) (fr : frame) : frame :=
  map (fun col => (if String.eqb (fst col) old then new else fst col, snd col)) fr.

(** [df[label] = df[label].str.upper()].  [df[label]] is a Series when
    exactly one column bears the label; with none it raises [KeyError];
    with several it is a DataFrame, which has no [.str]. *)
Definition upper_column (label : string) (fr : frame) : result frame :=
  match filter (fun col => String.eqb (fst col) label) fr with
  | [] => Raise KeyError
  | [_] =>
      Ret (map (fun col => if String.eqb (fst col) label
                           then (fst col, map (option_map upper) (snd col))
                           else col) fr)
  | _ => Raise AttributeError
  end.

(** [left.merge(right, how="left", on=key)]: the left rows in order, each
    paired with every right row of the same key, or with nothing when no
    right row has it.  (The right keys here are never missing.) *)
Section Merge.
Context {L R : Type} (key_l : L -> cell) (key_r : R -> string).

Definition same_key (l : L) (r : R) : bool :=
  match key_l l with
  | Some k => String.eqb k (key_r r)
  | None => false
  end.

Definition merge_left (left : list L) (right : list R) : list (L * option R) :=
  flat_map (fun l => match filter (same_key l) right with
                     | [] => [(l, None)]
                     | ms => map (fun r => (l, Some r)) ms
                     end) left.
End Merge.

(** An integer as [str] and f-strings print it. *)
Definition str_of_int (n : Z) : string := NilZero.string_of_int (Z.to_int n).

End Pandas.

(** The snapshot as the renderers read it back. *)
Module Snapshot.
Definition popularity : Type := list (string * list (string * Z)).
Definition artists : Type := list (string * list (string * list (string * Z))).

(** A record of the normalized boundary frame: the ISO-2 code and the
    display name (the geometry plays no part in the join). *)
Record boundary : Type := {
  iso_a2 : Pandas.cell;
  name : Pandas.cell
}.

(** A row of a joined frame. *)
Record joined : Type := {
  joined_boundary : boundary;
  joined_value : Z;
  joined_tooltip : Pandas.cell
}.

(** [sum(vals.values())]. *)
Definition total (vals : list (string * Z)) : Z :=
  fold_left Z.add (map snd vals) 0.

(** [sorted(vals.items(), key=lambda x: x[1], reverse=True)[:5]]. *)
Definition top5 (vals : list (string * Z)) : list (string * Z) :=
  Py.slice_to (Py.sorted_desc snd vals) 5.

(** [d.get(k, dflt)] on a dict read from JSON. *)
Definition get_default {V} (k : string) (d : list (string * V)) (dflt : V) : V :=
  match Py.assoc k d with
  | Some v => v
  | None => dflt
  end.

(** [s or dflt]. *)
Definition or_default (s dflt : string) : string :=
  if String.eqb s "" then dflt else s.
End Snapshot.

(* ===================================================================== *)
(** ** prepare_and_render_maps.py *)
(* ===================================================================== *)

Module RenderMaps.
Import Py Pandas Snapshot.

Definition iso2_aliases : list string :=
  ["iso_a2"; "iso2"; "iso_3166_1_alpha_2"; "iso3166-1-alpha-2"].

(** [col.lower() in (...)]. *)
Definition is_alias (col : string) : bool :=
  existsb (String.eqb (lower col)) iso2_aliases.

(** The [for col in world.columns: ... else: raise] loop. *)
Fixpoint rename_iso2 (cols : list string) (world : frame) : result frame :=
  match cols with
  | [] => Raise (RuntimeError "No ISO-2 column found in boundaries file")
  | col :: rest =>
      if is_alias col then Ret (rename col "iso_a2" world)
      else rename_iso2 rest world
  end.

(** Step 2, load and normalize. *)
Definition normalize (world : frame) : result frame :=
  match rename_iso2 (labels world) world with
  | Raise e => Raise e
  | Ret world => upper_column "iso_a2" world
  end.

(** A record of [df_total], and of [df_genre]. *)
Record record : Type := {
  rec_iso_a2 : string;
  rec_value : Z;
  rec_tip : string
}.

(** Step 4. *)
Definition total_records (popularity : popularity) : list record :=
  map (fun kv =>
         {| rec_iso_a2 := upper (fst kv);
            rec_value := total (snd kv);
            rec_tip := String.concat "<br>"
                         (map (fun gv => (fst gv ++ ": " ++ str_of_int (snd gv))%string)
                              (top5 (snd kv))) |})
      popularity.

(** Step 5 and the merge of step 8: a frame built from no record has no
    'iso_a2' column to merge on; the missing values are filled with 0 and
    "No data". *)
Definition merge_fill (world : list boundary) (records : list record)
  : result (list joined) :=
  match records with
  | [] => Raise KeyError
  | _ =>
      Ret (map (fun lr =>
                  {| joined_boundary := fst lr;
                     joined_value := match snd lr with
                                     | Some r => rec_value r
                                     | None => 0
                                     end;
                     joined_tooltip := Some (match snd lr with
                                             | Some r => rec_tip r
                                             | None => "No data"
                                             end) |})
               (merge_left iso_a2 rec_iso_a2 world records))
  end.

Definition merged_total (world : list boundary) (popularity : popularity)
  : result (list joined) :=
  merge_fill world (total_records popularity).

(** Step 8, for one genre. *)
Definition genre_records (popularity : popularity) (artists : artists)
           (genre : string) : list record :=
  map (fun kv =>
         {| rec_iso_a2 := upper (fst kv);
            rec_value := get_default genre (snd kv) 0;
            rec_tip :=
              or_default
                (String.concat "<br>"
                   (map (fun a => (fst a ++ ": " ++ str_of_int (snd a))%string)
                        (slice_to (get_default genre
                                     (get_default (fst kv) artists []) []) 5)))
                "No artists" |})
      popularity.

Definition merged_g (world : list boundary) (popularity : popularity)
           (artists : artists) (genre : string) : result (list joined) :=
  merge_fill world (genre_records popularity artists genre).

End RenderMaps.

(* ===================================================================== *)
(** ** app.py *)
(* ===================================================================== *)

Module App.
Import Py Pandas Snapshot.

(** [c.lower().startswith("iso") and "2" in c]. *)
Definition is_iso2_like (c : string) : bool :=
  String.prefix "iso" (lower c) && contains "2" c.

(** [[c for c in world.columns if ...][-1]]. *)
Definition iso2_col (world : frame) : result string :=
  match rev (filter is_iso2_like (labels world)) with
  | [] => Raise IndexError
  | c :: _ => Ret c
  end.

Definition normalize (world : frame) : result frame :=
  match iso2_col world with
  | Raise e => Raise e
  | Ret c => upper_column "iso_a2" (rename c "iso_a2" world)
  end.

(** The records of [df_tot]. *)
Record tot_record : Type := {
  tot_iso_a2 : string;
  tot_value : Z;
  tot_top5 : string
}.

Definition tot_records (country_pop : popularity) : list tot_record :=
  map (fun kv =>
         {| tot_iso_a2 := upper (fst kv);
            tot_value := total (snd kv);
            tot_top5 := String.concat ", "
                          (map (fun gv => (fst gv ++ " (" ++ str_of_int (snd gv) ++ ")")%string)
                               (top5 (snd kv))) |})
      country_pop.

(** [world.merge(df_tot, how="left", on="iso_a2")
      .fillna({"value": 0, "top5": "None"})]. *)
Definition merged_tot (world : list boundary) (country_pop : popularity)
  : result (list joined) :=
  match tot_records country_pop with
  | [] => Raise KeyError
  | records =>
      Ret (map (fun lr =>
                  {| joined_boundary := fst lr;
                     joined_value := match snd lr with
                                     | Some r => tot_value r
                                     | None => 0
                                     end;
                     joined_tooltip := Some (match snd lr with
                                             | Some r => tot_top5 r
                                             | None => "None"
                                             end) |})
               (merge_left iso_a2 tot_iso_a2 world records))
  end.

(** The loop over [country_art.items()] for one genre: the records of
    [df_g] and the assignments to [country_tooltips], in order.
    [country_pop[iso2]] raises on a market [country_pop] does not hold. *)
Fixpoint genre_loop (country_pop : popularity) (genre : string)
         (country_art : artists)
  : result (list (string * Z) * list (string * string)) :=
  match country_art with
  | [] => Ret ([], [])
  | (iso2, arts) :: rest =>
      match assoc iso2 country_pop with
      | None => Raise KeyError
      | Some vals =>
          match genre_loop country_pop genre rest with
          | Raise e => Raise e
          | Ret (recs, tips) =>
              Ret ((upper iso2, get_default genre vals 0) :: recs,
                   (upper iso2,
                    or_default
                      (String.concat ", "
                         (map (fun a => (fst a ++ " (" ++ str_of_int (snd a) ++ ")")%string)
                              (slice_to (get_default genre arts []) 5)))
                      "None") :: tips)
          end
      end
  end.

(** [country_tooltips[k]] after the assignments [tips]: the last one
    made under [k]. *)
Definition tooltip_of (tips : list (string * string)) (k : string) : cell :=
  assoc k (rev tips).

(** [merged_g]: the merge, [fillna({"value": 0})], then
    [merged_g["top5"] = merged_g["iso_a2"].map(country_tooltips)]. *)
Definition merged_g (world : list boundary) (country_pop : popularity)
           (country_art : artists) (genre : string) : result (list joined) :=
  match genre_loop country_pop genre country_art with
  | Raise e => Raise e
  | Ret ([], _) => Raise KeyError
  | Ret (recs, tips) =>
      Ret (map (fun lr =>
                  {| joined_boundary := fst lr;
                     joined_value := match snd lr with
                                     | Some r => snd r
                                     | None => 0
                                     end;
                     joined_tooltip := match iso_a2 (fst lr) with
                                       | Some k => tooltip_of tips k
                                       | None => None
                                       end |})
               (merge_left iso_a2 fst world recs))
  end.

End App.

(* ===================================================================== *)
(** ** Vocabulary of the properties, and the inputs of the examples *)
(* ===================================================================== *)

Module Vocab.
Import Py Refresh.

(** The delay [safe_request] reads off a 429 response. *)
Definition delay_of (resp : response) : option Z :=
  int_of_string (match retry_after resp with Some s => s | None => "1" end).

(** A 429 whose delay reads as a non-negative number of seconds. *)
Definition well_formed_delay (resp : response) : bool :=
  match delay_of resp with
  | Some n => 0 <=? n
  | None => false
  end.

(** An attempt that failed and is retried: a transport failure, a 5xx, or
    a 429 with a well-formed delay. *)
Definition failed_attempt (o : outcome) : bool :=
  match o with
  | RequestException => true
  | Response resp =>
      if status_code resp =? 429 then well_formed_delay resp
      else (500 <=? status_code resp) && (status_code resp <? 600)
  end.

(** An outcome [safe_request] can handle without raising. *)
Definition handled (o : outcome) : bool :=
  match o with
  | RequestException => true
  | Response resp => negb (status_code resp =? 429) || well_formed_delay resp
  end.


(** *** Page sequences seen by the Paginated Collector *)

(** How a page sequence ends: with a page shorter than the page size, or
    with the Fetcher giving no result. *)
Inductive ending : Type := ShortPage | NoResult.

Section Served.
Context {X : Type}.
  (** [page w a p w1]: from world [w], the fetch of page number [a] succeeds
      with the items [p] and leaves world [w1]; [no_result w a]: it gives
      no result. *)
Variable page : world -> nat -> list X -> world -> Prop.
Variable no_result : world -> nat -> Prop.

  (** [served w a ps e]: from world [w] and page number [a] on, successive
      fetches see the pages [ps], every page before the end holding exactly
      [batch] items (the collector sleeps 0.1 s between two pages). *)
Inductive served : world -> nat -> list (list X) -> ending -> Prop :=
  | served_short w a p w1 :
      page w a p w1 -> Z.of_nat (List.length p) < batch ->
      served w a [p] ShortPage
  | served_no_result w a :
      no_result w a -> served w a [] NoResult
  | served_full w a p w1 ps e :
      page w a p w1 -> Z.of_nat (List.length p) = batch ->
      served (EvSleep 100 :: w1) (S a) ps e ->
      served w a (p :: ps) e.
End Served.

Section Pages.
Variable net : nat -> request -> outcome.
Variables token genre market : json.

Definition page_offset (a : nat) : Z := batch * Z.of_nat a.

  (** A page of the track search: the response's [tracks.items] is the
      list [p]. *)
Definition tracks_page (w : world) (a : nat) (p : list json) (w1 : world) : Prop :=
    exists resp,
      safe_request net (search_request token genre market (page_offset a)) w
      = (Ret (Some resp), w1)
      /\ items_of "tracks" resp w1 = (Ret (JList p), w1).

Definition tracks_no_result (w : world) (a : nat) : Prop :=
    exists w1,
      safe_request net (search_request token genre market (page_offset a)) w
      = (Ret None, w1).

  (** A page of browse-categories: [categories.items] is a list whose
      entries carry the (name, id) pairs [p]. *)
Definition categories_page (w : world) (a : nat) (p : list (json * json))
             (w1 : world) : Prop :=
    exists resp items,
      safe_request net (categories_request token (page_offset a)) w
      = (Ret (Some resp), w1)
      /\ items_of "categories" resp w1 = (Ret (JList items), w1)
      /\ name_id_pairs items = Ret p.

Definition categories_no_result (w : world) (a : nat) : Prop :=
    exists w1,
      safe_request net (categories_request token (page_offset a)) w
      = (Ret None, w1).
End Pages.

(** The Paginated Collector as one loop: [mkreq] builds the request of an
    offset, [extract] reads a response: [None] for an empty page, else the
    page's items and its length. *)
Section Paginate.
Context {X : Type}.
Variable net : nat -> request -> outcome.
Variable mkreq : Z -> request.
Variable extract : response -> M (option (list X * Z)).

Fixpoint paginate (offsets : list Z) (acc : list X) : M (list X) :=
    match offsets with
    | [] => ret acc
    | offset :: rest =>
        resp <- safe_request net (mkreq offset) ;;
        match resp with
        | None => ret acc
        | Some resp =>
            x <- extract resp ;;
            match x with
            | None => ret acc
            | Some (elems, n) =>
                if n <? batch then ret (acc ++ elems)
                else sleep_ms 100 ;;; paginate rest (acc ++ elems)
            end
        end
    end.

  (** What [extract] returns for a page holding the items [p]. *)
Definition page_result (p : list X) : option (list X * Z) :=
    match p with
    | [] => None
    | _ => Some (p, Z.of_nat (List.length p))
    end.

Definition fetched_page (w : world) (a : nat) (p : list X) (w1 : world) : Prop :=
    exists resp,
      safe_request net (mkreq (page_offset a)) w = (Ret (Some resp), w1)
      /\ extract resp w1 = (Ret (page_result p), w1).

Definition fetched_nothing (w : world) (a : nat) : Prop :=
    exists w1, safe_request net (mkreq (page_offset a)) w = (Ret None, w1).
End Paginate.

(** The offsets of [k] pages from page number [a] on. *)
Definition offsets_from (a k : nat) : list Z := map page_offset (seq a k).

Definition extract_tracks (resp : response) : M (option (list json * Z)) :=
  items <- items_of "tracks" resp ;;
  if negb (truthy items) then ret None
  else
    elems <- lift (iterate items) ;;
    n <- lift (len items) ;;
    ret (Some (elems, n)).

Definition extract_categories (resp : response)
  : M (option (list (json * json) * Z)) :=
  items <- items_of "categories" resp ;;
  if negb (truthy items) then ret None
  else
    elems <- lift (iterate items) ;;
    pairs <- lift (name_id_pairs elems) ;;
    n <- lift (len items) ;;
    ret (Some (pairs, n)).


(** *** The markets fetch as the spec words it

    An instance of the Paginated Collector, like browse-categories and the
    track search: pages of [batch] markets at offsets 0, 50, 100, ... up
    to [limit], the result cut to [limit]. *)

Definition spec_markets_page_request (token : json) (offset : Z) : request :=
  api_get token "https://api.spotify.com/v1/markets"
          [("limit", PInt batch); ("offset", PInt offset)].

Definition spec_extract_markets (resp : response) : M (option (list json * Z)) :=
  j <- json_of resp ;;
  items <- lift (get_or j "markets" (JList [])) ;;
  if negb (truthy items) then ret None
  else
    elems <- lift (iterate items) ;;
    n <- lift (len items) ;;
    ret (Some (elems, n)).

Definition spec_paginated_markets (net : nat -> request -> outcome)
           (limit : Z) (token : json) : M (list json) :=
  ms <- paginate net (spec_markets_page_request token) spec_extract_markets
          (range 0 limit batch) [] ;;
  ret (slice_to ms limit).

(** The offsets a run sent, one entry per request, oldest first. *)
Definition offsets_sent (w : world) : list (option pval) :=
  map (fun r => assoc "offset" (params r)) (requests_of w).

(** *** The shape of a snapshot *)

(** [k] is one of [ks], as dict keys compare. *)
Definition key_in (k : json) (ks : list json) : bool :=
  existsb (fun k' => key_eqb k' k) ks.

(** A complete snapshot: both mappings hold the same markets, which are
    [markets], and under every market both inner mappings hold exactly the
    genres of [top_genres]. *)
Definition snapshot_complete (markets : list json) (s : snapshot) : Prop :=
  dict_keys (country_genre_popularity s) = dict_keys (top_artists s)
  /\ (forall k, has_key k (country_genre_popularity s) = key_in k markets)
  /\ (forall m scores, In (m, scores) (country_genre_popularity s) ->
        forall g, has_key g scores = key_in g (top_genres s))
  /\ (forall m artists, In (m, artists) (top_artists s) ->
        forall g, has_key g artists = key_in g (top_genres s)).

(** No artist list is longer than [top_n]. *)
Definition artists_capped (top_n : Z) (s : snapshot) : Prop :=
  forall m artists g l,
    In (m, artists) (top_artists s) -> In (g, l) artists ->
    Z.of_nat (List.length l) <= top_n.

(** *** Completed runs *)

(** A run of [main] from world [w] that reached the end of the main loop:
    the phases it went through, the [markets] it fetched, the [result] it
    hands to [write_snapshot] and the world [w5] it does so in. *)
Definition completed (CLIENT_ID CLIENT_SECRET : string)
           (MARKETS_LIMIT GENRES_LIMIT TRACKS_LIMIT TOP_N_GENRES TOP_N_ARTISTS : Z)
           (net : nat -> request -> outcome)
           (w : world) (markets : list json) (result : snapshot) (w5 : world) : Prop :=
  exists token w1 categories w2 global_scores w3 mk w4,
    get_token CLIENT_ID CLIENT_SECRET net w = (Ret token, w1)
    /\ truthy token = true
    /\ get_all_categories net token GENRES_LIMIT w1 = (Ret categories, w2)
    /\ global_scores_loop TRACKS_LIMIT net token categories [] w2
       = (Ret global_scores, w3)
    /\ get_markets MARKETS_LIMIT net token w3 = (Ret mk, w4)
    /\ truthy mk = true
    /\ iterate mk = Ret markets
    /\ markets_loop TRACKS_LIMIT TOP_N_ARTISTS net token
         (select_top_genres TOP_N_GENRES global_scores) markets
         {| top_genres := select_top_genres TOP_N_GENRES global_scores;
            country_genre_popularity := [];
            top_artists := [] |} w4
       = (Ret result, w5)
    /\ writes_of w5 = writes_of w.

(** *** Tracks and per-artist totals *)

(** A track of the data model: its artists in listed order and its
    popularity. *)
Record Track : Type := {
  track_artists : list string;
  track_popularity : Z
}.

Definition track_json (t : Track) : json :=
  JDict [("artists", JList (map (fun a => JDict [("name", JStr a)]) (track_artists t)));
         ("popularity", JNum (track_popularity t))].

(** [represents j t]: the JSON value [j] reads as the track [t]: its
    'artists' (an absent key reads as no artist) is a list of objects named
    as [t]'s artists, its 'popularity' (absent reads as 0) is [t]'s. *)
Definition artist_named (a : json) (n : string) : Prop :=
  get_or a "name" JNull = Ret (JStr n).

Definition represents (j : json) (t : Track) : Prop :=
  exists arts,
    get_or j "artists" (JList []) = Ret (JList arts)
    /\ Forall2 artist_named arts (track_artists t)
    /\ get_or j "popularity" (JNum 0) = Ret (JNum (track_popularity t)).

(** What each track contributes: its popularity to its first-listed
    artist, nothing when it lists none. *)
Definition attribution (t : Track) : list (string * Z) :=
  match track_artists t with
  | [] => []
  | a :: _ => [(a, track_popularity t)]
  end.

Definition attributions (ts : list Track) : list (string * Z) :=
  flat_map attribution ts.

(** The names of [l] in the order of their first occurrence. *)
Fixpoint first_seen (l : list string) : list string :=
  match l with
  | [] => []
  | a :: r => a :: filter (fun b => negb (String.eqb b a)) (first_seen r)
  end.

Definition total_of (a : string) (attrs : list (string * Z)) : Z :=
  fold_right Z.add 0 (map snd (filter (fun x => String.eqb (fst x) a) attrs)).

(** The per-artist totals, artists in first-encountered order. *)
Definition artist_totals (ts : list Track) : list (string * Z) :=
  map (fun a => (a, total_of a (attributions ts)))
      (first_seen (map fst (attributions ts))).

Definition named (l : list (string * Z)) : list (json * Z) :=
  map (fun x => (JStr (fst x), snd x)) l.


(** *** Track searches that fail the way the Fetcher handles *)

(** A page of well-formed tracks. *)
Definition well_formed_page (resp : response) : Prop :=
  exists j o items ts,
    body resp = Some j
    /\ get_or j "tracks" (JDict []) = Ret o
    /\ get_or o "items" (JList []) = Ret (JList items)
    /\ Forall2 represents items ts.

(** An outcome that costs a pair at most its data: a transport failure, a
    429 with a well-formed delay, any other 4xx or 5xx, or a page of
    well-formed tracks. *)
Definition benign (o : outcome) : Prop :=
  match o with
  | RequestException => True
  | Response resp =>
      if status_code resp =? 429 then well_formed_delay resp = true
      else if raises_for_status resp then True
      else well_formed_page resp
  end.

Definition searches_benign (net : nat -> request -> outcome) : Prop :=
  forall n r, url r = "https://api.spotify.com/v1/search" -> benign (net n r).

End Vocab.

(** More words, for the properties beyond the frozen ones. *)
Module Words.
Import Py Refresh Vocab.

(** What [safe_request] sleeps after a failed attempt, in milliseconds: the
    delay the server asked for after a 429, else two to the attempt's
    number, in seconds. *)
Definition wait_ms (attempt : Z) (o : outcome) : Z :=
  match o with
  | RequestException => 1000 * 2 ^ attempt
  | Response resp =>
      if status_code resp =? 429
      then 1000 * match delay_of resp with Some n => n | None => 0 end
      else 1000 * 2 ^ attempt
  end.


(** The sum of the scores of a ranking, or of any list of scored items. *)
Definition sum_scores {A} (l : list (A * Z)) : Z :=
  fold_right Z.add 0 (map snd l).

(** The summed popularity of tracks. *)
Definition popularity_sum (ts : list Track) : Z :=
  fold_right Z.add 0 (map track_popularity ts).

(** The tracks that list at least one artist. *)
Definition with_artist (ts : list Track) : list Track :=
  filter (fun t => match track_artists t with [] => false | _ => true end) ts.

End Words.

Module Examples.
Import Py Refresh.

Definition plain_request : request :=
  {| method := "GET"; url := "http://example.com"; bearer := None;
     auth := None; form := []; params := [] |}.

Definition status_only (code : Z) : response :=
  {| status_code := code; retry_after := None; body := None |}.

Definition rate_limited (h : option string) : response :=
  {| status_code := 429; retry_after := h; body := None |}.

Definition ok (j : json) : response :=
  {| status_code := 200; retry_after := None; body := Some j |}.

(** Always 404. *)
Definition net_404 : nat -> request -> outcome :=
  fun _ _ => Response (status_only 404).

(** One 429 with [Retry-After: 0], then 200 with [{"ok": true}]. *)
Definition net_429_then_200 : nat -> request -> outcome :=
  fun n _ => match n with
             | O => Response (rate_limited (Some "0"))
             | _ => Response (ok (JDict [("ok", JBool true)]))
             end.

(** Always a transport failure. *)
Definition net_down : nat -> request -> outcome := fun _ _ => RequestException.

(** A 429 whose Retry-After is an HTTP date, as RFC 9110 allows. *)
Definition net_429_http_date : nat -> request -> outcome :=
  fun _ _ => Response (rate_limited (Some "Wed, 21 Oct 2015 07:28:00 GMT")).


(** *** A small catalogue served page by page *)

Definition track (popularity : Z) (artist : string) : json :=
  JDict [("name", JStr "a song"); ("popularity", JNum popularity);
         ("artists", JList [JDict [("name", JStr artist); ("id", JStr "x")]])].

Definition category (name : string) : json :=
  JDict [("name", JStr name); ("id", JStr name)].

Definition full_tracks : list json := repeat (track 1 "A") 50.
Definition last_tracks : list json := [track 10 "A"; track 20 "A"; track 5 "B"].
Definition full_categories : list json := repeat (category "pop") 50.
Definition last_categories : list json := [category "rock"; category "jazz"].

Definition offset_of (r : request) : Z :=
  match assoc "offset" (params r) with
  | Some (PInt o) => o
  | _ => 0
  end.

Definition is_search (r : request) : bool :=
  String.eqb (url r) "https://api.spotify.com/v1/search".

(** The body of browse-categories or of the track search for [r], given
    the first and the second page of each. *)
Definition page_body (r : request) (first second : bool -> list json) : json :=
  let items := JList (if offset_of r =? 0 then first (is_search r)
                      else second (is_search r)) in
  if is_search r then JDict [("tracks", JDict [("items", items)])]
  else JDict [("categories", JDict [("items", items)])].

(** A server with one full page and one short page of each kind. *)
Definition net_two_pages : nat -> request -> outcome :=
  fun _ r =>
    Response (ok (page_body r
                    (fun s => if s then full_tracks else full_categories)
                    (fun s => if s then last_tracks else last_categories))).

(** A server that answers the first page and refuses the rest with 404. *)
Definition net_page_then_404 : nat -> request -> outcome :=
  fun _ r =>
    if offset_of r =? 0
    then Response (ok (page_body r
                         (fun s => if s then full_tracks else full_categories)
                         (fun _ => [])))
    else Response (status_only 404).

Definition tok : json := JStr "token".

(** Sixty markets, served fifty at a time by offset. *)
Definition net_markets_paged : nat -> request -> outcome :=
  fun _ r =>
    Response (ok (JDict [("markets",
                          JList (if offset_of r =? 0
                                 then repeat (JStr "US") 50
                                 else repeat (JStr "GB") 10))])).

(** Three markets in one answer. *)
Definition net_three_markets : nat -> request -> outcome :=
  fun _ _ =>
    Response (ok (JDict [("markets", JList [JStr "US"; JStr "GB"; JStr "FR"])])).

(** *** A whole service

    One category, "pop"; three tracks for every search; the markets US and
    GB.  The answer to a track search that names a market is left open. *)

Definition url_is (r : request) (u : string) : bool := String.eqb (url r) u.

Definition has_market (r : request) : bool :=
  match assoc "market" (params r) with
  | Some _ => true
  | None => false
  end.

Definition service (scoped_search : request -> outcome) : nat -> request -> outcome :=
  fun _ r =>
    if url_is r "https://accounts.spotify.com/api/token" then
      Response (ok (JDict [("access_token", JStr "t")]))
    else if url_is r "https://api.spotify.com/v1/browse/categories" then
      Response (ok (JDict [("categories", JDict [("items", JList [category "pop"])])]))
    else if url_is r "https://api.spotify.com/v1/markets" then
      Response (ok (JDict [("markets", JList [JStr "US"; JStr "GB"])]))
    else if has_market r then scoped_search r
    else Response (ok (JDict [("tracks", JDict [("items", JList last_tracks)])])).

(** Every search succeeds. *)
Definition net_service : nat -> request -> outcome :=
  service (fun _ => Response (ok (JDict [("tracks", JDict [("items", JList last_tracks)])]))).

Definition market_of (r : request) : string :=
  match assoc "market" (params r) with
  | Some (PVal (JStr m)) => m
  | _ => ""
  end.

(** The searches scoped to GB are refused with 404. *)
Definition net_gb_refused : nat -> request -> outcome :=
  service (fun r =>
             if String.eqb (market_of r) "GB" then Response (status_only 404)
             else Response (ok (JDict [("tracks", JDict [("items", JList last_tracks)])]))).

(** The searches scoped to GB answer 200 with a body that is not JSON. *)
Definition net_gb_garbled : nat -> request -> outcome :=
  service (fun r =>
             if String.eqb (market_of r) "GB"
             then Response {| status_code := 200; retry_after := None; body := None |}
             else Response (ok (JDict [("tracks", JDict [("items", JList last_tracks)])]))).

(** The searches scoped to GB get one full page, then 404. *)
Definition net_gb_cut_short : nat -> request -> outcome :=
  service (fun r =>
             if String.eqb (market_of r) "GB" then
               if offset_of r =? 0
               then Response (ok (JDict [("tracks", JDict [("items", JList full_tracks)])]))
               else Response (status_only 404)
             else Response (ok (JDict [("tracks", JDict [("items", JList last_tracks)])]))).

(** The token endpoint refuses the credentials. *)
Definition net_no_token : nat -> request -> outcome :=
  fun _ _ => Response (status_only 401).

(** The markets endpoint answers with an empty list. *)
Definition net_no_markets : nat -> request -> outcome :=
  fun n r =>
    if url_is r "https://api.spotify.com/v1/markets"
    then Response (ok (JDict [("markets", JList [])]))
    else net_service n r.

(** What the run over [net_service] writes. *)
Definition service_snapshot : snapshot :=
  {| top_genres := [JStr "pop"];
     country_genre_popularity :=
       [(JStr "US", [(JStr "pop", 35)]); (JStr "GB", [(JStr "pop", 35)])];
     top_artists :=
       [(JStr "US", [(JStr "pop", [(JStr "A", 30); (JStr "B", 5)])]);
        (JStr "GB", [(JStr "pop", [(JStr "A", 30); (JStr "B", 5)])])] |}.

(** The run of [main] with the configuration defaults. *)
Definition run_main (net : nat -> request -> outcome) : result unit * world :=
  main "id" "secret" 10 200 200 10 5 net [].

(** *** Boundary frames *)

(** Natural Earth style: an ISO_A2 column and an ISO_A2_EH column. *)
Definition frame_natural_earth : Pandas.frame :=
  [("ADMIN", [Some "France"]); ("ISO_A2", [Some "fr"]); ("ISO_A2_EH", [Some "fx"])].

(** A code column under a name that is no alias. *)
Definition frame_iso2_code : Pandas.frame :=
  [("ADMIN", [Some "France"]); ("iso2_code", [Some "fr"])].

(** No code column at all. *)
Definition frame_no_code : Pandas.frame :=
  [("ADMIN", [Some "France"])].

(** A datahub style frame. *)
Definition frame_datahub : Pandas.frame :=
  [("name", [Some "France"; Some "Kosovo"]);
   ("ISO3166-1-Alpha-2", [Some "fr"; None])].

(** *** The sample snapshot of the renderer's tests, and three countries *)

Definition sample_popularity : Snapshot.popularity :=
  [("US", [("G1", 10); ("G2", 20)]); ("GB", [("G1", 5); ("G2", 0)])].

Definition sample_artists : Snapshot.artists :=
  [("US", [("G1", [("A", 10)])]); ("GB", [("G1", [("B", 5)])])].

Definition country (code name : string) : Snapshot.boundary :=
  {| Snapshot.iso_a2 := Some code; Snapshot.name := Some name |}.

(** France has no entry in the sample snapshot. *)
Definition three_countries : list Snapshot.boundary :=
  [country "US" "United States"; country "GB" "United Kingdom";
   country "FR" "France"].

(** The three tracks of the Aggregator's example. *)
Definition three_tracks : list Vocab.Track :=
  [ {| Vocab.track_artists := ["A"]; Vocab.track_popularity := 10 |};
    {| Vocab.track_artists := ["A"]; Vocab.track_popularity := 20 |};
    {| Vocab.track_artists := ["B"]; Vocab.track_popularity := 5 |} ].

Definition full_pairs : list (json * json) := repeat (JStr "pop", JStr "pop") 50.
Definition last_pairs : list (json * json) :=
  [(JStr "rock", JStr "rock"); (JStr "jazz", JStr "jazz")].

End Examples.

(** Further inputs of the examples. *)
Module Samples.
Import Py Refresh Examples.

(** Every search answers one track and a null entry. *)
Definition net_null_track : nat -> request -> outcome :=
  fun _ _ =>
    Response (ok (JDict [("tracks",
                          JDict [("items", JList [track 10 "A"; JNull])])])).

(** Three categories; the searches for "rock" find the three tracks, the
    others one track of popularity 10. *)
Definition net_three_genres : nat -> request -> outcome :=
  fun _ r =>
    if url_is r "https://api.spotify.com/v1/browse/categories" then
      Response (ok (JDict [("categories",
                            JDict [("items", JList [category "pop"; category "rock";
                                                    category "jazz"])])]))
    else
      match assoc "q" (params r) with
      | Some (PGenreQuery (JStr "rock")) =>
          Response (ok (JDict [("tracks", JDict [("items", JList last_tracks)])]))
      | _ =>
          Response (ok (JDict [("tracks", JDict [("items", JList [track 10 "A"])])]))
      end.

(** A frame with a code column under two alias labels. *)
Definition frame_two_codes : Pandas.frame :=
  [("name", [Some "France"]); ("iso_a2", [Some "fr"]); ("ISO2", [Some "fx"])].

End Samples.

(** The vocabulary of the joined views. *)
Module Views.
Import Py Pandas Snapshot.

(** The entries of an aggregate that join a boundary record: those whose
    market code, upper-cased, is the record's ISO-2 code. *)
Definition joins {V} (b : boundary) (kv : string * V) : bool :=
  same_key iso_a2 (fun kv : string * V => upper (fst kv)) b kv.

Definition entries_of {V} (aggregate : list (string * V)) (b : boundary)
  : list (string * V) :=
  filter (joins b) aggregate.

Definition entry_of {V} (aggregate : list (string * V)) (b : boundary)
  : option (string * V) :=
  find (joins b) aggregate.

(** What a view shows on the map: the boundary records and their values. *)
Definition shown (r : result (list joined)) : result (list (boundary * Z)) :=
  match r with
  | Ret rows => Ret (map (fun row => (joined_boundary row, joined_value row)) rows)
  | Raise e => Raise e
  end.

(** Two market codes that agree once upper-cased. *)
Definition popularity_gb_twice : popularity :=
  [("gb", [("G1", 1)]); ("GB", [("G1", 2)])].

(** An artists mapping with a market the popularity mapping lacks. *)
Definition artists_with_fr : artists :=
  [("US", [("G1", [("A", 10)])]); ("FR", [("G1", [("C", 7)])])].

End Views.

(** The tables of [app.py]. *)
Module Tables.
Import Py Snapshot.

(** [d[k] = v] on a dict with string keys. *)
Fixpoint str_set {V} (k : string) (v : V) (d : list (string * V))
  : list (string * V) :=
  match d with
  | [] => [(k, v)]
  | (k', v') :: r =>
      if String.eqb k' k then (k', v) :: r else (k', v') :: str_set k v r
  end.

(** [sum(country_pop[iso2].get(genre, 0) for iso2 in country_pop)]; the
    subscript cannot fail, [iso2] being a key of [country_pop]. *)
Definition genre_total (country_pop : popularity) (genre : string) : Z :=
  fold_left Z.add
    (map (fun kv => get_default genre (get_default (fst kv) country_pop []) 0)
         country_pop)
    0.

(** The dict comprehension [genre_totals]. *)
Definition genre_totals (top_genres : list string) (country_pop : popularity)
  : list (string * Z) :=
  fold_left (fun d genre => str_set genre (genre_total country_pop genre) d)
            top_genres [].

(** [agg[artist] = agg.get(artist, 0) + score]. *)
Definition add_artist (agg : list (string * Z)) (x : string * Z)
  : list (string * Z) :=
  str_set (fst x) (get_default (fst x) agg 0 + snd x) agg.

(** The two loops of [update_genre_page] that fill [agg]. *)
Definition agg (country_art : artists) (selected_genre : string)
  : list (string * Z) :=
  fold_left (fun agg kv =>
               fold_left add_artist (get_default selected_genre (snd kv) []) agg)
            country_art [].

(** The (artist, score) pairs the loops visit, in order. *)
Definition genre_entries (country_art : artists) (selected_genre : string)
  : list (string * Z) :=
  flat_map (fun kv => get_default selected_genre (snd kv) []) country_art.

End Tables.

(* ===================================================================== *)
(** * Properties *)
(* ===================================================================== *)

(** Case analysis on the innermost scrutinee of the goal. *)
Ltac case_scrutinee :=
  match goal with
  | |- context [match ?x with _ => _ end] =>
      lazymatch x with
      | context [match _ with _ => _ end] => fail
      | _ => destruct x
      end
  end.

Ltac unfold_monad :=
  unfold Refresh.bind, Refresh.ret, Refresh.raise, Refresh.lift, Refresh.sleep_ms in *.

(** ** Python built-ins *)

Module PyFacts.
Import Py.

Lemma range_1_4 : range 1 4 1 = [1; 2; 3].
Proof. reflexivity. Qed.

Lemma lstrip_non_space c s : is_space c = false -> lstrip (c :: s) = c :: s.
Proof. intros H. simpl. now rewrite H. Qed.

Lemma is_digit_not_space c : is_digit c = true -> is_space c = false.
Proof.
  unfold is_digit, is_space. intros H.
  apply andb_true_iff in H as [H1 H2].
  apply Nat.leb_le in H1. apply Nat.leb_le in H2.
  repeat rewrite orb_false_iff. repeat split.
  - apply andb_false_iff. right. apply Nat.leb_gt. lia.
  - apply andb_false_iff. right. apply Nat.leb_gt. lia.
  - apply Nat.eqb_neq. lia.
  - apply Nat.eqb_neq. lia.
Qed.

Lemma digit_val_range c : is_digit c = true -> 0 <= digit_val c <= 9.
Proof.
  unfold is_digit, digit_val. intros H.
  apply andb_true_iff in H as [H1 H2].
  apply Nat.leb_le in H1. apply Nat.leb_le in H2. lia.
Qed.

Lemma parse_digits_all_digits s :
  forallb is_digit s = true ->
  forall acc b, 0 <= acc -> (s <> [] \/ b = true) ->
  exists n, parse_digits acc b s = Some n /\ 0 <= n.
Proof.
  induction s as [|c s IH]; intros Hd acc b Hacc Hne; cbn [parse_digits].
  - destruct Hne as [Hne|Hb]; [congruence|]. subst b. eauto.
  - simpl in Hd. apply andb_true_iff in Hd as [Hc Hs].
    rewrite Hc. pose proof (digit_val_range c Hc) as Hv.
    apply IH; [assumption | lia | now right].
Qed.

Lemma strip_digits s :
  s <> [] -> forallb is_digit s = true -> strip s = s.
Proof.
  intros Hne Hd. unfold strip.
  destruct s as [|c s]; [congruence|].
  rewrite lstrip_non_space.
  2:{ simpl in Hd. apply andb_true_iff in Hd as [Hc _].
      now apply is_digit_not_space. }
  assert (Hr : forallb is_digit (rev (c :: s)) = true).
  { rewrite forallb_forall in *. intros x Hx. apply Hd. now apply in_rev. }
  destruct (rev (c :: s)) as [|d r] eqn:E.
  - apply (f_equal (@List.length ascii)) in E. rewrite length_rev in E. discriminate.
  - rewrite lstrip_non_space.
    2:{ simpl in Hr. apply andb_true_iff in Hr as [Hc _].
        now apply is_digit_not_space. }
    rewrite <- E. apply rev_involutive.
Qed.

(** A non-empty string of decimal digits reads as a non-negative integer. *)
Lemma int_of_string_digits (s : string) :
  s <> "" -> forallb is_digit (list_ascii_of_string s) = true ->
  exists n, int_of_string s = Some n /\ 0 <= n.
Proof.
  intros Hne Hd. unfold int_of_string.
  assert (Hl : list_ascii_of_string s <> []).
  { destruct s; [congruence | discriminate]. }
  rewrite (strip_digits _ Hl Hd).
  destruct (list_ascii_of_string s) as [|c r] eqn:E; [congruence|].
  assert (Hc : is_digit c = true) by (simpl in Hd; now apply andb_true_iff in Hd).
  assert (H : exists n, parse_digits 0 false (c :: r) = Some n /\ 0 <= n).
  { apply parse_digits_all_digits; [exact Hd | lia | left; discriminate]. }
  destruct (Ascii.eqb c "-") eqn:E1.
  { apply Ascii.eqb_eq in E1. subst c. discriminate. }
  destruct (Ascii.eqb c "+") eqn:E2.
  { apply Ascii.eqb_eq in E2. subst c. discriminate. }
  destruct c as [[] [] [] [] [] [] [] []]; try discriminate; exact H.
Qed.

Lemma slice_to_length {A} (l : list A) n :
  0 <= n -> Z.of_nat (List.length (slice_to l n)) <= n.
Proof.
  intros Hn. unfold slice_to.
  destruct (0 <=? n) eqn:E; [|apply Z.leb_gt in E; lia].
  rewrite length_firstn. lia.
Qed.

Lemma slice_to_nonneg {A} (l : list A) n :
  0 <= n -> slice_to l n = firstn (Z.to_nat n) l.
Proof.
  intros Hn. unfold slice_to.
  destruct (0 <=? n) eqn:E; [reflexivity|apply Z.leb_gt in E; lia].
Qed.

Lemma slice_to_nil {A} n : slice_to (@nil A) n = [].
Proof. unfold slice_to. destruct (0 <=? n); apply firstn_nil. Qed.


(** *** Dicts *)

Lemma key_eqb_sym a b : key_eqb a b = key_eqb b a.
Proof.
  destruct a as [|x|n|s| |], b as [|y|m|t| |]; cbn; try reflexivity.
  - now destruct x, y.
  - apply Z.eqb_sym.
  - apply String.eqb_sym.
Qed.

Lemma key_eqb_refl a : hashable a = true -> key_eqb a a = true.
Proof.
  destruct a; cbn; intros H; try discriminate; try reflexivity.
  - apply Bool.eqb_reflx.
  - apply Z.eqb_refl.
  - apply String.eqb_refl.
Qed.

Lemma key_eqb_trans a b c :
  key_eqb a b = true -> key_eqb b c = true -> key_eqb a c = true.
Proof.
  destruct a as [|x|n|s| |], b as [|y|m|t| |], c as [|z|k|u| |]; cbn;
    try discriminate; try reflexivity;
    rewrite ?Bool.eqb_true_iff, ?Z.eqb_eq, ?String.eqb_eq;
    try congruence.
  all: intros; subst; try reflexivity; try congruence.
  all: repeat match goal with b : bool |- _ => destruct b end; congruence.
Qed.

Section DictFacts.
Context {V : Type}.
Implicit Types (d : dict V) (k : json).

Lemma has_key_dict_set k k' (v : V) d :
  has_key k (dict_set k' v d) = key_eqb k' k || has_key k d.
Proof.
  unfold has_key, dict_keys.
  induction d as [|[k2 v2] d IH]; cbn [dict_set map existsb fst].
  - reflexivity.
  - destruct (key_eqb k2 k') eqn:E; cbn [map existsb fst].
    + destruct (key_eqb k' k) eqn:E1; [|reflexivity].
      now rewrite (key_eqb_trans _ _ _ E E1).
    + rewrite IH. destruct (key_eqb k2 k), (key_eqb k' k); reflexivity.
Qed.

Lemma dict_get_has_key k d :
  has_key k d = true <-> exists v, dict_get k d = Some v.
Proof.
  unfold has_key, dict_keys.
  induction d as [|[k2 v2] d IH]; cbn [map existsb fst dict_get].
  - split; [discriminate | intros [v H]; discriminate].
  - destruct (key_eqb k2 k); cbn [orb]; [|exact IH].
    split; eauto.
Qed.

Lemma dict_set_In k (v : V) d k' v' :
  In (k', v') (dict_set k v d) -> In (k', v') d \/ v' = v.
Proof.
  induction d as [|[k2 v2] d IH]; cbn [dict_set].
  - intros [H|[]]. inversion H. now right.
  - destruct (key_eqb k2 k).
    + intros [H|H]; [inversion H; now right | left; now right].
    + intros [H|H]; [left; now left|].
      destruct (IH H) as [H'|H']; [left; now right | now right].
Qed.

End DictFacts.

(** Two dicts written in step hold the same keys in the same order. *)
Lemma dict_keys_dict_set {V W} k (v : V) (v' : W) (d : dict V) (d' : dict W) :
  dict_keys d = dict_keys d' ->
  dict_keys (dict_set k v d) = dict_keys (dict_set k v' d').
Proof.
  revert d'. unfold dict_keys.
  induction d as [|[k2 v2] d IH]; intros [|[k3 v3] d'] H; try discriminate.
  - reflexivity.
  - cbn [map fst] in H. inversion H; subst. cbn [dict_set].
    destruct (key_eqb k3 k); cbn [map fst]; f_equal; auto.
Qed.

(** *** The stable descending sort *)

Section SortedDesc.
Context {A : Type} (key : A -> Z).

Lemma insert_desc_perm x l : Permutation (insert_desc key x l) (x :: l).
Proof.
  induction l as [|y l IH]; cbn [insert_desc]; [reflexivity|].
  destruct (key y <=? key x); [reflexivity|].
  rewrite IH. apply perm_swap.
Qed.

Lemma sorted_desc_perm l : Permutation (sorted_desc key l) l.
Proof.
  induction l as [|x l IH]; cbn [sorted_desc fold_right]; [reflexivity|].
  rewrite insert_desc_perm. now constructor.
Qed.

Definition descending : list A -> Prop :=
  StronglySorted (fun x y => key x >= key y).

Lemma insert_desc_descending x l :
  descending l -> descending (insert_desc key x l).
Proof.
  induction 1 as [|y l Hl IH Hy]; cbn [insert_desc].
  - repeat constructor.
  - destruct (key y <=? key x) eqn:E.
    + apply Z.leb_le in E. constructor; [now constructor|].
      constructor; [lia|].
      rewrite Forall_forall in *. intros z Hz. specialize (Hy z Hz). lia.
    + apply Z.leb_gt in E. constructor; [exact IH|].
      rewrite Forall_forall in *. intros z Hz.
      apply (Permutation_in _ (insert_desc_perm x l)) in Hz.
      destruct Hz as [<-|Hz]; [lia | now apply Hy].
Qed.

Lemma sorted_desc_descending l : descending (sorted_desc key l).
Proof.
  induction l as [|x l IH]; cbn [sorted_desc fold_right]; [constructor|].
  now apply insert_desc_descending.
Qed.

Definition with_key (v : Z) (l : list A) : list A :=
  filter (fun x => key x =? v) l.

Lemma insert_desc_stable v x l :
  with_key v (insert_desc key x l) = with_key v (x :: l).
Proof.
  induction l as [|y l IH]; cbn [insert_desc]; [reflexivity|].
  destruct (key y <=? key x) eqn:E; [reflexivity|].
  apply Z.leb_gt in E. unfold with_key in *. cbn [filter] in *. rewrite IH.
  destruct (key x =? v) eqn:Ex, (key y =? v) eqn:Ey; try reflexivity.
  apply Z.eqb_eq in Ex, Ey. lia.
Qed.

(** Items of equal key keep their original order. *)
Lemma sorted_desc_stable v l : with_key v (sorted_desc key l) = with_key v l.
Proof.
  induction l as [|x l IH]; cbn [sorted_desc fold_right]; [reflexivity|].
  rewrite insert_desc_stable. unfold with_key in *. cbn [filter].
  fold (sorted_desc key l). now rewrite IH.
Qed.

End SortedDesc.

End PyFacts.

(** ** The Rate-Limited Fetcher *)

Module Fetcher.
Import Py Refresh Vocab Examples.

Lemma requests_made_request r w : requests_made (EvRequest r :: w) = S (requests_made w).
Proof. reflexivity. Qed.

Lemma requests_made_sleep ms w : requests_made (EvSleep ms :: w) = requests_made w.
Proof. reflexivity. Qed.

Lemma backoff_not_negative attempt : (1000 * 2 ^ attempt <? 0) = false.
Proof.
  apply Z.ltb_ge. destruct (Z.le_gt_cases 0 attempt) as [H|H].
  - pose proof (Z.pow_nonneg 2 attempt). lia.
  - rewrite Z.pow_neg_r by lia. lia.
Qed.

Ltac count_requests :=
  cbn [fst snd List.length];
  repeat rewrite requests_made_sleep; repeat rewrite requests_made_request;
  lia.

Section Policy.
Variable net : nat -> request -> outcome.

(** One turn of the retry loop, by the class of the response. *)
Lemma safe_request_from_step attempt rest r w :
  safe_request_from net (attempt :: rest) r w =
  let w1 := EvRequest r :: w in
  match net (requests_made w) r with
  | RequestException =>
      safe_request_from net rest r (EvSleep (1000 * 2 ^ attempt) :: w1)
  | Response resp =>
      if status_code resp =? 429 then
        match delay_of resp with
        | None => (Raise ValueError, w1)
        | Some n =>
            if 1000 * n <? 0 then (Raise ValueError, w1)
            else safe_request_from net rest r (EvSleep (1000 * n) :: w1)
        end
      else if (400 <=? status_code resp) && (status_code resp <? 500) then
        (Ret None, w1)
      else if (400 <=? status_code resp) && (status_code resp <? 600) then
        safe_request_from net rest r (EvSleep (1000 * 2 ^ attempt) :: w1)
      else (Ret (Some resp), w1)
  end.
Proof.
  cbn [safe_request_from]. unfold bind at 1. unfold http at 1. cbv zeta.
  destruct (net (requests_made w) r) as [resp|].
  - destruct (status_code resp =? 429).
    + unfold delay_of. destruct (int_of_string _) as [n|]; [|reflexivity].
      unfold bind, sleep, sleep_ms. destruct (1000 * n <? 0); reflexivity.
    + destruct ((400 <=? status_code resp) && (status_code resp <? 500)); [reflexivity|].
      unfold raises_for_status.
      destruct ((400 <=? status_code resp) && (status_code resp <? 600)); [|reflexivity].
      unfold bind, sleep, sleep_ms. now rewrite backoff_not_negative.
  - unfold bind, sleep, sleep_ms. now rewrite backoff_not_negative.
Qed.

Lemma safe_request_from_nil r w : safe_request_from net [] r w = (Ret None, w).
Proof. reflexivity. Qed.

(** A 4xx other than 429 ends the call at once. *)
Lemma safe_request_client_error r w resp :
  net (requests_made w) r = Response resp ->
  400 <= status_code resp < 500 -> status_code resp <> 429 ->
  safe_request net r w = (Ret None, EvRequest r :: w).
Proof.
  intros Hn Hs H429. unfold safe_request. rewrite PyFacts.range_1_4.
  rewrite safe_request_from_step, Hn. cbv zeta.
  replace (status_code resp =? 429) with false by (symmetry; apply Z.eqb_neq; lia).
  replace ((400 <=? status_code resp) && (status_code resp <? 500)) with true;
    [reflexivity|].
  symmetry. apply andb_true_iff. split; [apply Z.leb_le | apply Z.ltb_lt]; lia.
Qed.

(** A 429 without a Retry-After header: one second of sleep, then the next
    attempt. *)
Lemma safe_request_from_429_absent attempt rest r w resp :
  net (requests_made w) r = Response resp ->
  status_code resp = 429 -> retry_after resp = None ->
  safe_request_from net (attempt :: rest) r w =
  safe_request_from net rest r (EvSleep 1000 :: EvRequest r :: w).
Proof.
  intros Hn Hs Hh. rewrite safe_request_from_step, Hn. cbv zeta.
  rewrite Hs. unfold delay_of. rewrite Hh. reflexivity.
Qed.

(** The loop sends at most one request per attempt. *)
Lemma safe_request_from_bound attempts r w :
  (requests_made (snd (safe_request_from net attempts r w))
   <= requests_made w + List.length attempts)%nat.
Proof.
  revert w. induction attempts as [|a rest IH]; intros w.
  - rewrite safe_request_from_nil. count_requests.
  - rewrite safe_request_from_step. cbv zeta.
    assert (Hs : forall ms,
      (requests_made (snd (safe_request_from net rest r (EvSleep ms :: EvRequest r :: w)))
       <= requests_made w + List.length (a :: rest))%nat).
    { intros ms. specialize (IH (EvSleep ms :: EvRequest r :: w)).
      rewrite requests_made_sleep, requests_made_request in IH. count_requests. }
    destruct (net (requests_made w) r) as [resp|]; [|apply Hs].
    destruct (status_code resp =? 429).
    + destruct (delay_of resp) as [n|].
      * destruct (1000 * n <? 0); [count_requests | apply Hs].
      * count_requests.
    + destruct ((400 <=? status_code resp) && (status_code resp <? 500)); [count_requests|].
      destruct ((400 <=? status_code resp) && (status_code resp <? 600)); [apply Hs | count_requests].
Qed.

(** When every attempt fails and is retried, the loop runs out: no result,
    one request per attempt. *)
Lemma safe_request_from_exhausted attempts r w :
  (forall i, (i < List.length attempts)%nat ->
             failed_attempt (net (requests_made w + i) r) = true) ->
  fst (safe_request_from net attempts r w) = Ret None /\
  requests_made (snd (safe_request_from net attempts r w))
  = (requests_made w + List.length attempts)%nat.
Proof.
  revert w. induction attempts as [|a rest IH]; intros w Hall.
  - simpl. split; [reflexivity | lia].
  - rewrite safe_request_from_step. cbv zeta.
    assert (Hs : forall ms,
      fst (safe_request_from net rest r (EvSleep ms :: EvRequest r :: w)) = Ret None /\
      requests_made (snd (safe_request_from net rest r (EvSleep ms :: EvRequest r :: w)))
      = (requests_made w + List.length (a :: rest))%nat).
    { intros ms.
      destruct (IH (EvSleep ms :: EvRequest r :: w)) as [H1 H2].
      - intros i Hi. rewrite requests_made_sleep, requests_made_request.
        replace (S (requests_made w) + i)%nat with (requests_made w + S i)%nat by lia.
        apply Hall. simpl. lia.
      - split; [exact H1|]. rewrite H2.
        rewrite requests_made_sleep, requests_made_request. simpl. lia. }
    pose proof (Hall 0%nat ltac:(simpl; lia)) as H0.
    rewrite Nat.add_0_r in H0. unfold failed_attempt in H0.
    destruct (net (requests_made w) r) as [resp|]; [|apply Hs].
    destruct (status_code resp =? 429).
    + unfold well_formed_delay in H0. destruct (delay_of resp) as [n|]; [|discriminate].
      apply Z.leb_le in H0.
      replace (1000 * n <? 0) with false by (symmetry; apply Z.ltb_ge; lia).
      apply Hs.
    + apply andb_true_iff in H0 as [Ha Hb].
      apply Z.leb_le in Ha. apply Z.ltb_lt in Hb.
      replace ((400 <=? status_code resp) && (status_code resp <? 500)) with false
        by (symmetry; apply andb_false_iff; right; apply Z.ltb_ge; lia).
      replace ((400 <=? status_code resp) && (status_code resp <? 600)) with true
        by (symmetry; apply andb_true_iff; split; [apply Z.leb_le | apply Z.ltb_lt]; lia).
      apply Hs.
Qed.

(** Over outcomes it can handle, the loop returns: a response or no
    result, never an exception. *)
Lemma safe_request_from_returns attempts r w :
  (forall i, (i < List.length attempts)%nat ->
             handled (net (requests_made w + i) r) = true) ->
  exists res, fst (safe_request_from net attempts r w) = Ret res.
Proof.
  revert w. induction attempts as [|a rest IH]; intros w Hall.
  - simpl. eauto.
  - rewrite safe_request_from_step. cbv zeta.
    assert (Hs : forall ms,
      exists res, fst (safe_request_from net rest r (EvSleep ms :: EvRequest r :: w)) = Ret res).
    { intros ms. apply IH. intros i Hi.
      rewrite requests_made_sleep, requests_made_request.
      replace (S (requests_made w) + i)%nat with (requests_made w + S i)%nat by lia.
      apply Hall. simpl. lia. }
    pose proof (Hall 0%nat ltac:(simpl; lia)) as H0.
    rewrite Nat.add_0_r in H0. unfold handled in H0.
    destruct (net (requests_made w) r) as [resp|]; [|apply Hs].
    destruct (status_code resp =? 429).
    + simpl in H0. unfold well_formed_delay in H0.
      destruct (delay_of resp) as [n|]; [|discriminate].
      apply Z.leb_le in H0.
      replace (1000 * n <? 0) with false by (symmetry; apply Z.ltb_ge; lia).
      apply Hs.
    + destruct ((400 <=? status_code resp) && (status_code resp <? 500)); [simpl; eauto|].
      destruct ((400 <=? status_code resp) && (status_code resp <? 600)); [apply Hs | simpl; eauto].
Qed.

End Policy.



(** C2, at the failing input.  A 429 whose Retry-After is an HTTP date
    makes [safe_request] raise [ValueError] after its first request: no
    default delay is taken, nothing is slept and nothing is retried. *)
Theorem safe_request_raises_on_http_date :
  safe_request net_429_http_date plain_request []
  = (Raise ValueError, [EvRequest plain_request]).
Proof. reflexivity. Qed.

End Fetcher.

(** ** The Paginated Collector *)

Module Collector.
Import Py Refresh Vocab Examples.


Section Instances.
Variable net : nat -> request -> outcome.
Variables token genre market : json.

(** Both paginated fetches are the one collector loop. *)
Lemma tracks_loop_paginate offsets acc w :
  tracks_loop net token genre market offsets acc w
  = paginate net (search_request token genre market) extract_tracks offsets acc w.
Proof.
  revert acc w. induction offsets as [|o rest IH]; intros acc w; [reflexivity|].
  cbn [tracks_loop paginate]. unfold extract_tracks. unfold_monad.
  repeat first [reflexivity | apply IH | case_scrutinee].
Qed.

Lemma categories_loop_paginate offsets acc w :
  categories_loop net token offsets acc w
  = paginate net (categories_request token) extract_categories offsets acc w.
Proof.
  revert acc w. induction offsets as [|o rest IH]; intros acc w; [reflexivity|].
  cbn [categories_loop paginate]. unfold extract_categories. unfold_monad.
  repeat first [reflexivity | apply IH | case_scrutinee].
Qed.

End Instances.

Lemma range_offsets total :
  range 0 total batch = offsets_from 0 (Z.to_nat ((total + 49) / 50)).
Proof.
  unfold range, offsets_from, batch.
  replace (total - 0 + 50 - 1) with (total + 49) by lia.
  apply map_ext. intros i. unfold page_offset, batch. lia.
Qed.

(** The page count covers the requested total. *)
Lemma page_count_covers total :
  0 < total -> total <= 50 * Z.of_nat (Z.to_nat ((total + 49) / 50)).
Proof.
  intros H.
  pose proof (Z.div_mod (total + 49) 50 ltac:(lia)) as Hd.
  pose proof (Z.mod_pos_bound (total + 49) 50 ltac:(lia)) as Hm.
  assert (0 <= (total + 49) / 50) by (apply Z.div_pos; lia).
  rewrite Z2Nat.id by assumption. lia.
Qed.

Lemma page_count_nonpositive total :
  total <= 0 -> Z.to_nat ((total + 49) / 50) = 0%nat.
Proof.
  intros H.
  assert ((total + 49) / 50 <= 0).
  { destruct (Z.eq_dec total 0) as [->|Hne]; [reflexivity|].
    assert ((total + 49) / 50 < 1); [|lia].
    apply Z.div_lt_upper_bound; lia. }
  lia.
Qed.

Section Generic.
Context {X : Type}.
Variable net : nat -> request -> outcome.
Variable mkreq : Z -> request.
Variable extract : response -> M (option (list X * Z)).

#[local] Abbreviation served_pages :=
  (served (fetched_page net mkreq extract) (fetched_nothing net mkreq)).

(** Over a served page sequence, [k] turns of the loop append the first
    [k] pages to the accumulator. *)
Lemma paginate_served w a ps e :
  served_pages w a ps e ->
  forall k acc, exists w',
    paginate net mkreq extract (offsets_from a k) acc w
    = (Ret (acc ++ List.concat (firstn k ps)), w').
Proof.
  induction 1 as [w a p w1 [resp [Hreq Hext]] Hlen
                 |w a [w1 Hreq]
                 |w a p w1 ps e [resp [Hreq Hext]] Hlen Hrest IH];
    intros [|k] acc;
    try (exists w; cbn; now rewrite app_nil_r).
  - unfold offsets_from. cbn [seq map paginate]. unfold bind at 1. rewrite Hreq.
    unfold bind at 1. rewrite Hext.
    destruct p as [|x p]; cbn [page_result].
    + exists w1. unfold ret. cbn [firstn List.concat app].
      now rewrite firstn_nil, app_nil_r.
    + apply Z.ltb_lt in Hlen. rewrite Hlen. exists w1. unfold ret.
      cbn [firstn List.concat]. now rewrite firstn_nil, app_nil_r.
  - unfold offsets_from. cbn [seq map paginate]. unfold bind at 1. rewrite Hreq.
    exists w1. unfold ret. cbn [firstn List.concat]. now rewrite app_nil_r.
  - unfold offsets_from. cbn [seq map paginate]. unfold bind at 1. rewrite Hreq.
    unfold bind at 1. rewrite Hext.
    destruct p as [|x p]; [discriminate|]. cbn [page_result].
    replace (Z.of_nat (List.length (x :: p)) <? batch) with false
      by (symmetry; apply Z.ltb_ge; lia).
    unfold bind at 1. unfold sleep_ms at 1. cbn [Z.ltb Z.compare].
    destruct (IH k (acc ++ x :: p)) as [w' Hw'].
    exists w'. unfold offsets_from in Hw'. rewrite Hw'.
    cbn [firstn List.concat]. now rewrite app_assoc.
Qed.

(** Every page before the end is full. *)
Lemma served_prefix_full w a ps e :
  served_pages w a ps e ->
  forall k, (k < List.length ps)%nat ->
    Z.of_nat (List.length (List.concat (firstn k ps))) = batch * Z.of_nat k.
Proof.
  induction 1 as [w a p w1 _ Hlen | w a _ | w a p w1 ps e _ Hlen _ IH];
    intros [|k] Hk; cbn [firstn List.concat List.length] in *; try lia.
  rewrite length_app, Nat2Z.inj_add, IH by lia. lia.
Qed.

Lemma served_no_result_full w a ps :
  served_pages w a ps NoResult ->
  Z.of_nat (List.length (List.concat ps)) = batch * Z.of_nat (List.length ps).
Proof.
  remember NoResult as e eqn:He.
  induction 1 as [w a p w1 _ Hlen | w a _ | w a p w1 ps e _ Hlen _ IH];
    [discriminate | reflexivity |].
  cbn [List.concat List.length]. rewrite length_app, Nat2Z.inj_add, IH by assumption. lia.
Qed.

(** Truncating the pages the loop visited is truncating them all. *)
Lemma truncate_visited w a ps e total :
  served_pages w a ps e ->
  slice_to (List.concat (firstn (Z.to_nat ((total + 49) / 50)) ps)) total
  = firstn (Z.to_nat total) (List.concat ps).
Proof.
  intros Hs. set (k := Z.to_nat ((total + 49) / 50)).
  destruct (Z.le_gt_cases total 0) as [Hle|Hpos].
  - subst k. rewrite page_count_nonpositive by assumption.
    cbn [firstn List.concat]. rewrite PyFacts.slice_to_nil.
    replace (Z.to_nat total) with 0%nat by lia. reflexivity.
  - rewrite PyFacts.slice_to_nonneg by lia.
    destruct (Nat.le_gt_cases (List.length ps) k) as [Hall|Hfew].
    + now rewrite (firstn_all2 ps Hall).
    + rewrite <- (firstn_skipn k ps) at 2. rewrite concat_app.
      pose proof (served_prefix_full w a ps e Hs k Hfew) as Hfull.
      pose proof (page_count_covers total ltac:(lia)) as Hcov. fold k in Hcov.
      rewrite firstn_app.
      replace (Z.to_nat total - List.length (List.concat (firstn k ps)))%nat with 0%nat
        by (unfold batch in Hfull; lia).
      cbn [firstn]. now rewrite app_nil_r.
Qed.

End Generic.

Lemma served_impl {X} (P P' : world -> nat -> list X -> world -> Prop)
      (N N' : world -> nat -> Prop) w a ps e :
  (forall w a p w1, P w a p w1 -> P' w a p w1) ->
  (forall w a, N w a -> N' w a) ->
  served P N w a ps e -> served P' N' w a ps e.
Proof.
  intros HP HN. induction 1; econstructor; eauto.
Qed.

Lemma name_id_pairs_length items p :
  name_id_pairs items = Ret p -> List.length p = List.length items.
Proof.
  revert p. induction items as [|i items IH]; intros p H; cbn in H.
  - now inversion H.
  - destruct (getitem_str i "name"); [|discriminate].
    destruct (getitem_str i "id"); [|discriminate].
    destruct (name_id_pairs items) as [ps|]; [|discriminate].
    inversion H; subst. cbn. now rewrite (IH ps eq_refl).
Qed.

Section Pages.
Variable net : nat -> request -> outcome.
Variables token genre market : json.

Lemma tracks_page_fetched w a p w1 :
  tracks_page net token genre market w a p w1 ->
  fetched_page net (search_request token genre market) extract_tracks w a p w1.
Proof.
  intros [resp [Hreq Hitems]]. exists resp. split; [exact Hreq|].
  unfold extract_tracks. unfold bind at 1. rewrite Hitems.
  destruct p as [|x p]; reflexivity.
Qed.

Lemma categories_page_fetched w a p w1 :
  categories_page net token w a p w1 ->
  fetched_page net (categories_request token) extract_categories w a p w1.
Proof.
  intros [resp [items [Hreq [Hitems Hpairs]]]]. exists resp. split; [exact Hreq|].
  unfold extract_categories. unfold bind at 1. rewrite Hitems.
  pose proof (name_id_pairs_length items p Hpairs) as Hlen.
  destruct items as [|i items].
  - cbn in Hpairs. inversion Hpairs. reflexivity.
  - cbn [truthy negb iterate]. unfold_monad. rewrite Hpairs.
    destruct p as [|x p]; [discriminate|].
    cbn [len page_result]. now rewrite Hlen.
Qed.

End Pages.

(** C4.  When the successive page fetches see pages that are all full
    (50 items) up to a last short one, [fetch_genre_tracks] and
    [get_all_categories] return the concatenation of all the pages, cut to
    the requested total when that is smaller.  When the Fetcher gives no
    result while the loop is still running, what was accumulated is
    returned. *)
Theorem paginated_collector (net : nat -> request -> outcome)
        (token genre market : json) (total : Z) (w : world) :
  (forall ps,
      served (tracks_page net token genre market)
             (tracks_no_result net token genre market) w 0 ps ShortPage ->
      exists w',
        fetch_genre_tracks net token genre market total w
        = (Ret (firstn (Z.to_nat total) (List.concat ps)), w'))
  /\ (forall ps,
      served (categories_page net token) (categories_no_result net token)
             w 0 ps ShortPage ->
      exists w',
        get_all_categories net token total w
        = (Ret (firstn (Z.to_nat total) (List.concat ps)), w'))
  /\ (forall ps,
      served (tracks_page net token genre market)
             (tracks_no_result net token genre market) w 0 ps NoResult ->
      batch * Z.of_nat (List.length ps) < total ->
      exists w',
        fetch_genre_tracks net token genre market total w
        = (Ret (List.concat ps), w'))
  /\ (forall ps,
      served (categories_page net token) (categories_no_result net token)
             w 0 ps NoResult ->
      batch * Z.of_nat (List.length ps) < total ->
      exists w',
        get_all_categories net token total w = (Ret (List.concat ps), w')).
Proof.
  assert (Ht : forall ps e,
    served (tracks_page net token genre market)
           (tracks_no_result net token genre market) w 0 ps e ->
    exists w',
      fetch_genre_tracks net token genre market total w
      = (Ret (firstn (Z.to_nat total) (List.concat ps)), w')
      /\ (e = NoResult ->
          Z.of_nat (List.length (List.concat ps)) = batch * Z.of_nat (List.length ps))).
  { intros ps e Hs.
    apply (served_impl _ _ _ _ _ _ _ _
             (tracks_page_fetched net token genre market)
             (fun w a H => H)) in Hs.
    destruct (paginate_served _ _ _ _ _ _ _ Hs (Z.to_nat ((total + 49) / 50)) [])
      as [w' Hw'].
    exists w'. split.
    - unfold fetch_genre_tracks. unfold bind at 1.
      rewrite tracks_loop_paginate, range_offsets, Hw'. unfold ret.
      cbn [app]. now rewrite (truncate_visited _ _ _ _ _ _ _ _ Hs).
    - intros ->. apply (served_no_result_full _ _ _ _ _ _ Hs). }
  assert (Hc : forall ps e,
    served (categories_page net token) (categories_no_result net token) w 0 ps e ->
    exists w',
      get_all_categories net token total w
      = (Ret (firstn (Z.to_nat total) (List.concat ps)), w')
      /\ (e = NoResult ->
          Z.of_nat (List.length (List.concat ps)) = batch * Z.of_nat (List.length ps))).
  { intros ps e Hs.
    apply (served_impl _ _ _ _ _ _ _ _
             (categories_page_fetched net token)
             (fun w a H => H)) in Hs.
    destruct (paginate_served _ _ _ _ _ _ _ Hs (Z.to_nat ((total + 49) / 50)) [])
      as [w' Hw'].
    exists w'. split.
    - unfold get_all_categories. unfold bind at 1.
      rewrite categories_loop_paginate, range_offsets, Hw'. unfold ret.
      cbn [app]. now rewrite (truncate_visited _ _ _ _ _ _ _ _ Hs).
    - intros ->. apply (served_no_result_full _ _ _ _ _ _ Hs). }
  repeat split.
  - intros ps Hs. destruct (Ht ps _ Hs) as [w' [H _]]. eauto.
  - intros ps Hs. destruct (Hc ps _ Hs) as [w' [H _]]. eauto.
  - intros ps Hs Hmid. destruct (Ht ps _ Hs) as [w' [H Hfull]].
    exists w'. rewrite H. rewrite firstn_all2; [reflexivity|].
    specialize (Hfull eq_refl). lia.
  - intros ps Hs Hmid. destruct (Hc ps _ Hs) as [w' [H Hfull]].
    exists w'. rewrite H. rewrite firstn_all2; [reflexivity|].
    specialize (Hfull eq_refl). lia.
Qed.

Ltac page_here := eexists; repeat split; reflexivity.

Lemma paginated_collector_witness :
  (exists w',
      fetch_genre_tracks net_two_pages tok (JStr "pop") JNull 200 []
      = (Ret (firstn (Z.to_nat 200) (List.concat [full_tracks; last_tracks])), w'))
  /\ (exists w',
      get_all_categories net_two_pages tok 51 []
      = (Ret (firstn (Z.to_nat 51) (List.concat [full_pairs; last_pairs])), w'))
  /\ (exists w',
      fetch_genre_tracks net_page_then_404 tok (JStr "pop") JNull 200 []
      = (Ret (List.concat [full_tracks]), w'))
  /\ (exists w',
      get_all_categories net_page_then_404 tok 200 []
      = (Ret (List.concat [full_pairs]), w')).
Proof.
  repeat split.
  - apply (proj1 (paginated_collector net_two_pages tok (JStr "pop") JNull 200 [])).
    eapply served_full; [page_here | reflexivity |].
    eapply served_short; [page_here | reflexivity].
  - apply (proj1 (proj2 (paginated_collector net_two_pages tok JNull JNull 51 []))).
    eapply served_full; [eexists; page_here | reflexivity |].
    eapply served_short; [eexists; page_here | reflexivity].
  - apply (proj1 (proj2 (proj2
             (paginated_collector net_page_then_404 tok (JStr "pop") JNull 200 [])))).
    + eapply served_full; [page_here | reflexivity |].
      apply served_no_result. page_here.
    + reflexivity.
  - apply (proj2 (proj2 (proj2
             (paginated_collector net_page_then_404 tok JNull JNull 200 [])))).
    + eapply served_full; [eexists; page_here | reflexivity |].
      apply served_no_result. page_here.
    + reflexivity.
Defined.

End Collector.

(** ** The Genre/Artist Aggregator *)

Module Aggregator.
Import Py Refresh Vocab Examples.

(** One turn of the accumulation: [artist_scores[a] += p]. *)
Definition add_score (d : dict Z) (x : string * Z) : dict Z :=
  dict_set (JStr (fst x))
           (match dict_get (JStr (fst x)) d with Some s => s | None => 0 end + snd x)
           d.

(** Over tracks of the data model the loop never raises: it adds the
    attributions in order. *)
Lemma track_json_represents t : represents (track_json t) t.
Proof.
  exists (map (fun a => JDict [("name", JStr a)]) (track_artists t)).
  repeat split. induction (track_artists t); constructor; auto. reflexivity.
Qed.

Lemma artist_scores_loop_tracks js ts :
  Forall2 represents js ts ->
  forall d, artist_scores_loop js d = Ret (fold_left add_score (attributions ts) d).
Proof.
  induction 1 as [|j t js ts (arts & Ha & Hn & Hp) _ IH]; intros d; [reflexivity|].
  unfold attributions. cbn [flat_map]. rewrite fold_left_app.
  fold (attributions ts). cbn [artist_scores_loop]. rewrite Ha.
  unfold attribution. destruct Hn as [|a n arts ns Han _].
  - cbn [truthy negb fold_left]. apply IH.
  - cbn [truthy negb getitem_0]. unfold artist_named in Han. rewrite Han, Hp.
    cbn [hashable negb int_add fold_left]. apply IH.
Qed.

Lemma first_seen_snoc l a :
  first_seen (l ++ [a])
  = if existsb (String.eqb a) l then first_seen l else first_seen l ++ [a].
Proof.
  induction l as [|b l IH]; [reflexivity|].
  cbn [app first_seen existsb]. rewrite IH.
  destruct (String.eqb a b) eqn:Eab; cbn [orb].
  - apply String.eqb_eq in Eab. subst b.
    destruct (existsb (String.eqb a) l); [reflexivity|].
    rewrite filter_app. cbn [filter]. rewrite String.eqb_refl. cbn [negb].
    now rewrite app_nil_r.
  - destruct (existsb (String.eqb a) l); [reflexivity|].
    rewrite filter_app. cbn [filter]. rewrite Eab. reflexivity.
Qed.

Lemma first_seen_In l a : In a (first_seen l) <-> In a l.
Proof.
  induction l as [|b l IH]; [reflexivity|].
  cbn [first_seen In]. rewrite filter_In, IH.
  destruct (String.eqb a b) eqn:E.
  - apply String.eqb_eq in E. subst. tauto.
  - cbn [negb]. apply String.eqb_neq in E.
    split; [tauto|]. intros [H|H]; [now left | right; split; auto].
Qed.

Lemma first_seen_NoDup l : NoDup (first_seen l).
Proof.
  induction l as [|b l IH]; cbn [first_seen]; constructor.
  - rewrite filter_In. intros [_ H]. now rewrite String.eqb_refl in H.
  - now apply NoDup_filter.
Qed.

Lemma existsb_In a l : existsb (String.eqb a) l = true <-> In a l.
Proof.
  rewrite existsb_exists. split.
  - intros [x [Hx E]]. apply String.eqb_eq in E. now subst.
  - intros H. exists a. split; [exact H | apply String.eqb_refl].
Qed.

Lemma total_of_snoc b attrs a p :
  total_of b (attrs ++ [(a, p)])
  = total_of b attrs + (if String.eqb a b then p else 0).
Proof.
  unfold total_of. rewrite filter_app, map_app, fold_right_app.
  cbn [filter fst]. 
  assert (H : forall l acc, fold_right Z.add acc l = fold_right Z.add 0 l + acc).
  { induction l as [|x l IHl]; intros acc; cbn [fold_right]; [lia|].
    rewrite IHl. lia. }
  rewrite H. destruct (String.eqb a b); cbn; lia.
Qed.

Lemma total_of_absent a attrs :
  ~ In a (map fst attrs) -> total_of a attrs = 0.
Proof.
  intros H. unfold total_of.
  replace (filter (fun x => String.eqb (fst x) a) attrs) with (@nil (string * Z));
    [reflexivity|].
  symmetry. induction attrs as [|x attrs IH]; [reflexivity|].
  cbn [filter]. destruct (String.eqb (fst x) a) eqn:E.
  - apply String.eqb_eq in E. exfalso. apply H. now left.
  - apply IH. intros Hin. apply H. now right.
Qed.

(** Lookup and update in a dict built from a list of names. *)
Section NamedDict.
Variable f : string -> Z.

Definition tabulate (names : list string) : dict Z :=
  named (map (fun n => (n, f n)) names).

Lemma dict_get_tabulate a names :
  dict_get (JStr a) (tabulate names) = if existsb (String.eqb a) names then Some (f a) else None.
Proof.
  induction names as [|n names IH]; [reflexivity|].
  unfold tabulate, named in *. cbn [map dict_get fst snd key_eqb existsb].
  rewrite (String.eqb_sym a n).
  destruct (String.eqb n a) eqn:E; cbn [orb]; [|exact IH].
  apply String.eqb_eq in E. now subst.
Qed.

Lemma dict_set_tabulate_absent a v names :
  ~ In a names ->
  dict_set (JStr a) v (tabulate names) = tabulate names ++ [(JStr a, v)].
Proof.
  induction names as [|n names IH]; intros H; [reflexivity|].
  unfold tabulate, named in *. cbn [map dict_set fst snd key_eqb app].
  destruct (String.eqb n a) eqn:E.
  - apply String.eqb_eq in E. exfalso. apply H. now left.
  - f_equal. apply IH. intros Hin. apply H. now right.
Qed.

End NamedDict.

Lemma tabulate_ext f g names :
  (forall n, In n names -> f n = g n) -> tabulate f names = tabulate g names.
Proof.
  intros H. unfold tabulate. f_equal. apply map_ext_in.
  intros n Hn. now rewrite (H n Hn).
Qed.

Lemma dict_set_tabulate_present f a v names :
  NoDup names -> In a names ->
  dict_set (JStr a) v (tabulate f names)
  = tabulate (fun n => if String.eqb a n then v else f n) names.
Proof.
  induction 1 as [|n names Hn Hnd IH]; intros H; [destruct H|].
  change (tabulate f (n :: names)) with ((JStr n, f n) :: tabulate f names).
  change (tabulate (fun n0 => if String.eqb a n0 then v else f n0) (n :: names))
    with ((JStr n, if String.eqb a n then v else f n)
            :: tabulate (fun n0 => if String.eqb a n0 then v else f n0) names).
  cbn [dict_set key_eqb]. rewrite (String.eqb_sym a n).
  destruct (String.eqb n a) eqn:E.
  - apply String.eqb_eq in E. subst n. f_equal.
    apply tabulate_ext. intros m Hm.
    destruct (String.eqb a m) eqn:Em; [|reflexivity].
    apply String.eqb_eq in Em. subst m. contradiction.
  - f_equal. apply IH. destruct H as [->|H]; [|exact H].
    now rewrite String.eqb_refl in E.
Qed.

(** The accumulated dict holds the per-artist totals, artists in the order
    they were first met. *)
Lemma fold_add_score attrs :
  fold_left add_score attrs []
  = tabulate (fun a => total_of a attrs) (first_seen (map fst attrs)).
Proof.
  induction attrs as [|[a p] attrs IH] using rev_ind; [reflexivity|].
  rewrite fold_left_app. cbn [fold_left]. rewrite IH.
  unfold add_score. cbn [fst snd].
  rewrite dict_get_tabulate, map_app. cbn [map fst]. rewrite first_seen_snoc.
  destruct (existsb (String.eqb a) (first_seen (map fst attrs))) eqn:E.
  - assert (Hin : In a (first_seen (map fst attrs))) by now apply existsb_In.
    replace (existsb (String.eqb a) (map fst attrs)) with true
      by (symmetry; apply existsb_In; now apply first_seen_In).
    rewrite dict_set_tabulate_present by (auto using first_seen_NoDup).
    apply tabulate_ext. intros n _. rewrite total_of_snoc.
    destruct (String.eqb a n) eqn:En; [|lia].
    apply String.eqb_eq in En. now subst n.
  - assert (Hout : ~ In a (map fst attrs)).
    { intros H. apply (proj2 (first_seen_In _ _)) in H.
      apply (proj2 (existsb_In _ _)) in H. congruence. }
    replace (existsb (String.eqb a) (map fst attrs)) with false
      by (symmetry; apply not_true_is_false; now rewrite existsb_In).
    rewrite dict_set_tabulate_absent by (now rewrite first_seen_In).
    unfold tabulate, named. rewrite !map_app. cbn [map fst snd].
    f_equal.
    + rewrite !map_map. apply map_ext_in. intros n Hn. cbn [fst snd].
      rewrite total_of_snoc.
      destruct (String.eqb a n) eqn:En; [|f_equal; lia].
      apply String.eqb_eq in En. subst n.
      apply (proj1 (first_seen_In _ _)) in Hn. contradiction.
    + rewrite total_of_snoc, String.eqb_refl, (total_of_absent a attrs Hout).
      reflexivity.
Qed.

Lemma artist_scores_totals js ts :
  Forall2 represents js ts ->
  artist_scores_loop js [] = Ret (named (artist_totals ts)).
Proof.
  intros H. rewrite (artist_scores_loop_tracks js ts H), fold_add_score.
  reflexivity.
Qed.

Lemma insert_desc_named x r :
  insert_desc snd (JStr (fst x), snd x) (named r) = named (insert_desc snd x r).
Proof.
  induction r as [|y r IHr]; [reflexivity|].
  unfold named in *. cbn [map insert_desc snd].
  destruct (snd y <=? snd x); [reflexivity|].
  cbn [map]. now rewrite IHr.
Qed.

Lemma sorted_desc_named l :
  sorted_desc snd (named l) = named (sorted_desc snd l).
Proof.
  unfold sorted_desc. induction l as [|x l IH]; [reflexivity|].
  change (named (x :: l)) with ((JStr (fst x), snd x) :: named l).
  cbn [fold_right]. rewrite IH. apply insert_desc_named.
Qed.

Lemma firstn_named n l : firstn n (named l) = named (firstn n l).
Proof. unfold named. now rewrite firstn_map. Qed.

Lemma last_tracks_represent : Forall2 represents last_tracks three_tracks.
Proof.
  assert (Hone : forall p a,
            represents (track p a)
                       {| track_artists := [a]; track_popularity := p |}).
  { intros p a. eexists. split; [reflexivity|]. split; [|reflexivity].
    constructor; [reflexivity | constructor]. }
  unfold last_tracks, three_tracks. repeat (constructor; [apply Hone|]). constructor.
Qed.

(** C5.  For every list of tracks the fetch returns,
    [fetch_top_artists_for_genre] ranks the per-artist totals (each track's
    popularity going to its first-listed artist, tracks without artist
    skipped): the ranking is a rearrangement of the totals, in descending
    order of score, artists of equal score in the order they were first
    met, cut to the first [top_n].  The tracks (10, A), (20, A), (5, B)
    give [(A, 30); (B, 5)]. *)
Theorem aggregator_ranking (net : nat -> request -> outcome)
        (token genre market : json) (total_tracks top_n : Z)
        (w w' : world) (js : list json) (ts : list Track) :
  fetch_genre_tracks net token genre market total_tracks w = (Ret js, w') ->
  Forall2 represents js ts ->
  0 <= top_n ->
  (exists ranked,
      fetch_top_artists_for_genre net token genre market total_tracks top_n w
      = (Ret (named (firstn (Z.to_nat top_n) ranked)), w')
      /\ Permutation ranked (artist_totals ts)
      /\ StronglySorted (fun x y => snd x >= snd y) ranked
      /\ (forall v, filter (fun x => snd x =? v) ranked
                    = filter (fun x => snd x =? v) (artist_totals ts)))
  /\ (ts = three_tracks -> 2 <= top_n ->
      fetch_top_artists_for_genre net token genre market total_tracks top_n w
      = (Ret [(JStr "A", 30); (JStr "B", 5)], w')).
Proof.
  intros Hfetch Hrep Hn.
  assert (Hrun : fetch_top_artists_for_genre net token genre market total_tracks top_n w
                 = (Ret (named (firstn (Z.to_nat top_n)
                                       (sorted_desc snd (artist_totals ts)))), w')).
  { unfold fetch_top_artists_for_genre, bind. rewrite Hfetch.
    unfold lift, rank_artists. rewrite (artist_scores_totals js ts Hrep).
    rewrite PyFacts.slice_to_nonneg by assumption.
    now rewrite sorted_desc_named, firstn_named. }
  split.
  - exists (sorted_desc snd (artist_totals ts)). repeat split.
    + exact Hrun.
    + apply PyFacts.sorted_desc_perm.
    + apply (PyFacts.sorted_desc_descending snd).
    + intros v. apply (PyFacts.sorted_desc_stable snd).
  - intros -> H2. rewrite Hrun.
    replace (Z.to_nat top_n) with (S (S (Z.to_nat (top_n - 2)))) by lia.
    change (sorted_desc snd (artist_totals three_tracks))
      with [("A", 30); ("B", 5)].
    cbn [firstn]. now rewrite firstn_nil.
Qed.

Lemma aggregator_ranking_witness :
  fetch_top_artists_for_genre net_service tok (JStr "pop") JNull 200 2 []
  = (Ret [(JStr "A", 30); (JStr "B", 5)],
     [EvRequest (search_request tok (JStr "pop") JNull 0)]).
Proof.
  apply (proj2 (aggregator_ranking net_service tok (JStr "pop") JNull 200 2 []
                  [EvRequest (search_request tok (JStr "pop") JNull 0)]
                  last_tracks three_tracks
                  eq_refl last_tracks_represent ltac:(lia)));
    [reflexivity | lia].
Defined.

End Aggregator.

(** ** The markets fetch *)

Module Markets.
Import Py Refresh Vocab Examples.

Section Trace.
Variable net : nat -> request -> outcome.

Lemma requests_of_request r w : requests_of (EvRequest r :: w) = requests_of w ++ [r].
Proof. reflexivity. Qed.

Lemma requests_of_sleep ms w : requests_of (EvSleep ms :: w) = requests_of w.
Proof. unfold requests_of. cbn [flat_map app]. reflexivity. Qed.

(** A call of the Fetcher sends its one request, between one and three
    times, and nothing else. *)
Lemma safe_request_from_requests attempts r w :
  exists k, (k <= List.length attempts)%nat /\
    requests_of (snd (safe_request_from net attempts r w))
    = requests_of w ++ repeat r k.
Proof.
  revert w. induction attempts as [|a rest IH]; intros w.
  - exists 0%nat. split; [lia|]. cbn. now rewrite app_nil_r.
  - rewrite Fetcher.safe_request_from_step. cbv zeta.
    assert (Hs : forall ms, exists k, (k <= List.length (a :: rest))%nat /\
      requests_of (snd (safe_request_from net rest r (EvSleep ms :: EvRequest r :: w)))
      = requests_of w ++ repeat r k).
    { intros ms. destruct (IH (EvSleep ms :: EvRequest r :: w)) as [k [Hk Hreq]].
      exists (S k). split; [cbn; lia|]. rewrite Hreq.
      rewrite requests_of_sleep, requests_of_request, <- app_assoc. reflexivity. }
    assert (H1 : forall res : result (option response),
      exists k, (k <= List.length (a :: rest))%nat /\
        requests_of (snd (res, EvRequest r :: w)) = requests_of w ++ repeat r k).
    { intros res. exists 1%nat. split; [cbn; lia|]. reflexivity. }
    repeat case_scrutinee; auto.
Qed.

Lemma get_markets_world limit token w :
  snd (get_markets limit net token w)
  = snd (safe_request net (markets_request limit token) w).
Proof.
  unfold get_markets, json_of. unfold_monad.
  repeat case_scrutinee; reflexivity.
Qed.

End Trace.

(** C9, as amended.  The markets fetch is one call of the Fetcher, with
    [limit = MARKETS_LIMIT] and no offset: every request it sends is that
    same request (at most three, the Fetcher's attempts).  It returns the
    empty list when the Fetcher gives no result, and otherwise the first
    [MARKETS_LIMIT] entries of the response's [markets] list: at most
    [MARKETS_LIMIT] markets for a non-negative limit. *)
Theorem markets_single_request (limit : Z) (net : nat -> request -> outcome)
        (token : json) (w : world) :
  (exists k, (k <= 3)%nat /\
      requests_of (snd (get_markets limit net token w))
      = requests_of w ++ repeat (markets_request limit token) k)
  /\ params (markets_request limit token) = [("limit", PInt limit)]
  /\ (forall w',
      safe_request net (markets_request limit token) w = (Ret None, w') ->
      get_markets limit net token w = (Ret (JList []), w'))
  /\ (forall resp j l w',
      safe_request net (markets_request limit token) w = (Ret (Some resp), w') ->
      body resp = Some j -> get_or j "markets" (JList []) = Ret (JList l) ->
      get_markets limit net token w = (Ret (JList (slice_to l limit)), w')
      /\ (0 <= limit -> Z.of_nat (List.length (slice_to l limit)) <= limit)).
Proof.
  repeat split.
  - rewrite get_markets_world. unfold safe_request. rewrite PyFacts.range_1_4.
    apply (safe_request_from_requests net [1; 2; 3]).
  - intros w' H. unfold get_markets. unfold bind. now rewrite H.
  - unfold get_markets, json_of. unfold_monad. rewrite H, H0, H1. reflexivity.
  - intros Hl. now apply PyFacts.slice_to_length.
Qed.

Lemma markets_single_request_witness :
  get_markets 2 net_three_markets tok []
  = (Ret (JList [JStr "US"; JStr "GB"]), [EvRequest (markets_request 2 tok)])
  /\ Z.of_nat (List.length (slice_to [JStr "US"; JStr "GB"; JStr "FR"] 2)) <= 2.
Proof.
  destruct (proj2 (proj2 (proj2 (markets_single_request 2 net_three_markets tok [])))
              (ok (JDict [("markets", JList [JStr "US"; JStr "GB"; JStr "FR"])]))
              (JDict [("markets", JList [JStr "US"; JStr "GB"; JStr "FR"])])
              [JStr "US"; JStr "GB"; JStr "FR"]
              [EvRequest (markets_request 2 tok)]
              eq_refl eq_refl eq_refl) as [H1 H2].
  split; [exact H1 | apply H2; lia].
Defined.

(** C9, as stated, fails.  With a limit of 60 and a server that holds 60
    markets and serves them 50 at a time by offset, the Paginated Collector
    of the spec sends offsets 0 and 50 and returns the 60 markets; the code
    sends one request without offset and returns the first 50. *)
Lemma markets_fetch_not_paginated :
  fst (spec_paginated_markets net_markets_paged 60 tok [])
  = Ret (repeat (JStr "US") 50 ++ repeat (JStr "GB") 10)
  /\ offsets_sent (snd (spec_paginated_markets net_markets_paged 60 tok []))
     = [Some (PInt 0); Some (PInt 50)]
  /\ fst (get_markets 60 net_markets_paged tok [])
     = Ret (JList (repeat (JStr "US") 50))
  /\ offsets_sent (snd (get_markets 60 net_markets_paged tok [])) = [None]
  /\ fst (get_markets 60 net_markets_paged tok [])
     <> match fst (spec_paginated_markets net_markets_paged 60 tok []) with
        | Ret l => Ret (JList l)
        | Raise e => Raise e
        end.
Proof.
  repeat split; try reflexivity.
  vm_compute. discriminate.
Qed.

End Markets.

(** ** The Snapshot Builder *)

Module Builder.
Import Py Refresh Vocab Examples.

Lemma bind_Ret_inv {A B} (m : M A) (k : A -> M B) w b w' :
  bind m k w = (Ret b, w') ->
  exists a w1, m w = (Ret a, w1) /\ k a w1 = (Ret b, w').
Proof.
  unfold bind. destruct (m w) as [[a|e] w1]; [eauto | discriminate].
Qed.

Ltac bind_inv H a w Ha :=
  apply bind_Ret_inv in H; destruct H as (a & w & Ha & H).

(** *** Computations that write no snapshot *)

Definition quiet {A} (m : M A) : Prop :=
  forall w, writes_of (snd (m w)) = writes_of w.

Lemma quiet_ret {A} (a : A) : quiet (ret a).
Proof. intros w. reflexivity. Qed.

Lemma quiet_raise {A} e : quiet (@raise A e).
Proof. intros w. reflexivity. Qed.

Lemma quiet_lift {A} (r : result A) : quiet (lift r).
Proof. intros w. reflexivity. Qed.

Lemma writes_of_sleep ms w : writes_of (EvSleep ms :: w) = writes_of w.
Proof. unfold writes_of. cbn [flat_map app]. reflexivity. Qed.

Lemma writes_of_request r w : writes_of (EvRequest r :: w) = writes_of w.
Proof. unfold writes_of. cbn [flat_map app]. reflexivity. Qed.

Lemma writes_of_write s w : writes_of (EvWrite s :: w) = writes_of w ++ [s].
Proof. reflexivity. Qed.

Lemma quiet_sleep_ms ms : quiet (sleep_ms ms).
Proof.
  intros w. unfold sleep_ms. destruct (ms <? 0); [reflexivity|].
  apply writes_of_sleep.
Qed.

Lemma quiet_bind {A B} (m : M A) (k : A -> M B) :
  quiet m -> (forall a, quiet (k a)) -> quiet (bind m k).
Proof.
  intros Hm Hk w. unfold bind. specialize (Hm w).
  destruct (m w) as [[a|e] w1]; cbn [snd] in *.
  - now rewrite Hk.
  - exact Hm.
Qed.

(** Quietness of a computation built from quiet parts. *)
Ltac quiet_step :=
  match goal with
  | |- quiet (bind _ _) => apply quiet_bind; [|intro]
  | |- quiet (ret _) => apply quiet_ret
  | |- quiet (raise _) => apply quiet_raise
  | |- quiet (lift _) => apply quiet_lift
  | |- quiet (sleep_ms _) => apply quiet_sleep_ms
  | |- quiet (sleep _) => apply quiet_sleep_ms
  | |- quiet (match ?x with _ => _ end) => destruct x
  | |- quiet (if ?x then _ else _) => destruct x
  | H : _ |- _ => solve [apply H]
  end.

Section Quiet.
Variables CLIENT_ID CLIENT_SECRET : string.
Variables MARKETS_LIMIT GENRES_LIMIT TRACKS_LIMIT TOP_N_GENRES TOP_N_ARTISTS : Z.
Variable net : nat -> request -> outcome.

Lemma quiet_http r : quiet (http net r).
Proof. intros w. apply writes_of_request. Qed.

Lemma quiet_json_of resp : quiet (json_of resp).
Proof. unfold json_of. repeat quiet_step. Qed.

Lemma quiet_items_of outer resp : quiet (items_of outer resp).
Proof. unfold items_of. pose proof quiet_json_of. repeat quiet_step. Qed.

Lemma quiet_safe_request_from attempts r : quiet (safe_request_from net attempts r).
Proof.
  induction attempts as [|a rest IH]; cbn [safe_request_from].
  - apply quiet_ret.
  - pose proof quiet_http. repeat quiet_step.
Qed.

Lemma quiet_safe_request r : quiet (safe_request net r).
Proof. apply quiet_safe_request_from. Qed.

Lemma quiet_get_token : quiet (get_token CLIENT_ID CLIENT_SECRET net).
Proof.
  unfold get_token. pose proof quiet_safe_request. pose proof quiet_json_of.
  repeat quiet_step.
Qed.

Lemma quiet_categories_loop token offsets acc :
  quiet (categories_loop net token offsets acc).
Proof.
  revert acc. induction offsets as [|o rest IH]; intros acc; cbn [categories_loop].
  - apply quiet_ret.
  - pose proof quiet_safe_request. pose proof quiet_items_of. repeat quiet_step.
Qed.

Lemma quiet_get_all_categories token total :
  quiet (get_all_categories net token total).
Proof.
  unfold get_all_categories. pose proof quiet_categories_loop. repeat quiet_step.
Qed.

Lemma quiet_tracks_loop token genre market offsets acc :
  quiet (tracks_loop net token genre market offsets acc).
Proof.
  revert acc. induction offsets as [|o rest IH]; intros acc; cbn [tracks_loop].
  - apply quiet_ret.
  - pose proof quiet_safe_request. pose proof quiet_items_of. repeat quiet_step.
Qed.

Lemma quiet_fetch_genre_tracks token genre market total :
  quiet (fetch_genre_tracks net token genre market total).
Proof.
  unfold fetch_genre_tracks. pose proof quiet_tracks_loop. repeat quiet_step.
Qed.

Lemma quiet_fetch_top_artists token genre market total top_n :
  quiet (fetch_top_artists_for_genre net token genre market total top_n).
Proof.
  unfold fetch_top_artists_for_genre. pose proof quiet_fetch_genre_tracks.
  repeat quiet_step.
Qed.

Lemma quiet_get_markets token : quiet (get_markets MARKETS_LIMIT net token).
Proof.
  unfold get_markets. pose proof quiet_safe_request. pose proof quiet_json_of.
  repeat quiet_step.
Qed.

Lemma quiet_global_scores_loop token categories gs :
  quiet (global_scores_loop TRACKS_LIMIT net token categories gs).
Proof.
  revert gs. induction categories as [|[name id] rest IH]; intros gs;
    cbn [global_scores_loop].
  - apply quiet_ret.
  - pose proof quiet_fetch_genre_tracks. repeat quiet_step.
Qed.

Lemma quiet_genres_loop token market genres cs ca :
  quiet (genres_loop TRACKS_LIMIT TOP_N_ARTISTS net token market genres cs ca).
Proof.
  revert cs ca. induction genres as [|g rest IH]; intros cs ca; cbn [genres_loop].
  - apply quiet_ret.
  - pose proof quiet_fetch_genre_tracks. pose proof quiet_fetch_top_artists.
    repeat quiet_step.
Qed.

Lemma quiet_markets_loop token genres markets result :
  quiet (markets_loop TRACKS_LIMIT TOP_N_ARTISTS net token genres markets result).
Proof.
  revert result. induction markets as [|m rest IH]; intros result;
    cbn [markets_loop].
  - apply quiet_ret.
  - pose proof quiet_genres_loop. repeat quiet_step.
Qed.

End Quiet.

(** *** What the loops of [main] build *)

Section Loops.
Variables TRACKS_LIMIT TOP_N_ARTISTS : Z.
Variable net : nat -> request -> outcome.

Lemma fetch_top_artists_length token genre market w artists w' :
  fetch_top_artists_for_genre net token genre market TRACKS_LIMIT TOP_N_ARTISTS w
  = (Ret artists, w') ->
  0 <= TOP_N_ARTISTS ->
  Z.of_nat (List.length artists) <= TOP_N_ARTISTS.
Proof.
  unfold fetch_top_artists_for_genre. intros H Hn.
  bind_inv H tracks w1 Ht. unfold lift, rank_artists in H.
  destruct (artist_scores_loop tracks []) as [d|e]; [|discriminate].
  inversion H; subst. now apply PyFacts.slice_to_length.
Qed.

(** The inner loop: both dicts gain the genres, in step; every genre
    hashes; the artist lists it adds respect the cap. *)
Lemma genres_loop_shape token market genres :
  forall cs0 ca0 w cs ca w',
  genres_loop TRACKS_LIMIT TOP_N_ARTISTS net token market genres cs0 ca0 w
  = (Ret (cs, ca), w') ->
  Forall (fun g => hashable g = true) genres
  /\ (dict_keys cs0 = dict_keys ca0 -> dict_keys cs = dict_keys ca)
  /\ (forall k, has_key k cs = has_key k cs0 || key_in k genres)
  /\ (forall g l, In (g, l) ca ->
        In (g, l) ca0 \/ (0 <= TOP_N_ARTISTS ->
                         Z.of_nat (List.length l) <= TOP_N_ARTISTS)).
Proof.
  induction genres as [|g rest IH]; intros cs0 ca0 w cs ca w' H.
  - cbn in H. inversion H; subst. repeat split; auto.
    intros k. cbn. now rewrite orb_false_r.
  - cbn [genres_loop] in H.
    bind_inv H tracks w1 Ht. bind_inv H score w2 Hs.
    destruct (hashable g) eqn:Hg; cbn [negb] in H; [|discriminate].
    bind_inv H artists w3 Ha. bind_inv H u w4 Hu.
    apply IH in H. destruct H as (Hh & Hk & Hm & Hl).
    repeat split.
    + now constructor.
    + intros E. apply Hk. now apply PyFacts.dict_keys_dict_set.
    + intros k. rewrite Hm, PyFacts.has_key_dict_set. unfold key_in. cbn [existsb].
      destruct (key_eqb g k), (has_key k cs0); reflexivity.
    + intros g' l Hin. destruct (Hl g' l Hin) as [Hin'|Hle]; [|now right].
      apply PyFacts.dict_set_In in Hin'. destruct Hin' as [Hin'| ->]; [now left|].
      right. intros Hn. eapply fetch_top_artists_length; eassumption.
Qed.

(** The outer loop: both mappings gain the markets, in step; every entry it
    adds is what the inner loop built from empty dicts. *)
Lemma markets_loop_shape token genres markets :
  forall result w result' w',
  markets_loop TRACKS_LIMIT TOP_N_ARTISTS net token genres markets result w
  = (Ret result', w') ->
  top_genres result' = top_genres result
  /\ (markets <> [] -> Forall (fun g => hashable g = true) genres)
  /\ (dict_keys (country_genre_popularity result) = dict_keys (top_artists result) ->
      dict_keys (country_genre_popularity result') = dict_keys (top_artists result'))
  /\ (forall k, has_key k (country_genre_popularity result')
                = has_key k (country_genre_popularity result) || key_in k markets)
  /\ (forall m scores, In (m, scores) (country_genre_popularity result') ->
        In (m, scores) (country_genre_popularity result)
        \/ forall g, has_key g scores = key_in g genres)
  /\ (forall m artists, In (m, artists) (top_artists result') ->
        In (m, artists) (top_artists result)
        \/ ((forall g, has_key g artists = key_in g genres)
            /\ forall g l, In (g, l) artists -> 0 <= TOP_N_ARTISTS ->
                           Z.of_nat (List.length l) <= TOP_N_ARTISTS)).
Proof.
  induction markets as [|m rest IH]; intros result w result' w' H.
  - cbn in H. inversion H; subst. repeat split; auto.
    + congruence.
    + intros k. cbn. now rewrite orb_false_r.
  - cbn [markets_loop] in H.
    bind_inv H cs w1 Hg. destruct cs as [cs ca].
    destruct (hashable m) eqn:Hm; cbn [negb] in H; [|discriminate].
    apply IH in H. cbn [top_genres country_genre_popularity top_artists fst snd] in H.
    destruct H as (Htop & _ & Hk & Hhas & Hcs & Hca).
    apply genres_loop_shape in Hg. destruct Hg as (Hh & Hgk & Hgm & Hgl).
    repeat split.
    + exact Htop.
    + intros _. exact Hh.
    + intros E. apply Hk. now apply PyFacts.dict_keys_dict_set.
    + intros k. rewrite Hhas, PyFacts.has_key_dict_set. unfold key_in. cbn [existsb].
      destruct (key_eqb m k), (has_key k (country_genre_popularity result));
        reflexivity.
    + intros m' scores Hin. destruct (Hcs m' scores Hin) as [Hin'|Hok]; [|now right].
      apply PyFacts.dict_set_In in Hin'. destruct Hin' as [Hin'| ->]; [now left|].
      right. intros g. now rewrite Hgm.
    + intros m' artists Hin. destruct (Hca m' artists Hin) as [Hin'|Hok]; [|now right].
      apply PyFacts.dict_set_In in Hin'. destruct Hin' as [Hin'| ->]; [now left|].
      right. split.
      * intros g. unfold has_key. rewrite <- (Hgk eq_refl). fold (has_key g cs).
        now rewrite Hgm.
      * intros g l Hl. destruct (Hgl g l Hl) as [[]|Hle]. exact Hle.
Qed.

(** *** The loops over benign track searches *)

Section Benign.
Hypothesis Hnet : searches_benign net.

Lemma safe_request_from_benign attempts r w :
  url r = "https://api.spotify.com/v1/search" ->
  exists res w',
    safe_request_from net attempts r w = (Ret res, w')
    /\ match res with
       | None => True
       | Some resp => well_formed_page resp
       end.
Proof.
  intros Hr. revert w. induction attempts as [|a rest IH]; intros w.
  - exists None, w. now split.
  - rewrite Fetcher.safe_request_from_step. cbv zeta.
    pose proof (Hnet (requests_made w) r Hr) as Hb. unfold benign in Hb.
    destruct (net (requests_made w) r) as [resp|]; [|apply IH].
    destruct (status_code resp =? 429).
    + unfold well_formed_delay in Hb. destruct (delay_of resp) as [n|]; [|discriminate].
      apply Z.leb_le in Hb.
      replace (1000 * n <? 0) with false by (symmetry; apply Z.ltb_ge; lia).
      apply IH.
    + destruct ((400 <=? status_code resp) && (status_code resp <? 500)).
      { eexists None, _. now split. }
      unfold raises_for_status in Hb.
      destruct ((400 <=? status_code resp) && (status_code resp <? 600)); [apply IH|].
      eexists (Some resp), _. now split.
Qed.

(** Values that read as tracks. *)
Definition tracks_ok (js : list json) : Prop := exists ts, Forall2 represents js ts.

Lemma tracks_ok_app js1 js2 : tracks_ok js1 -> tracks_ok js2 -> tracks_ok (js1 ++ js2).
Proof.
  intros [ts1 H1] [ts2 H2]. exists (ts1 ++ ts2). now apply Forall2_app.
Qed.

Lemma tracks_ok_firstn n js : tracks_ok js -> tracks_ok (firstn n js).
Proof.
  intros [ts H]. exists (firstn n ts). revert n.
  induction H; intros [|n]; cbn [firstn]; constructor; auto.
Qed.

Lemma tracks_ok_slice_to js n : tracks_ok js -> tracks_ok (slice_to js n).
Proof. intros H. unfold slice_to. destruct (0 <=? n); now apply tracks_ok_firstn. Qed.

Lemma items_of_well_formed resp w :
  well_formed_page resp ->
  exists items, items_of "tracks" resp w = (Ret (JList items), w) /\ tracks_ok items.
Proof.
  intros (j & o & items & ts & Hb & Hj & Ho & Hrep). exists items.
  split; [|now exists ts].
  unfold items_of, json_of. unfold_monad. now rewrite Hb, Hj, Ho.
Qed.

Lemma tracks_loop_benign token genre market offsets :
  forall acc w, tracks_ok acc ->
  exists js w',
    tracks_loop net token genre market offsets acc w = (Ret js, w')
    /\ tracks_ok js.
Proof.
  induction offsets as [|o rest IH]; intros acc w Hacc.
  - exists acc, w. now split.
  - cbn [tracks_loop]. unfold bind at 1.
    destruct (safe_request_from_benign (range 1 4 1)
                (search_request token genre market o) w eq_refl)
      as (res & w1 & Hreq & Hres).
    fold (safe_request net (search_request token genre market o) w) in Hreq.
    rewrite Hreq. destruct res as [resp|]; [|exists acc, w1; now split].
    destruct (items_of_well_formed resp w1 Hres) as (items & Hitems & Hok).
    unfold bind at 1. rewrite Hitems.
    destruct items as [|i items]; [exists acc, w1; now split|].
    cbn [truthy negb iterate len lift]. unfold bind at 1 2. unfold lift.
    pose proof (tracks_ok_app _ _ Hacc Hok) as Hall.
    destruct (_ <? batch); [eexists _, _; split; [reflexivity | exact Hall]|].
    unfold bind, sleep_ms. cbn [Z.ltb Z.compare]. now apply IH.
Qed.

Lemma fetch_genre_tracks_benign token genre market total w :
  exists js w',
    fetch_genre_tracks net token genre market total w = (Ret js, w')
    /\ tracks_ok js.
Proof.
  unfold fetch_genre_tracks, bind.
  destruct (tracks_loop_benign token genre market (range 0 total batch) [] w)
    as (js & w' & H & Hok); [exists []; constructor|].
  rewrite H. exists (slice_to js total), w'.
  split; [reflexivity | now apply tracks_ok_slice_to].
Qed.

Lemma sum_popularity_tracks js :
  tracks_ok js ->
  forall acc, exists score, sum_popularity acc js = Ret score.
Proof.
  intros [ts H]. induction H as [|j t js ts (arts & _ & _ & Hp) _ IH];
    intros acc; [now exists acc|].
  cbn [sum_popularity]. rewrite Hp. cbn [int_add]. apply IH.
Qed.

Lemma rank_artists_tracks js top_n :
  tracks_ok js -> exists ranked, rank_artists js top_n = Ret ranked.
Proof.
  intros [ts H]. unfold rank_artists.
  rewrite (Aggregator.artist_scores_totals js ts H). eauto.
Qed.

Lemma genres_loop_benign token market genres :
  Forall (fun g => hashable g = true) genres ->
  forall cs0 ca0 w, exists cs ca w',
    genres_loop TRACKS_LIMIT TOP_N_ARTISTS net token market genres cs0 ca0 w
    = (Ret (cs, ca), w').
Proof.
  induction 1 as [|g rest Hg _ IH]; intros cs0 ca0 w.
  - exists cs0, ca0, w. reflexivity.
  - cbn [genres_loop]. unfold bind at 1.
    destruct (fetch_genre_tracks_benign token g market TRACKS_LIMIT w)
      as (ts & w1 & Hf & Hok). rewrite Hf.
    destruct (sum_popularity_tracks ts Hok 0) as [score Hs].
    unfold bind at 1. unfold lift at 1. rewrite Hs, Hg. cbn [negb].
    unfold bind at 1. unfold fetch_top_artists_for_genre. unfold bind at 1.
    destruct (fetch_genre_tracks_benign token g market TRACKS_LIMIT w1)
      as (ts' & w2 & Hf' & Hok'). rewrite Hf'.
    destruct (rank_artists_tracks ts' TOP_N_ARTISTS Hok') as [ranked Hr].
    unfold lift at 1. rewrite Hr.
    unfold bind at 1. unfold sleep_ms at 1. cbn [Z.ltb Z.compare]. apply IH.
Qed.

Lemma markets_loop_benign token genres markets :
  Forall (fun g => hashable g = true) genres ->
  Forall (fun m => hashable m = true) markets ->
  forall result w, exists result' w',
    markets_loop TRACKS_LIMIT TOP_N_ARTISTS net token genres markets result w
    = (Ret result', w').
Proof.
  intros Hg. induction 1 as [|m rest Hm _ IH]; intros result w.
  - exists result, w. reflexivity.
  - cbn [markets_loop]. unfold bind at 1.
    destruct (genres_loop_benign token m genres Hg [] [] w) as (cs & ca & w1 & H).
    rewrite H, Hm. cbn [negb]. apply IH.
Qed.

End Benign.
End Loops.

(** *** The run of [main] *)

Section Main.
Variables CLIENT_ID CLIENT_SECRET : string.
Variables MARKETS_LIMIT GENRES_LIMIT TRACKS_LIMIT TOP_N_GENRES TOP_N_ARTISTS : Z.
Variable net : nat -> request -> outcome.

#[local] Abbreviation main' :=
  (main CLIENT_ID CLIENT_SECRET MARKETS_LIMIT GENRES_LIMIT TRACKS_LIMIT
        TOP_N_GENRES TOP_N_ARTISTS net).

Ltac writes_unchanged :=
  unfold ret, raise; cbn [snd];
  repeat match goal with
         | Q : writes_of ?a = writes_of _ |- writes_of ?a = _ => rewrite Q
         end;
  reflexivity.

#[local] Abbreviation completed' :=
  (completed CLIENT_ID CLIENT_SECRET MARKETS_LIMIT GENRES_LIMIT TRACKS_LIMIT
             TOP_N_GENRES TOP_N_ARTISTS net).

(** [main] either writes nothing, or completes and writes its result, as
    its last act. *)
Lemma main_cases w :
  writes_of (snd (main' w)) = writes_of w
  \/ exists markets result w5,
       completed' w markets result w5
       /\ main' w = (Ret tt, EvWrite result :: w5).
Proof.
  unfold main. unfold bind at 1.
  pose proof (quiet_get_token CLIENT_ID CLIENT_SECRET net w) as Q1.
  destruct (get_token CLIENT_ID CLIENT_SECRET net w) as [[token|e] w1] eqn:E1;
    try rewrite E1 in Q1; cbn [snd] in Q1; [|now left].
  destruct (truthy token) eqn:Etok; cbn [negb]; [|now left].
  unfold bind at 1.
  pose proof (quiet_get_all_categories net token GENRES_LIMIT w1) as Q2.
  destruct (get_all_categories net token GENRES_LIMIT w1) as [[cats|e] w2] eqn:E2;
    try rewrite E2 in Q2; cbn [snd] in Q2; [|left; writes_unchanged].
  unfold bind at 1.
  pose proof (quiet_global_scores_loop TRACKS_LIMIT net token cats [] w2) as Q3.
  destruct (global_scores_loop TRACKS_LIMIT net token cats [] w2)
    as [[gs|e] w3] eqn:E3;
    try rewrite E3 in Q3; cbn [snd] in Q3; [|left; writes_unchanged].
  unfold bind at 1.
  pose proof (quiet_get_markets MARKETS_LIMIT net token w3) as Q4.
  destruct (get_markets MARKETS_LIMIT net token w3) as [[mk|e] w4] eqn:E4;
    try rewrite E4 in Q4; cbn [snd] in Q4; [|left; writes_unchanged].
  destruct (truthy mk) eqn:Emk; cbn [negb]; [|left; writes_unchanged].
  unfold bind at 1. unfold lift at 1.
  destruct (iterate mk) as [ms|e] eqn:E5; [|left; writes_unchanged].
  unfold bind at 1.
  match goal with
  | |- context [markets_loop ?a ?b ?c ?d ?e ?f ?g w4] =>
      pose proof (quiet_markets_loop a b c d e f g w4) as Q5;
      destruct (markets_loop a b c d e f g w4) as [[result|e'] w5] eqn:E6
  end; try rewrite E6 in Q5; cbn [snd] in Q5; [|left; writes_unchanged].
  right. exists ms, result, w5. split.
  - exists token, w1, cats, w2, gs, w3, mk, w4.
    repeat split; try assumption. writes_unchanged.
  - unfold bind, lift. rewrite E1, Etok. cbn [negb]. rewrite E2, E3, E4, Emk.
    cbn [negb]. rewrite E5, E6. reflexivity.
Qed.

(** Truthy markets iterate to a non-empty list. *)
Lemma truthy_iterate mk ms :
  truthy mk = true -> iterate mk = Ret ms -> ms <> [].
Proof.
  destruct mk as [|b|n|s|l|kvs]; cbn; intros Ht Hi; try discriminate;
    inversion Hi; subst; clear Hi.
  - destruct s; cbn in *; discriminate.
  - destruct ms; [discriminate | discriminate].
  - destruct kvs; cbn in *; discriminate.
Qed.

(** What a completed run hands to [write_snapshot]. *)
Lemma completed_shape w markets result w5 :
  completed' w markets result w5 ->
  snapshot_complete markets result
  /\ (0 <= TOP_N_ARTISTS -> artists_capped TOP_N_ARTISTS result)
  /\ Forall (fun g => hashable g = true) (top_genres result).
Proof.
  intros (token & w1 & cats & w2 & gs & w3 & mk & w4 &
          _ & _ & _ & _ & _ & Hmk & Hit & Hloop & _).
  pose proof (truthy_iterate mk markets Hmk Hit) as Hne.
  apply markets_loop_shape in Hloop.
  cbn [top_genres country_genre_popularity top_artists] in Hloop.
  destruct Hloop as (Htop & Hh & Hk & Hhas & Hcs & Hca).
  unfold snapshot_complete, artists_capped. rewrite Htop. repeat split.
  - now apply Hk.
  - intros k. now rewrite Hhas.
  - intros m scores Hin. destruct (Hcs m scores Hin) as [[]|H]. exact H.
  - intros m artists Hin. destruct (Hca m artists Hin) as [[]|[H _]]. exact H.
  - intros Hn m artists g l Hin Hl.
    destruct (Hca m artists Hin) as [[]|[_ H]]. now apply (H g l).
  - now apply Hh.
Qed.

(** The writes of a run: none, or the result of a completed run. *)
Lemma main_writes w :
  writes_of (snd (main' w)) = writes_of w
  \/ exists markets result w5,
       completed' w markets result w5
       /\ fst (main' w) = Ret tt
       /\ writes_of (snd (main' w)) = writes_of w ++ [result].
Proof.
  destruct (main_cases w) as [H|(markets & result & w5 & Hc & Hm)]; [now left|].
  right. exists markets, result, w5. rewrite Hm. cbn [fst snd].
  repeat split; [exact Hc|].
  rewrite writes_of_write. f_equal.
  destruct Hc as (? & ? & ? & ? & ? & ? & ? & ? & Hc). apply Hc.
Qed.

End Main.

Lemma dict_get_In {V} k (d : dict V) v :
  dict_get k d = Some v -> exists k', In (k', v) d.
Proof.
  induction d as [|[k2 v2] d IH]; cbn [dict_get]; [discriminate|].
  destruct (key_eqb k2 k).
  - intros H. inversion H; subst. exists k2. now left.
  - intros H. destruct (IH H) as [k' Hk']. exists k'. now right.
Qed.

Lemma key_in_In g gs :
  Forall (fun g => hashable g = true) gs -> In g gs -> key_in g gs = true.
Proof.
  intros Hh Hin. unfold key_in. apply existsb_exists. exists g.
  split; [exact Hin|]. apply PyFacts.key_eqb_refl.
  rewrite Forall_forall in Hh. now apply Hh.
Qed.

Lemma app_one_neq {A} (l : list A) x : l <> l ++ [x].
Proof.
  intros H. apply (f_equal (@List.length A)) in H.
  rewrite length_app in H. cbn in H. lia.
Qed.

(** C10.  In every snapshot [main] writes, [country_genre_popularity] and
    [top_artists] hold the same markets, the ones the markets fetch
    returned; under every market both inner mappings hold exactly the
    genres of [top_genres]; no artist list is longer than
    [TOP_N_ARTISTS]; so [country_genre_popularity[market][genre]] is there
    for every market of [top_artists] and every genre of [top_genres]. *)
Theorem snapshot_key_sets (CLIENT_ID CLIENT_SECRET : string)
        (MARKETS_LIMIT GENRES_LIMIT TRACKS_LIMIT TOP_N_GENRES TOP_N_ARTISTS : Z)
        (net : nat -> request -> outcome) (w : world) (s : snapshot) :
  0 <= TOP_N_ARTISTS ->
  writes_of (snd (main CLIENT_ID CLIENT_SECRET MARKETS_LIMIT GENRES_LIMIT
                       TRACKS_LIMIT TOP_N_GENRES TOP_N_ARTISTS net w))
  = writes_of w ++ [s] ->
  exists markets w5,
    completed CLIENT_ID CLIENT_SECRET MARKETS_LIMIT GENRES_LIMIT TRACKS_LIMIT
              TOP_N_GENRES TOP_N_ARTISTS net w markets s w5
    /\ snapshot_complete markets s
    /\ artists_capped TOP_N_ARTISTS s
    /\ (forall m g,
          has_key m (top_artists s) = true -> In g (top_genres s) ->
          exists scores v,
            dict_get m (country_genre_popularity s) = Some scores
            /\ dict_get g scores = Some v).
Proof.
  intros Hn Hw.
  destruct (main_writes CLIENT_ID CLIENT_SECRET MARKETS_LIMIT GENRES_LIMIT
              TRACKS_LIMIT TOP_N_GENRES TOP_N_ARTISTS net w)
    as [H|(markets & result & w5 & Hc & _ & H)]; rewrite H in Hw.
  - exfalso. exact (app_one_neq _ _ Hw).
  - apply app_inv_head in Hw. inversion Hw; subst result.
    exists markets, w5.
    destruct (completed_shape _ _ _ _ _ _ _ _ _ _ _ _ Hc) as (Hcomplete & Hcap & Hhash).
    split; [exact Hc|]. split; [exact Hcomplete|]. split; [now apply Hcap|].
    destruct Hcomplete as (Hkeys & _ & Hscores & _).
    intros m g Hm Hg. unfold has_key in Hm. rewrite <- Hkeys in Hm.
    apply PyFacts.dict_get_has_key in Hm. destruct Hm as [scores Hget].
    destruct (dict_get_In _ _ _ Hget) as [m' Hin].
    assert (Hhas : has_key g scores = true).
    { rewrite (Hscores m' scores Hin). now apply key_in_In. }
    apply PyFacts.dict_get_has_key in Hhas. destruct Hhas as [v Hv].
    exists scores, v. now split.
Qed.

Lemma range_head total :
  0 < total -> exists rest, range 0 total batch = 0 :: rest.
Proof.
  intros H. rewrite Collector.range_offsets.
  pose proof (Collector.page_count_covers total H) as Hc.
  destruct (Z.to_nat ((total + 49) / 50)) as [|k]; [lia|].
  eexists. reflexivity.
Qed.

(** A fetch whose first page gets no result returns no track. *)
Lemma fetch_genre_tracks_no_result net token genre market total w w1 :
  0 < total ->
  safe_request net (search_request token genre market 0) w = (Ret None, w1) ->
  fetch_genre_tracks net token genre market total w = (Ret [], w1).
Proof.
  intros Ht H. unfold fetch_genre_tracks. destruct (range_head total Ht) as [rest ->].
  cbn [tracks_loop]. unfold bind. rewrite H. unfold ret.
  now rewrite PyFacts.slice_to_nil.
Qed.


Lemma gb_refused_benign : searches_benign net_gb_refused.
Proof.
  intros n r Hr. unfold net_gb_refused, service, url_is. rewrite Hr.
  cbn [String.eqb Ascii.eqb Bool.eqb andb].
  assert (Hpage : benign (Response (ok (JDict [("tracks",
                            JDict [("items", JList last_tracks)])])))).
  { cbn. eexists _, _, _, three_tracks.
    repeat split; try reflexivity. apply Aggregator.last_tracks_represent. }
  destruct (has_market r); [|exact Hpage].
  destruct (String.eqb (market_of r) "GB"); [exact I | exact Hpage].
Qed.



Lemma snapshot_key_sets_witness :
  writes_of (snd (run_main net_service)) = [service_snapshot]
  /\ exists markets,
       snapshot_complete markets service_snapshot
       /\ artists_capped 5 service_snapshot.
Proof.
  split; [reflexivity|].
  destruct (snapshot_key_sets "id" "secret" 10 200 200 10 5 net_service []
              service_snapshot ltac:(lia) eq_refl)
    as (markets & w5 & _ & Hc & Hcap & _).
  exists markets. split; assumption.
Defined.



End Builder.

(** ** The Boundary Normalizer *)

Module Normalizer.
Import Py Pandas Examples.

Lemma rename_other old new (fr : frame) :
  (forall x, In x (labels fr) -> x <> old) -> rename old new fr = fr.
Proof.
  induction fr as [|[n c] fr IH]; intros H; [reflexivity|].
  cbn [rename map fst snd]. fold (rename old new fr).
  rewrite IH by (intros x Hx; apply H; now right).
  destruct (String.eqb n old) eqn:E; [|reflexivity].
  apply String.eqb_eq in E. exfalso. apply (H n); [now left | exact E].
Qed.

(** Renaming the one column that bears a label. *)
Lemma rename_unique old new pre cells post :
  (forall x, In x (labels (pre ++ post)) -> x <> old) ->
  rename old new (pre ++ (old, cells) :: post) = pre ++ (new, cells) :: post.
Proof.
  intros H. unfold rename. rewrite map_app. cbn [map fst snd].
  rewrite String.eqb_refl.
  fold (rename old new pre). fold (rename old new post).
  rewrite !rename_other; [reflexivity | |];
    intros x Hx; apply H; unfold labels in *; rewrite map_app, in_app_iff; auto.
Qed.

Lemma filter_label_none label (fr : frame) :
  (forall x, In x (labels fr) -> x <> label) ->
  filter (fun col => String.eqb (fst col) label) fr = []
  /\ map (fun col => if String.eqb (fst col) label
                     then (fst col, map (option_map upper) (snd col))
                     else col) fr = fr.
Proof.
  induction fr as [|[n c] fr IH]; intros H; [now split|].
  cbn [filter map fst snd].
  destruct (String.eqb n label) eqn:E.
  - apply String.eqb_eq in E. exfalso. apply (H n); [now left | exact E].
  - destruct IH as [IH1 IH2]; [intros x Hx; apply H; now right|].
    now rewrite IH1, IH2.
Qed.

(** Upper-casing the one column that bears a label. *)
Lemma upper_column_unique label pre cells post :
  (forall x, In x (labels (pre ++ post)) -> x <> label) ->
  upper_column label (pre ++ (label, cells) :: post)
  = Ret (pre ++ (label, map (option_map upper) cells) :: post).
Proof.
  intros H.
  destruct (filter_label_none label pre) as [Hf1 Hm1].
  { intros x Hx. apply H. unfold labels in *. rewrite map_app, in_app_iff. auto. }
  destruct (filter_label_none label post) as [Hf2 Hm2].
  { intros x Hx. apply H. unfold labels in *. rewrite map_app, in_app_iff. auto. }
  assert (Hone : filter (fun col => String.eqb (fst col) label)
                        (pre ++ (label, cells) :: post) = [(label, cells)]).
  { rewrite filter_app, Hf1. cbn [filter fst app].
    now rewrite String.eqb_refl, Hf2. }
  unfold upper_column, frame, cell in *. rewrite Hone, map_app, Hm1.
  cbn [map fst snd].
  now rewrite String.eqb_refl, Hm2.
Qed.

Lemma rename_iso2_none cols world :
  (forall c, In c cols -> RenderMaps.is_alias c = false) ->
  RenderMaps.rename_iso2 cols world
  = Raise (RuntimeError "No ISO-2 column found in boundaries file").
Proof.
  induction cols as [|c cols IH]; intros H; [reflexivity|].
  cbn [RenderMaps.rename_iso2]. rewrite (H c) by now left.
  apply IH. intros x Hx. apply H. now right.
Qed.

Lemma rename_iso2_first pre c post world :
  (forall x, In x pre -> RenderMaps.is_alias x = false) ->
  RenderMaps.is_alias c = true ->
  RenderMaps.rename_iso2 (pre ++ c :: post) world = Ret (rename c "iso_a2" world).
Proof.
  induction pre as [|p pre IH]; intros H Hc; cbn [app RenderMaps.rename_iso2].
  - now rewrite Hc.
  - rewrite (H p) by now left. apply IH; [|exact Hc].
    intros x Hx. apply H. now right.
Qed.

Lemma iso2_col_last pre c post :
  App.is_iso2_like c = true ->
  (forall x, In x post -> App.is_iso2_like x = false) ->
  rev (filter App.is_iso2_like (pre ++ c :: post))
  = c :: rev (filter App.is_iso2_like pre).
Proof.
  intros Hc Hpost. rewrite filter_app. cbn [filter]. rewrite Hc.
  replace (filter App.is_iso2_like post) with (@nil string).
  - rewrite rev_app_distr. reflexivity.
  - symmetry. induction post as [|p post IH]; [reflexivity|].
    cbn [filter]. rewrite (Hpost p) by now left.
    apply IH. intros x Hx. apply Hpost. now right.
Qed.

Lemma lower_char_2 ch : Ascii.eqb (lower_char ch) "2" = Ascii.eqb ch "2".
Proof. destruct ch as [[] [] [] [] [] [] [] []]; reflexivity. Qed.

Lemma prefix_2 ch s : String.prefix "2" (String ch s) = Ascii.eqb ch "2".
Proof.
  cbn [String.prefix]. destruct (ascii_dec "2" ch) as [E|E].
  - subst ch. now destruct s.
  - symmetry. apply Ascii.eqb_neq. congruence.
Qed.

Lemma contains_2_lower c : contains "2" (lower c) = contains "2" c.
Proof.
  induction c as [|ch c IH]; [reflexivity|].
  change (lower (String ch c)) with (String (lower_char ch) (lower c)).
  change (contains "2" (String (lower_char ch) (lower c)))
    with (String.prefix "2" (String (lower_char ch) (lower c))
          || contains "2" (lower c)).
  change (contains "2" (String ch c))
    with (String.prefix "2" (String ch c) || contains "2" c).
  now rewrite !prefix_2, lower_char_2, IH.
Qed.

(** Whatever matches an alias also passes the test of [app.py]. *)
Lemma alias_is_iso2_like c : RenderMaps.is_alias c = true -> App.is_iso2_like c = true.
Proof.
  unfold RenderMaps.is_alias, App.is_iso2_like, RenderMaps.iso2_aliases.
  cbn [existsb]. rewrite <- contains_2_lower.
  rewrite !orb_true_iff. rewrite !String.eqb_eq.
  intros [H|[H|[H|[H|H]]]]; try discriminate; rewrite H; reflexivity.
Qed.

Lemma labels_split (pre : frame) c cells post :
  labels (pre ++ (c, cells) :: post) = labels pre ++ c :: labels post.
Proof. unfold labels. now rewrite map_app. Qed.


Ltac other_labels :=
  intros x Hx; cbn in Hx;
  repeat (destruct Hx as [<-|Hx]; [split; discriminate|]); destruct Hx.



End Normalizer.

(** ** The Aggregate-Geometry Joiner *)

Module Joiner.
Import Py Pandas Snapshot Examples.

Section MergeFacts.
Context {L R : Type} (key_l : L -> cell) (key_r : R -> string).

(** With distinct right keys, at most one right row joins a left row. *)
Lemma filter_same_key l (right : list R) :
  NoDup (map key_r right) ->
  filter (same_key key_l key_r l) right = []
  \/ exists r, filter (same_key key_l key_r l) right = [r].
Proof.
  induction right as [|r right IH]; intros Hnd; [now left|].
  inversion Hnd as [|k ks Hnotin Hnd']; subst.
  cbn [filter]. destruct (same_key key_l key_r l r) eqn:E; [|now apply IH].
  right. exists r. f_equal.
  unfold same_key in *. destruct (key_l l) as [k|]; [|discriminate].
  apply String.eqb_eq in E. subst k.
  clear IH Hnd Hnd'. induction right as [|r' right IH]; [reflexivity|].
  cbn [filter]. destruct (String.eqb (key_r r) (key_r r')) eqn:E'.
  - apply String.eqb_eq in E'. exfalso. apply Hnotin. left. now symmetry.
  - apply IH. intros Hin. apply Hnotin. now right.
Qed.

(** Left-join: with distinct right keys every left row comes out once, in
    order. *)
Lemma merge_left_one_each left (right : list R) :
  NoDup (map key_r right) ->
  map fst (merge_left key_l key_r left right) = left.
Proof.
  intros Hnd. induction left as [|l left IH]; [reflexivity|].
  cbn [merge_left flat_map]. rewrite map_app. fold (merge_left key_l key_r left right).
  rewrite IH. destruct (filter_same_key l right Hnd) as [->|[r ->]]; reflexivity.
Qed.

(** A left row no right row joins comes out alone. *)
Lemma merge_left_unmatched left (right : list R) l o :
  In (l, o) (merge_left key_l key_r left right) ->
  (forall r, In r right -> same_key key_l key_r l r = false) ->
  o = None.
Proof.
  intros Hin Hno. unfold merge_left in Hin. apply in_flat_map in Hin.
  destruct Hin as (l' & _ & Hin).
  destruct (filter (same_key key_l key_r l') right) as [|r ms] eqn:E.
  - destruct Hin as [Hin|[]]. now inversion Hin.
  - apply in_map_iff in Hin. destruct Hin as (r' & Heq & Hr').
    inversion Heq; subst. rewrite <- E in Hr'. apply filter_In in Hr'.
    destruct Hr' as [Hr' Hs]. now rewrite Hno in Hs.
Qed.

End MergeFacts.

(** The three views that fill the tooltip: every boundary record comes out
    once, and one without an entry gets the value 0 and the sentinel. *)
Section Filled.
Context {R : Type} (key_r : R -> string) (value : R -> Z) (tip : R -> string).
Variable sentinel : string.

Definition fill (lr : boundary * option R) : joined :=
  {| joined_boundary := fst lr;
     joined_value := match snd lr with Some r => value r | None => 0 end;
     joined_tooltip := Some (match snd lr with Some r => tip r | None => sentinel end) |}.

Lemma filled_rows (world : list boundary) (records : list R) :
  NoDup (map key_r records) ->
  let rows := map fill (merge_left iso_a2 key_r world records) in
  map joined_boundary rows = world
  /\ forall row, In row rows ->
       (forall r, In r records ->
                  same_key iso_a2 key_r (joined_boundary row) r = false) ->
       joined_value row = 0 /\ joined_tooltip row = Some sentinel.
Proof.
  intros Hnd rows. split.
  - unfold rows. rewrite map_map. cbn [fill joined_boundary].
    now apply merge_left_one_each.
  - intros row Hin Hno. unfold rows in Hin. apply in_map_iff in Hin.
    destruct Hin as ([b o] & <- & Hin). cbn [fill joined_boundary fst snd] in *.
    rewrite (merge_left_unmatched _ _ _ _ _ _ Hin Hno). now split.
Qed.

End Filled.

(** A boundary record without entry in the aggregate: no market code,
    upper-cased, is its ISO-2 code. *)
Definition no_entry {V} (aggregate : list (string * V)) (b : boundary) : Prop :=
  forall kv, In kv aggregate -> iso_a2 b <> Some (upper (fst kv)).

Lemma no_entry_same_key {V R} (key_r : R -> string) (f : string * V -> R)
      (aggregate : list (string * V)) b :
  (forall kv, key_r (f kv) = upper (fst kv)) ->
  no_entry aggregate b ->
  forall r, In r (map f aggregate) -> same_key iso_a2 key_r b r = false.
Proof.
  intros Hkey Hno r Hin. apply in_map_iff in Hin. destruct Hin as (kv & <- & Hkv).
  unfold same_key. destruct (iso_a2 b) as [k|] eqn:E; [|reflexivity].
  apply String.eqb_neq. intros Hk. apply (Hno kv Hkv).
  rewrite E, <- Hkey. now f_equal.
Qed.

(** The views that hold: over a non-empty aggregate whose market codes
    stay distinct when upper-cased, the total view of both scripts and the
    per-genre view of [prepare_and_render_maps.py] give every boundary
    record one row, with 0 and the sentinel where the aggregate has no
    entry. *)
Lemma filled_views world (popularity : popularity) (artists : artists) genre :
  popularity <> [] ->
  NoDup (map (fun kv => upper (fst kv)) popularity) ->
  (exists rows,
      RenderMaps.merged_total world popularity = Ret rows
      /\ map joined_boundary rows = world
      /\ forall row, In row rows -> no_entry popularity (joined_boundary row) ->
           joined_value row = 0 /\ joined_tooltip row = Some "No data")
  /\ (exists rows,
      RenderMaps.merged_g world popularity artists genre = Ret rows
      /\ map joined_boundary rows = world
      /\ forall row, In row rows -> no_entry popularity (joined_boundary row) ->
           joined_value row = 0 /\ joined_tooltip row = Some "No data")
  /\ (exists rows,
      App.merged_tot world popularity = Ret rows
      /\ map joined_boundary rows = world
      /\ forall row, In row rows -> no_entry popularity (joined_boundary row) ->
           joined_value row = 0 /\ joined_tooltip row = Some "None").
Proof.
  intros Hne Hnd. split; [|split].
  - unfold RenderMaps.merged_total, RenderMaps.merge_fill.
    destruct (RenderMaps.total_records popularity) as [|r rs] eqn:E.
    { destruct popularity; [congruence | discriminate]. }
    rewrite <- E. eexists. split; [reflexivity|].
    assert (Hk : NoDup (map RenderMaps.rec_iso_a2 (RenderMaps.total_records popularity))).
    { unfold RenderMaps.total_records. now rewrite map_map. }
    destruct (filled_rows RenderMaps.rec_iso_a2 RenderMaps.rec_value
                RenderMaps.rec_tip "No data" world _ Hk) as [H1 H2].
    split; [exact H1|]. intros row Hin Hno. apply (H2 row Hin).
    unfold RenderMaps.total_records.
    now apply (no_entry_same_key RenderMaps.rec_iso_a2).
  - unfold RenderMaps.merged_g, RenderMaps.merge_fill.
    destruct (RenderMaps.genre_records popularity artists genre) as [|r rs] eqn:E.
    { destruct popularity; [congruence | discriminate]. }
    rewrite <- E. eexists. split; [reflexivity|].
    assert (Hk : NoDup (map RenderMaps.rec_iso_a2
                          (RenderMaps.genre_records popularity artists genre))).
    { unfold RenderMaps.genre_records. now rewrite map_map. }
    destruct (filled_rows RenderMaps.rec_iso_a2 RenderMaps.rec_value
                RenderMaps.rec_tip "No data" world _ Hk) as [H1 H2].
    split; [exact H1|]. intros row Hin Hno. apply (H2 row Hin).
    unfold RenderMaps.genre_records.
    now apply (no_entry_same_key RenderMaps.rec_iso_a2).
  - unfold App.merged_tot.
    destruct (App.tot_records popularity) as [|r rs] eqn:E.
    { destruct popularity; [congruence | discriminate]. }
    rewrite <- E. eexists. split; [reflexivity|].
    assert (Hk : NoDup (map App.tot_iso_a2 (App.tot_records popularity))).
    { unfold App.tot_records. now rewrite map_map. }
    destruct (filled_rows App.tot_iso_a2 App.tot_value App.tot_top5 "None"
                world _ Hk) as [H1 H2].
    split; [exact H1|]. intros row Hin Hno. apply (H2 row Hin).
    unfold App.tot_records.
    now apply (no_entry_same_key App.tot_iso_a2).
Qed.

(** C6, at the failing input.  With boundary records for US, GB and FR and
    the sample snapshot, which has no entry for FR, the per-genre view of
    [app.py] gives FR its row and the value 0 but no tooltip: the cell is
    missing.  The total view of [app.py] and both views of
    [prepare_and_render_maps.py] give FR the sentinel. *)
Theorem app_genre_view_drops_sentinel :
  App.merged_g three_countries sample_popularity sample_artists "G1"
  = Ret [ {| joined_boundary := country "US" "United States";
             joined_value := 10; joined_tooltip := Some "A (10)" |};
          {| joined_boundary := country "GB" "United Kingdom";
             joined_value := 5; joined_tooltip := Some "B (5)" |};
          {| joined_boundary := country "FR" "France";
             joined_value := 0; joined_tooltip := None |} ]
  /\ option_map (map joined_tooltip)
       (match App.merged_tot three_countries sample_popularity with
        | Ret rows => Some rows | Raise _ => None end)
     = Some [Some "G2 (20), G1 (10)"; Some "G1 (5), G2 (0)"; Some "None"]
  /\ option_map (map joined_tooltip)
       (match RenderMaps.merged_g three_countries sample_popularity
                sample_artists "G1" with
        | Ret rows => Some rows | Raise _ => None end)
     = Some [Some "A: 10"; Some "B: 5"; Some "No data"]
  /\ option_map (map joined_tooltip)
       (match RenderMaps.merged_total three_countries sample_popularity with
        | Ret rows => Some rows | Raise _ => None end)
     = Some [Some "G2: 20<br>G1: 10"; Some "G1: 5<br>G2: 0"; Some "No data"].
Proof. repeat split; reflexivity. Qed.

End Joiner.

(* ===================================================================== *)
(** * Further properties *)
(* ===================================================================== *)

(** ** The Fetcher: what it returns, when it waits, when it raises *)

Module FetcherTrace.
Import Py Refresh Vocab Words Examples.

Section Loop.
Variable net : nat -> request -> outcome.

Lemma safe_request_from_success attempts r :
  forall w resp w',
  safe_request_from net attempts r w = (Ret (Some resp), w') ->
  raises_for_status resp = false
  /\ exists i, (i < List.length attempts)%nat
       /\ net (requests_made w + i)%nat r = Response resp
       /\ requests_made w' = S (requests_made w + i)
       /\ forall j, (j < i)%nat ->
            failed_attempt (net (requests_made w + j)%nat r) = true.
Proof.
  induction attempts as [|a rest IH]; intros w resp w' H; [discriminate|].
  rewrite Fetcher.safe_request_from_step in H. cbv zeta in H.
  assert (Hnext : forall ms,
    failed_attempt (net (requests_made w) r) = true ->
    safe_request_from net rest r (EvSleep ms :: EvRequest r :: w)
    = (Ret (Some resp), w') ->
    raises_for_status resp = false
    /\ exists i, (i < List.length (a :: rest))%nat
         /\ net (requests_made w + i)%nat r = Response resp
         /\ requests_made w' = S (requests_made w + i)
         /\ forall j, (j < i)%nat ->
              failed_attempt (net (requests_made w + j)%nat r) = true).
  { intros ms Hfail Hrest. apply IH in Hrest.
    destruct Hrest as (Hok & i & Hi & Hn & Hc & Hprev).
    rewrite Fetcher.requests_made_sleep, Fetcher.requests_made_request in *.
    split; [exact Hok|]. exists (S i). repeat split.
    - cbn [List.length]. lia.
    - now replace (requests_made w + S i)%nat with (S (requests_made w) + i)%nat by lia.
    - lia.
    - intros [|j] Hj.
      + now rewrite Nat.add_0_r.
      + replace (requests_made w + S j)%nat with (S (requests_made w) + j)%nat by lia.
        apply Hprev. lia. }
  destruct (net (requests_made w) r) as [resp0|] eqn:En.
  2:{ eapply Hnext; [reflexivity | exact H]. }
  destruct (status_code resp0 =? 429) eqn:E429.
  - destruct (delay_of resp0) as [n|] eqn:Ed; [|discriminate].
    destruct (1000 * n <? 0) eqn:En0; [discriminate|].
    apply Z.ltb_ge in En0. eapply Hnext; [|exact H].
    unfold failed_attempt, well_formed_delay. rewrite E429, Ed.
    apply Z.leb_le. lia.
  - destruct ((400 <=? status_code resp0) && (status_code resp0 <? 500)) eqn:E4;
      [discriminate|].
    destruct ((400 <=? status_code resp0) && (status_code resp0 <? 600)) eqn:E5.
    + eapply Hnext; [|exact H].
      unfold failed_attempt. rewrite E429.
      apply andb_true_iff in E5 as [Ha Hb].
      apply andb_false_iff in E4 as [E4|E4]; [congruence|].
      apply Z.ltb_ge in E4. apply andb_true_iff. split; [apply Z.leb_le; lia | exact Hb].
    + inversion H; subst. split; [exact E5|].
      exists 0%nat. rewrite Nat.add_0_r. repeat split.
      * cbn [List.length]. lia.
      * exact En.
      * intros j Hj. lia.
Qed.

Lemma safe_request_from_raise attempts r :
  forall w e,
  fst (safe_request_from net attempts r w) = Raise e ->
  e = ValueError
  /\ exists i resp, (i < List.length attempts)%nat
       /\ net (requests_made w + i)%nat r = Response resp
       /\ status_code resp = 429
       /\ well_formed_delay resp = false.
Proof.
  induction attempts as [|a rest IH]; intros w e H; [discriminate|].
  rewrite Fetcher.safe_request_from_step in H. cbv zeta in H.
  assert (Hnext : forall ms,
    fst (safe_request_from net rest r (EvSleep ms :: EvRequest r :: w)) = Raise e ->
    e = ValueError
    /\ exists i resp, (i < List.length (a :: rest))%nat
         /\ net (requests_made w + i)%nat r = Response resp
         /\ status_code resp = 429
         /\ well_formed_delay resp = false).
  { intros ms Hrest. apply IH in Hrest.
    destruct Hrest as (He & i & resp & Hi & Hn & Hs & Hd).
    rewrite Fetcher.requests_made_sleep, Fetcher.requests_made_request in Hn.
    split; [exact He|]. exists (S i), resp. repeat split; try assumption.
    - cbn [List.length]. lia.
    - now replace (requests_made w + S i)%nat with (S (requests_made w) + i)%nat by lia. }
  destruct (net (requests_made w) r) as [resp0|] eqn:En; [|eapply Hnext; exact H].
  destruct (status_code resp0 =? 429) eqn:E429.
  - apply Z.eqb_eq in E429.
    assert (Hbad : well_formed_delay resp0 = false ->
      e = ValueError -> 
      e = ValueError
      /\ exists i resp, (i < List.length (a :: rest))%nat
           /\ net (requests_made w + i)%nat r = Response resp
           /\ status_code resp = 429
           /\ well_formed_delay resp = false).
    { intros Hd He. split; [exact He|]. exists 0%nat, resp0.
      rewrite Nat.add_0_r. repeat split; try assumption. cbn [List.length]. lia. }
    unfold well_formed_delay in Hbad.
    destruct (delay_of resp0) as [n|].
    + destruct (1000 * n <? 0) eqn:En0; [|eapply Hnext; exact H].
      cbn [fst] in H. inversion H; subst e. apply Hbad; [|reflexivity].
      apply Z.ltb_lt in En0. apply Z.leb_gt. lia.
    + cbn [fst] in H. inversion H; subst e. now apply Hbad.
  - destruct ((400 <=? status_code resp0) && (status_code resp0 <? 500));
      [discriminate|].
    destruct ((400 <=? status_code resp0) && (status_code resp0 <? 600));
      [eapply Hnext; exact H | discriminate].
Qed.

End Loop.

(** X1.  A response [safe_request] returns is never an error response:
    its status lies outside 400..599.  It is the answer to the last request
    sent, and every attempt before it was a failed one. *)
Theorem safe_request_returns_success (net : nat -> request -> outcome)
        (r : request) (w : world) (resp : response) (w' : world) :
  safe_request net r w = (Ret (Some resp), w') ->
  (status_code resp < 400 \/ 600 <= status_code resp)
  /\ exists i, (i < 3)%nat
       /\ net (requests_made w + i)%nat r = Response resp
       /\ requests_made w' = S (requests_made w + i)
       /\ forall j, (j < i)%nat ->
            failed_attempt (net (requests_made w + j)%nat r) = true.
Proof.
  unfold safe_request. rewrite PyFacts.range_1_4. intros H.
  apply safe_request_from_success in H. destruct H as [Hok Hex].
  split; [|exact Hex].
  unfold raises_for_status in Hok. apply andb_false_iff in Hok.
  destruct Hok as [Hok|Hok]; [left; apply Z.leb_gt in Hok | right; apply Z.ltb_ge in Hok];
    lia.
Qed.

Lemma safe_request_returns_success_witness :
  (status_code (ok (JDict [("ok", JBool true)])) < 400
   \/ 600 <= status_code (ok (JDict [("ok", JBool true)])))
  /\ exists i, (i < 3)%nat
       /\ net_429_then_200 (requests_made [] + i)%nat plain_request
          = Response (ok (JDict [("ok", JBool true)])).
Proof.
  destruct (safe_request_returns_success net_429_then_200 plain_request []
              (ok (JDict [("ok", JBool true)]))
              [EvRequest plain_request; EvSleep 0; EvRequest plain_request]
              eq_refl) as (Hs & i & Hi & Hn & _).
  split; [exact Hs|]. exists i. now split.
Defined.





End FetcherTrace.

(** ** The requests a computation sends *)

Module Traffic.
Import Py Refresh Vocab Words Examples.

(** [sends P m]: whatever the world, [m] adds to the requests sent only
    requests that satisfy [P]. *)
Definition sends {A} (P : request -> Prop) (m : M A) : Prop :=
  forall w, exists new,
    requests_of (snd (m w)) = requests_of w ++ new /\ Forall P new.

Lemma sends_silent {A} P (m : M A) :
  (forall w, requests_of (snd (m w)) = requests_of w) -> sends P m.
Proof. intros H w. exists []. rewrite H, app_nil_r. now split. Qed.

Lemma sends_ret {A} P (a : A) : sends P (ret a).
Proof. now apply sends_silent. Qed.

Lemma sends_raise {A} P e : sends P (@raise A e).
Proof. now apply sends_silent. Qed.

Lemma sends_lift {A} P (r : result A) : sends P (lift r).
Proof. now apply sends_silent. Qed.

Lemma sends_sleep_ms P ms : sends P (sleep_ms ms).
Proof.
  apply sends_silent. intros w. unfold sleep_ms.
  destruct (ms <? 0); [reflexivity | apply Markets.requests_of_sleep].
Qed.

Lemma sends_bind {A B} P (m : M A) (k : A -> M B) :
  sends P m -> (forall a, sends P (k a)) -> sends P (bind m k).
Proof.
  intros Hm Hk w. unfold bind. destruct (Hm w) as (new1 & E1 & F1).
  destruct (m w) as [[a|e] w1]; cbn [snd] in *.
  - destruct (Hk a w1) as (new2 & E2 & F2).
    exists (new1 ++ new2). rewrite E2, E1, app_assoc. split; [reflexivity|].
    now apply Forall_app.
  - exists new1. now split.
Qed.

Lemma sends_weaken {A} (P Q : request -> Prop) (m : M A) :
  (forall r, P r -> Q r) -> sends P m -> sends Q m.
Proof.
  intros H Hm w. destruct (Hm w) as (new & E & F). exists new.
  split; [exact E|]. eapply Forall_impl; eauto.
Qed.

Ltac sends_step :=
  match goal with
  | |- sends _ (bind _ _) => apply sends_bind; [|intro]
  | |- sends _ (ret _) => apply sends_ret
  | |- sends _ (raise _) => apply sends_raise
  | |- sends _ (lift _) => apply sends_lift
  | |- sends _ (sleep_ms _) => apply sends_sleep_ms
  | |- sends _ (sleep _) => apply sends_sleep_ms
  | |- sends _ (match ?x with _ => _ end) => destruct x
  | |- sends _ (if ?x then _ else _) => destruct x
  | H : _ |- _ => solve [apply H]
  end.

Section Sends.
Variable net : nat -> request -> outcome.

Lemma sends_http (P : request -> Prop) r : P r -> sends P (http net r).
Proof.
  intros H w. exists [r]. split; [apply Markets.requests_of_request|].
  now constructor.
Qed.

Lemma sends_json_of P resp : sends P (json_of resp).
Proof. unfold json_of. repeat sends_step. Qed.

Lemma sends_items_of P outer resp : sends P (items_of outer resp).
Proof. unfold items_of. pose proof (sends_json_of P). repeat sends_step. Qed.

Lemma sends_safe_request_from (P : request -> Prop) attempts r :
  P r -> sends P (safe_request_from net attempts r).
Proof.
  intros H. induction attempts as [|a rest IH]; cbn [safe_request_from].
  - apply sends_ret.
  - pose proof (sends_http P r H). repeat sends_step.
Qed.

Lemma sends_safe_request (P : request -> Prop) r : P r -> sends P (safe_request net r).
Proof. apply sends_safe_request_from. Qed.

Lemma sends_tracks_loop (P : request -> Prop) token genre market offsets :
  (forall o, In o offsets -> P (search_request token genre market o)) ->
  forall acc, sends P (tracks_loop net token genre market offsets acc).
Proof.
  induction offsets as [|o rest IH]; intros H acc; cbn [tracks_loop].
  - apply sends_ret.
  - pose proof (sends_safe_request P _ (H o (or_introl eq_refl))).
    pose proof (sends_items_of P).
    assert (forall acc, sends P (tracks_loop net token genre market rest acc))
      by (apply IH; intros o' Ho'; apply H; now right).
    repeat sends_step.
Qed.

Lemma sends_categories_loop (P : request -> Prop) token offsets :
  (forall o, In o offsets -> P (categories_request token o)) ->
  forall acc, sends P (categories_loop net token offsets acc).
Proof.
  induction offsets as [|o rest IH]; intros H acc; cbn [categories_loop].
  - apply sends_ret.
  - pose proof (sends_safe_request P _ (H o (or_introl eq_refl))).
    pose proof (sends_items_of P).
    assert (forall acc, sends P (categories_loop net token rest acc))
      by (apply IH; intros o' Ho'; apply H; now right).
    repeat sends_step.
Qed.

Lemma sends_fetch_genre_tracks (P : request -> Prop) token genre market total :
  (forall o, In o (range 0 total batch) -> P (search_request token genre market o)) ->
  sends P (fetch_genre_tracks net token genre market total).
Proof.
  intros H. unfold fetch_genre_tracks.
  pose proof (sends_tracks_loop P token genre market _ H). repeat sends_step.
Qed.

Lemma sends_get_all_categories (P : request -> Prop) token total :
  (forall o, In o (range 0 total batch) -> P (categories_request token o)) ->
  sends P (get_all_categories net token total).
Proof.
  intros H. unfold get_all_categories.
  pose proof (sends_categories_loop P token _ H). repeat sends_step.
Qed.

End Sends.

Lemma in_range_offsets o total :
  In o (range 0 total batch) -> 0 <= o < total /\ o mod batch = 0.
Proof.
  unfold range, batch. intros H. apply in_map_iff in H.
  destruct H as (i & <- & Hi). apply in_seq in Hi.
  replace (total - 0 + 50 - 1) with (total + 49) in Hi by lia.
  assert (Hpos : 0 < total).
  { destruct (Z.le_gt_cases total 0) as [Hle|Hgt]; [|exact Hgt].
    rewrite (Collector.page_count_nonpositive total Hle) in Hi. lia. }
  assert (Hd : 0 <= (total + 49) / 50) by (apply Z.div_pos; lia).
  assert (Hi' : Z.of_nat i < (total + 49) / 50) by lia.
  assert (H50 : 50 * ((total + 49) / 50) <= total + 49)
    by (apply Z.mul_div_le; lia).
  split; [lia|].
  replace (0 + 50 * Z.of_nat i) with (Z.of_nat i * 50) by lia.
  apply Z.mod_mul. lia.
Qed.

(** X4.  The paginated fetches ask only for what was requested: every
    request [fetch_genre_tracks] sends is the search for its genre, market
    and token with page size 50 at an offset that is a multiple of 50 and
    below the requested total; [get_all_categories] likewise.  No request
    goes out for a total of zero or less. *)
Theorem collector_requests (net : nat -> request -> outcome)
        (token genre market : json) (total : Z) (w : world) :
  (exists new,
      requests_of (snd (fetch_genre_tracks net token genre market total w))
      = requests_of w ++ new
      /\ Forall (fun r => exists o, r = search_request token genre market o
                                    /\ 0 <= o < total /\ o mod 50 = 0) new)
  /\ (exists new,
      requests_of (snd (get_all_categories net token total w))
      = requests_of w ++ new
      /\ Forall (fun r => exists o, r = categories_request token o
                                    /\ 0 <= o < total /\ o mod 50 = 0) new).
Proof.
  split.
  - apply (sends_fetch_genre_tracks net _ token genre market total).
    intros o Ho. exists o. split; [reflexivity | now apply in_range_offsets].
  - apply (sends_get_all_categories net _ token total).
    intros o Ho. exists o. split; [reflexivity | now apply in_range_offsets].
Qed.

End Traffic.

(** ** The Paginated Collector: bounds *)

Module CollectorBounds.
Import Py Refresh Vocab Words Examples.

Lemma range_nonpositive total : total <= 0 -> range 0 total batch = [].
Proof.
  intros H. rewrite Collector.range_offsets.
  now rewrite (Collector.page_count_nonpositive total H).
Qed.

(** X5.  Whatever the server answers, a paginated fetch that returns holds
    at most the requested total of items (for a total that is not
    negative), and for a total of zero or less it returns the empty list
    without touching the network. *)
Theorem collector_bounds (net : nat -> request -> outcome)
        (token genre market : json) (total : Z) (w : world) :
  (forall js w',
      fetch_genre_tracks net token genre market total w = (Ret js, w') ->
      (0 <= total -> Z.of_nat (List.length js) <= total)
      /\ (total <= 0 -> js = [] /\ w' = w))
  /\ (forall cs w',
      get_all_categories net token total w = (Ret cs, w') ->
      (0 <= total -> Z.of_nat (List.length cs) <= total)
      /\ (total <= 0 -> cs = [] /\ w' = w)).
Proof.
  split.
  - intros js w' H. unfold fetch_genre_tracks in H.
    apply Builder.bind_Ret_inv in H. destruct H as (all & w1 & Hloop & H).
    inversion H; subst. split.
    + intros Ht. now apply PyFacts.slice_to_length.
    + intros Ht. rewrite (range_nonpositive total Ht) in Hloop.
      inversion Hloop; subst. now rewrite PyFacts.slice_to_nil.
  - intros cs w' H. unfold get_all_categories in H.
    apply Builder.bind_Ret_inv in H. destruct H as (all & w1 & Hloop & H).
    inversion H; subst. split.
    + intros Ht. now apply PyFacts.slice_to_length.
    + intros Ht. rewrite (range_nonpositive total Ht) in Hloop.
      inversion Hloop; subst. now rewrite PyFacts.slice_to_nil.
Qed.

Lemma collector_bounds_witness :
  Z.of_nat (List.length (firstn (Z.to_nat 51) (List.concat [full_pairs; last_pairs]))) <= 51
  /\ fetch_genre_tracks net_two_pages tok (JStr "pop") JNull 0 [] = (Ret [], []).
Proof.
  destruct (collector_bounds net_two_pages tok JNull JNull 51 []) as [_ Hc].
  destruct (collector_bounds net_two_pages tok (JStr "pop") JNull 0 []) as [Ht _].
  split.
  - refine (proj1 (Hc _ _ _) ltac:(lia)). vm_compute. reflexivity.
  - destruct (fetch_genre_tracks net_two_pages tok (JStr "pop") JNull 0 [])
      as [[js|e] w'] eqn:E; [|vm_compute in E; discriminate].
    destruct (proj2 (Ht js w' eq_refl) ltac:(lia)) as [-> ->]. reflexivity.
Defined.

End CollectorBounds.

(** ** The Token Provider, and the traffic of a run *)

Module TokenProvider.
Import Py Refresh Vocab Words Examples Traffic.

Section Sends.
Variables TRACKS_LIMIT TOP_N_ARTISTS MARKETS_LIMIT : Z.
Variable net : nat -> request -> outcome.
Variable token : json.

(** A request of the API phase: a GET that carries the bearer token and no
    client credentials. *)
Definition authenticated (r : request) : Prop :=
  method r = "GET" /\ bearer r = Some token /\ auth r = None.

Lemma sends_fetch token' genre market total :
  token' = token ->
  sends authenticated (fetch_genre_tracks net token' genre market total).
Proof.
  intros ->. apply sends_fetch_genre_tracks. intros o _. now repeat split.
Qed.

Lemma sends_fetch_top_artists genre market total top_n :
  sends authenticated (fetch_top_artists_for_genre net token genre market total top_n).
Proof.
  unfold fetch_top_artists_for_genre.
  pose proof (fun g m t => sends_fetch token g m t eq_refl). repeat sends_step.
Qed.

Lemma sends_get_markets : sends authenticated (get_markets MARKETS_LIMIT net token).
Proof.
  unfold get_markets.
  assert (sends authenticated (safe_request net (markets_request MARKETS_LIMIT token)))
    by (apply sends_safe_request; now repeat split).
  pose proof (sends_json_of authenticated). repeat sends_step.
Qed.

Lemma sends_global_scores_loop categories gs :
  sends authenticated (global_scores_loop TRACKS_LIMIT net token categories gs).
Proof.
  revert gs. induction categories as [|[name id] rest IH]; intros gs;
    cbn [global_scores_loop].
  - apply sends_ret.
  - pose proof (fun g m t => sends_fetch token g m t eq_refl). repeat sends_step.
Qed.

Lemma sends_genres_loop market genres cs ca :
  sends authenticated
        (genres_loop TRACKS_LIMIT TOP_N_ARTISTS net token market genres cs ca).
Proof.
  revert cs ca. induction genres as [|g rest IH]; intros cs ca; cbn [genres_loop].
  - apply sends_ret.
  - pose proof (fun g m t => sends_fetch token g m t eq_refl).
    pose proof sends_fetch_top_artists. repeat sends_step.
Qed.

Lemma sends_markets_loop genres markets result :
  sends authenticated
        (markets_loop TRACKS_LIMIT TOP_N_ARTISTS net token genres markets result).
Proof.
  revert result. induction markets as [|m rest IH]; intros result;
    cbn [markets_loop].
  - apply sends_ret.
  - pose proof sends_genres_loop. repeat sends_step.
Qed.

End Sends.

Lemma get_token_world id secret net w :
  snd (get_token id secret net w) = snd (safe_request net (token_request id secret) w).
Proof.
  unfold get_token, json_of. unfold_monad.
  repeat case_scrutinee; reflexivity.
Qed.

Lemma get_token_requests id secret net w :
  exists k, (k <= 3)%nat
    /\ requests_of (snd (get_token id secret net w))
       = requests_of w ++ repeat (token_request id secret) k.
Proof.
  rewrite get_token_world. unfold safe_request. rewrite PyFacts.range_1_4.
  apply (Markets.safe_request_from_requests net [1; 2; 3]).
Qed.

(** X6.  [get_token] gives [None] when the Fetcher gives no result, and
    otherwise the [access_token] member of the response's JSON object,
    [None] when the object has none; a body that is not JSON, or not an
    object, makes it raise.  It sends nothing but the token request, a
    POST with the client credentials, at most three times. *)
Theorem get_token_results (id secret : string) (net : nat -> request -> outcome)
        (w : world) :
  (forall w',
      safe_request net (token_request id secret) w = (Ret None, w') ->
      get_token id secret net w = (Ret JNull, w'))
  /\ (forall resp kvs w',
      safe_request net (token_request id secret) w = (Ret (Some resp), w') ->
      body resp = Some (JDict kvs) ->
      get_token id secret net w
      = (Ret (match assoc "access_token" kvs with Some t => t | None => JNull end),
         w'))
  /\ (forall resp w',
      safe_request net (token_request id secret) w = (Ret (Some resp), w') ->
      (body resp = None -> get_token id secret net w = (Raise ValueError, w'))
      /\ (forall j, body resp = Some j -> (forall kvs, j <> JDict kvs) ->
                    get_token id secret net w = (Raise AttributeError, w')))
  /\ (exists k, (k <= 3)%nat
       /\ requests_of (snd (get_token id secret net w))
          = requests_of w ++ repeat (token_request id secret) k)
  /\ (method (token_request id secret) = "POST"
      /\ auth (token_request id secret) = Some (id, secret)
      /\ bearer (token_request id secret) = None).
Proof.
  split; [|split; [|split; [|split]]].
  - intros w' H. unfold get_token, bind. now rewrite H.
  - intros resp kvs w' H Hb. unfold get_token, json_of. unfold_monad.
    now rewrite H, Hb.
  - intros resp w' H. split.
    + intros Hb. unfold get_token, json_of. unfold_monad. now rewrite H, Hb.
    + intros j Hb Hj. unfold get_token, json_of. unfold_monad. rewrite H, Hb.
      destruct j; try reflexivity. exfalso. now apply (Hj kvs).
  - apply get_token_requests.
  - now repeat split.
Qed.

Lemma get_token_results_witness :
  get_token "id" "secret" net_no_token []
  = (Ret JNull, [EvRequest (token_request "id" "secret")])
  /\ get_token "id" "secret" net_service []
     = (Ret (JStr "t"), [EvRequest (token_request "id" "secret")]).
Proof.
  destruct (get_token_results "id" "secret" net_no_token []) as [H1 _].
  destruct (get_token_results "id" "secret" net_service []) as [_ [H2 _]].
  split.
  - apply H1. reflexivity.
  - apply (H2 (ok (JDict [("access_token", JStr "t")])) [("access_token", JStr "t")]);
      reflexivity.
Defined.

Lemma requests_of_write s w : requests_of (EvWrite s :: w) = requests_of w.
Proof. unfold requests_of. cbn [flat_map app]. reflexivity. Qed.

(** X7.  The traffic of a run.  After the token requests, every request
    [main] sends is a GET that carries the token [get_token] returned and
    no client credentials; and when that token is [None] or empty, [main]
    sends no request at all after the token requests. *)
Theorem main_traffic (CLIENT_ID CLIENT_SECRET : string)
        (MARKETS_LIMIT GENRES_LIMIT TRACKS_LIMIT TOP_N_GENRES TOP_N_ARTISTS : Z)
        (net : nat -> request -> outcome) (w : world) (token : json) (w1 : world) :
  get_token CLIENT_ID CLIENT_SECRET net w = (Ret token, w1) ->
  exists k api,
    (k <= 3)%nat
    /\ requests_of (snd (main CLIENT_ID CLIENT_SECRET MARKETS_LIMIT GENRES_LIMIT
                              TRACKS_LIMIT TOP_N_GENRES TOP_N_ARTISTS net w))
       = requests_of w ++ repeat (token_request CLIENT_ID CLIENT_SECRET) k ++ api
    /\ Forall (authenticated token) api
    /\ (truthy token = false -> api = []).
Proof.
  intros Htok.
  destruct (get_token_requests CLIENT_ID CLIENT_SECRET net w) as (k & Hk & Hreq).
  rewrite Htok in Hreq. cbn [snd] in Hreq.
  exists k. unfold main. unfold bind at 1. rewrite Htok.
  destruct (truthy token) eqn:Etruthy; cbn [negb].
  - assert (Hsends : sends (authenticated token)
      (categories <- get_all_categories net token GENRES_LIMIT ;;
       global_scores <- global_scores_loop TRACKS_LIMIT net token categories [] ;;
       markets <- get_markets MARKETS_LIMIT net token ;;
       (if negb (truthy markets) then ret tt
        else
          ms <- lift (iterate markets) ;;
          result <- markets_loop TRACKS_LIMIT TOP_N_ARTISTS net token
                      (select_top_genres TOP_N_GENRES global_scores) ms
                      {| top_genres := select_top_genres TOP_N_GENRES global_scores;
                         country_genre_popularity := [];
                         top_artists := [] |} ;;
          write_snapshot result))).
    { assert (sends (authenticated token) (get_all_categories net token GENRES_LIMIT))
        by (apply sends_get_all_categories; intros o _; now repeat split).
      pose proof (sends_global_scores_loop TRACKS_LIMIT net token).
      pose proof (sends_get_markets MARKETS_LIMIT net token).
      pose proof (sends_markets_loop TRACKS_LIMIT TOP_N_ARTISTS net token).
      assert (forall s, sends (authenticated token) (write_snapshot s))
        by (intros s; apply sends_silent; intros w0; apply requests_of_write).
      repeat sends_step. }
    destruct (Hsends w1) as (api & Hapi & Hall).
    exists api. split; [exact Hk|]. split; [|split; [exact Hall | discriminate]].
    rewrite Hapi, Hreq. now rewrite app_assoc.
  - exists []. split; [exact Hk|]. split; [|split; [constructor | reflexivity]].
    unfold ret. cbn [snd]. now rewrite Hreq, app_nil_r.
Qed.

Lemma main_traffic_witness :
  exists k api,
    (k <= 3)%nat
    /\ requests_of (snd (run_main net_no_token))
       = requests_of [] ++ repeat (token_request "id" "secret") k ++ api
    /\ api = [].
Proof.
  destruct (main_traffic "id" "secret" 10 200 200 10 5 net_no_token [] JNull
              [EvRequest (token_request "id" "secret")] eq_refl)
    as (k & api & Hk & Hreq & _ & Hnone).
  exists k, api. split; [exact Hk|]. split; [exact Hreq | now apply Hnone].
Defined.

End TokenProvider.

(** ** The Aggregator: what the ranking adds up to *)

Module AggregatorSums.
Import Py Refresh Vocab Words Examples.

Lemma sum_scores_app {A} (l1 l2 : list (A * Z)) :
  sum_scores (l1 ++ l2) = sum_scores l1 + sum_scores l2.
Proof.
  unfold sum_scores. induction l1 as [|x l1 IH]; cbn [app map fold_right]; lia.
Qed.

Lemma sum_scores_perm {A} (l1 l2 : list (A * Z)) :
  Permutation l1 l2 -> sum_scores l1 = sum_scores l2.
Proof.
  unfold sum_scores. induction 1; cbn [map fold_right]; lia.
Qed.

(** [d[k] = d.get(k, 0) + p] adds [p] to the sum of the values. *)
Lemma sum_scores_add_score d x :
  sum_scores (Aggregator.add_score d x) = sum_scores d + snd x.
Proof.
  unfold Aggregator.add_score. generalize (JStr (fst x)) as k. intros k.
  unfold sum_scores. induction d as [|[k' v'] d IH]; cbn [dict_get dict_set].
  - cbn. lia.
  - destruct (key_eqb k' k); cbn [map fold_right snd] in *; lia.
Qed.

Lemma sum_scores_fold attrs :
  forall d, sum_scores (fold_left Aggregator.add_score attrs d)
            = sum_scores d + sum_scores attrs.
Proof.
  induction attrs as [|x attrs IH]; intros d; cbn [fold_left].
  - unfold sum_scores at 3. cbn. lia.
  - rewrite IH, sum_scores_add_score. unfold sum_scores at 4.
    cbn [map fold_right]. fold (sum_scores attrs). lia.
Qed.

Lemma length_add_score d x :
  (List.length (Aggregator.add_score d x) <= S (List.length d))%nat.
Proof.
  unfold Aggregator.add_score. generalize (JStr (fst x)) as k. intros k.
  generalize (match dict_get k d with Some s => s | None => 0 end + snd x) as v.
  intros v. induction d as [|[k' v'] d IH]; cbn [dict_set List.length]; [lia|].
  destruct (key_eqb k' k); cbn [List.length]; lia.
Qed.

Lemma length_fold attrs :
  forall d, (List.length (fold_left Aggregator.add_score attrs d)
             <= List.length d + List.length attrs)%nat.
Proof.
  induction attrs as [|x attrs IH]; intros d; cbn [fold_left List.length]; [lia|].
  specialize (IH (Aggregator.add_score d x)).
  pose proof (length_add_score d x). lia.
Qed.

Lemma attributions_with_artist ts :
  sum_scores (attributions ts) = popularity_sum (with_artist ts).
Proof.
  unfold attributions, popularity_sum, with_artist.
  induction ts as [|t ts IH]; [reflexivity|].
  cbn [flat_map filter]. rewrite sum_scores_app, IH. unfold attribution.
  destruct (track_artists t); cbn; unfold sum_scores; cbn; lia.
Qed.

Lemma length_attributions ts : (List.length (attributions ts) <= List.length ts)%nat.
Proof.
  unfold attributions. induction ts as [|t ts IH]; [reflexivity|].
  cbn [flat_map]. rewrite length_app. unfold attribution at 1.
  destruct (track_artists t); cbn [List.length]; lia.
Qed.

Lemma sum_popularity_represents js ts :
  Forall2 represents js ts ->
  forall acc, sum_popularity acc js = Ret (acc + popularity_sum ts).
Proof.
  unfold popularity_sum.
  induction 1 as [|j t js ts (arts & _ & _ & Hp) _ IH]; intros acc.
  - cbn. f_equal. lia.
  - cbn [sum_popularity]. rewrite Hp. cbn [int_add]. rewrite IH.
    cbn [map fold_right]. f_equal. lia.
Qed.

(** X8.  Nothing is lost in the ranking.  When [top_n] is at least the
    number of tracks fetched, the scores [fetch_top_artists_for_genre]
    returns add up to the summed popularity of the tracks that list an
    artist; and the genre score [main] computes from the same tracks is the
    summed popularity of all of them.  So the two agree when every track
    lists an artist. *)
Theorem ranking_conserves_popularity (net : nat -> request -> outcome)
        (token genre market : json) (total_tracks top_n : Z)
        (w w' : world) (js : list json) (ts : list Track) :
  fetch_genre_tracks net token genre market total_tracks w = (Ret js, w') ->
  Forall2 represents js ts ->
  Z.of_nat (List.length js) <= top_n ->
  exists ranked,
    fetch_top_artists_for_genre net token genre market total_tracks top_n w
    = (Ret ranked, w')
    /\ sum_scores ranked = popularity_sum (with_artist ts)
    /\ sum_popularity 0 js = Ret (popularity_sum ts)
    /\ (with_artist ts = ts -> sum_popularity 0 js = Ret (sum_scores ranked)).
Proof.
  intros Hfetch Hrep Hn.
  unfold fetch_top_artists_for_genre, bind. rewrite Hfetch.
  unfold lift, rank_artists.
  rewrite (Aggregator.artist_scores_loop_tracks js ts Hrep).
  set (d := fold_left Aggregator.add_score (attributions ts) []).
  assert (Hlen : (List.length (sorted_desc snd d) <= Z.to_nat top_n)%nat).
  { rewrite (Permutation_length (PyFacts.sorted_desc_perm snd d)).
    pose proof (length_fold (attributions ts) []) as H1.
    pose proof (length_attributions ts) as H2.
    pose proof (Forall2_length Hrep) as H3. fold d in H1. cbn [List.length] in H1. lia. }
  assert (Hsum : sum_scores (slice_to (sorted_desc snd d) top_n)
                 = popularity_sum (with_artist ts)).
  { rewrite PyFacts.slice_to_nonneg by lia. rewrite firstn_all2 by exact Hlen.
    rewrite (sum_scores_perm _ _ (PyFacts.sorted_desc_perm snd d)).
    unfold d. rewrite sum_scores_fold, attributions_with_artist.
    unfold sum_scores at 1. cbn. lia. }
  exists (slice_to (sorted_desc snd d) top_n).
  split; [reflexivity|]. split; [exact Hsum|].
  rewrite (sum_popularity_represents js ts Hrep). cbn [Z.add].
  split; [reflexivity|]. intros Hall. rewrite Hsum, Hall. reflexivity.
Qed.

Lemma ranking_conserves_popularity_witness :
  exists ranked,
    fetch_top_artists_for_genre net_service tok (JStr "pop") JNull 200 5 []
    = (Ret ranked, [EvRequest (search_request tok (JStr "pop") JNull 0)])
    /\ sum_scores ranked = 35
    /\ sum_popularity 0 last_tracks = Ret 35.
Proof.
  destruct (ranking_conserves_popularity net_service tok (JStr "pop") JNull 200 5 []
              [EvRequest (search_request tok (JStr "pop") JNull 0)]
              last_tracks three_tracks eq_refl Aggregator.last_tracks_represent
              ltac:(cbn; lia))
    as (ranked & Hr & Hs & Hp & _).
  exists ranked. split; [exact Hr|]. split; [exact Hs | exact Hp].
Defined.

Lemma artist_scores_loop_app l1 l2 :
  forall d, artist_scores_loop (l1 ++ l2) d
            = match artist_scores_loop l1 d with
              | Ret d' => artist_scores_loop l2 d'
              | Raise e => Raise e
              end.
Proof.
  induction l1 as [|t l1 IH]; intros d; [reflexivity|].
  cbn [app artist_scores_loop].
  destruct (get_or t "artists" (JList [])) as [artists|]; [|reflexivity].
  destruct (negb (truthy artists)); [apply IH|].
  destruct (getitem_0 artists) as [first|]; [|reflexivity].
  destruct (get_or first "name" JNull) as [pn|]; [|reflexivity].
  destruct (get_or t "popularity" (JNum 0)) as [pop|]; [|reflexivity].
  destruct (negb (hashable pn)); [reflexivity|].
  cbv zeta. destruct (int_add _ pop); [apply IH | reflexivity].
Qed.

Lemma sum_popularity_app l1 l2 :
  forall acc, sum_popularity acc (l1 ++ l2)
              = match sum_popularity acc l1 with
                | Ret acc' => sum_popularity acc' l2
                | Raise e => Raise e
                end.
Proof.
  induction l1 as [|t l1 IH]; intros acc; [reflexivity|].
  cbn [app sum_popularity].
  destruct (get_or t "popularity" (JNum 0)) as [v|]; [|reflexivity].
  destruct (int_add acc v); [apply IH | reflexivity].
Qed.

(** X9.  An entry of the fetched tracks that is no JSON object (a null, as
    the search can answer for a track it cannot resolve) is not skipped:
    after any number of well-formed tracks it makes
    [fetch_top_artists_for_genre] raise AttributeError, and the genre score
    of [main] computed over the same tracks raises it too. *)
Theorem non_object_track_raises (net : nat -> request -> outcome)
        (token genre market : json) (total_tracks top_n : Z)
        (w w' : world) (pre post : list json) (t : json) (ts : list Track) :
  fetch_genre_tracks net token genre market total_tracks w
  = (Ret (pre ++ t :: post), w') ->
  Forall2 represents pre ts ->
  (forall kvs, t <> JDict kvs) ->
  fetch_top_artists_for_genre net token genre market total_tracks top_n w
  = (Raise AttributeError, w')
  /\ sum_popularity 0 (pre ++ t :: post) = Raise AttributeError.
Proof.
  intros Hfetch Hrep Ht.
  assert (Hget : forall k dflt, get_or t k dflt = Raise AttributeError).
  { intros k dflt. destruct t as [| | | | |kvs]; try reflexivity. now destruct (Ht kvs). }
  split.
  - unfold fetch_top_artists_for_genre, bind. rewrite Hfetch.
    unfold lift, rank_artists. rewrite artist_scores_loop_app.
    rewrite (Aggregator.artist_scores_loop_tracks pre ts Hrep).
    cbn [artist_scores_loop]. now rewrite Hget.
  - rewrite sum_popularity_app, (sum_popularity_represents pre ts Hrep).
    cbn [sum_popularity]. now rewrite Hget.
Qed.

Lemma non_object_track_raises_witness :
  fetch_top_artists_for_genre Samples.net_null_track tok (JStr "pop") JNull 200 5 []
  = (Raise AttributeError, [EvRequest (search_request tok (JStr "pop") JNull 0)])
  /\ sum_popularity 0 ([track 10 "A"] ++ JNull :: []) = Raise AttributeError.
Proof.
  apply (non_object_track_raises Samples.net_null_track tok (JStr "pop") JNull 200 5 []
           [EvRequest (search_request tok (JStr "pop") JNull 0)]
           [track 10 "A"] [] JNull
           [ {| track_artists := ["A"]; track_popularity := 10 |} ]).
  - reflexivity.
  - constructor; [|constructor]. eexists. split; [reflexivity|].
    split; [|reflexivity]. constructor; [reflexivity | constructor].
  - intros kvs. discriminate.
Defined.

End AggregatorSums.

(** ** The Builder: how the top genres are chosen *)

Module Selection.
Import Py Refresh Vocab Words Examples.

Lemma global_scores_loop_names TRACKS_LIMIT net token categories :
  forall gs0 w gs w',
  global_scores_loop TRACKS_LIMIT net token categories gs0 w = (Ret gs, w') ->
  map fst gs = map fst gs0 ++ map fst categories.
Proof.
  induction categories as [|[name id] rest IH]; intros gs0 w gs w' H.
  - cbn in H. inversion H; subst. now rewrite app_nil_r.
  - cbn [global_scores_loop] in H.
    Builder.bind_inv H tracks w1 Ht. Builder.bind_inv H score w2 Hs.
    Builder.bind_inv H u w3 Hu.
    apply IH in H. rewrite H, map_app, <- app_assoc. reflexivity.
Qed.

Lemma descending_cross {A} (key : A -> Z) n (l : list A) :
  PyFacts.descending key l ->
  forall x y, In x (firstn n l) -> In y (skipn n l) -> key x >= key y.
Proof.
  unfold PyFacts.descending. intros Hs. revert n.
  induction Hs as [|a l Hs IH Ha]; intros n x y Hx Hy.
  - now rewrite firstn_nil in Hx.
  - destruct n as [|n]; [contradiction|].
    cbn [firstn skipn] in Hx, Hy. destruct Hx as [<-|Hx].
    + rewrite Forall_forall in Ha. apply Ha.
      rewrite <- (firstn_skipn n l). apply in_or_app. now right.
    + now apply (IH n).
Qed.

(** X10.  How [main] chooses the top genres.  The global scores hold one
    entry per category, in the order of the categories; for a non-negative
    [TOP_N_GENRES] the scored categories split into the chosen ones and the
    rest, the chosen being as many as asked for (or all of them), none of
    them scoring less than any of the rest, and categories of equal score
    keeping the order of the categories. *)
Theorem top_genres_selection (TRACKS_LIMIT TOP_N_GENRES : Z)
        (net : nat -> request -> outcome) (token : json)
        (categories : list (json * json)) (gs : list (json * Z)) (w w' : world) :
  global_scores_loop TRACKS_LIMIT net token categories [] w = (Ret gs, w') ->
  0 <= TOP_N_GENRES ->
  map fst gs = map fst categories
  /\ exists top rest,
       select_top_genres TOP_N_GENRES gs = map fst top
       /\ Permutation (top ++ rest) gs
       /\ List.length top = Nat.min (Z.to_nat TOP_N_GENRES) (List.length categories)
       /\ (forall x y, In x top -> In y rest -> snd x >= snd y)
       /\ (forall v, filter (fun x => snd x =? v) (top ++ rest)
                     = filter (fun x => snd x =? v) gs).
Proof.
  intros Hloop Hn.
  pose proof (global_scores_loop_names _ _ _ _ _ _ _ _ Hloop) as Hnames.
  cbn [map app] in Hnames. split; [exact Hnames|].
  set (ranked := sorted_desc snd gs).
  exists (firstn (Z.to_nat TOP_N_GENRES) ranked), (skipn (Z.to_nat TOP_N_GENRES) ranked).
  rewrite firstn_skipn. repeat split.
  - unfold select_top_genres. now rewrite PyFacts.slice_to_nonneg.
  - apply PyFacts.sorted_desc_perm.
  - rewrite length_firstn. unfold ranked.
    rewrite (Permutation_length (PyFacts.sorted_desc_perm snd gs)).
    now rewrite <- (length_map fst gs), Hnames, length_map.
  - apply descending_cross. apply (PyFacts.sorted_desc_descending snd).
  - intros v. apply (PyFacts.sorted_desc_stable snd).
Qed.

Lemma top_genres_selection_witness :
  exists gs w',
    global_scores_loop 200 Samples.net_three_genres tok
      [(JStr "pop", JStr "pop"); (JStr "rock", JStr "rock"); (JStr "jazz", JStr "jazz")]
      [] [] = (Ret gs, w')
    /\ select_top_genres 2 gs = [JStr "rock"; JStr "pop"]
    /\ map fst gs = [JStr "pop"; JStr "rock"; JStr "jazz"].
Proof.
  eexists. eexists. split; [vm_compute; reflexivity|].
  split; [vm_compute; reflexivity|].
  refine (proj1 (top_genres_selection 200 2 Samples.net_three_genres tok
                   [(JStr "pop", JStr "pop"); (JStr "rock", JStr "rock");
                    (JStr "jazz", JStr "jazz")] _ [] _ _ _)).
  - vm_compute. reflexivity.
  - lia.
Defined.

End Selection.

(** ** The Joiner: rows, values and failures of the joined views *)

Module JoinerRows.
Import Py Pandas Snapshot Views Examples.

Section MergeMore.
Context {L R : Type} (key_l : L -> cell) (key_r : R -> string).

Lemma find_filter (p : R -> bool) (l : list R) :
  find p l = match filter p l with [] => None | x :: _ => Some x end.
Proof.
  induction l as [|x l IH]; [reflexivity|].
  cbn [find filter]. now destruct (p x).
Qed.

(** With distinct right keys the left join looks each left row up. *)
Lemma merge_left_lookup left (right : list R) :
  NoDup (map key_r right) ->
  merge_left key_l key_r left right
  = map (fun l => (l, find (same_key key_l key_r l) right)) left.
Proof.
  intros Hnd. induction left as [|l left IH]; [reflexivity|].
  unfold merge_left in *. cbn [flat_map]. rewrite map_cons, IH, find_filter.
  destruct (Joiner.filter_same_key key_l key_r l right Hnd) as [->|[r ->]];
    reflexivity.
Qed.

Lemma map_const_repeat {A B} (a : A) (l : list B) :
  map (fun _ => a) l = repeat a (List.length l).
Proof. induction l as [|x l IH]; cbn [map List.length repeat]; congruence. Qed.

(** Whatever the keys, no left row is lost: it comes out once, or once
    per right row that joins it. *)
Lemma merge_left_rows left (right : list R) :
  map fst (merge_left key_l key_r left right)
  = flat_map (fun l => repeat l (Nat.max 1 (List.length
                                   (filter (same_key key_l key_r l) right))))
             left.
Proof.
  induction left as [|l left IH]; [reflexivity|].
  unfold merge_left in *. cbn [flat_map]. rewrite map_app, IH. f_equal.
  destruct (filter (same_key key_l key_r l) right) as [|r ms]; [reflexivity|].
  rewrite map_map. cbn [fst]. rewrite map_const_repeat.
  reflexivity.
Qed.

End MergeMore.

(** Records built one per entry of an aggregate, keyed by the upper-cased
    market code. *)
Section Records.
Context {V R : Type} (key_r : R -> string) (f : string * V -> R).
Hypothesis key_of_record : forall kv, key_r (f kv) = upper (fst kv).

Lemma filter_records b (aggregate : list (string * V)) :
  filter (same_key iso_a2 key_r b) (map f aggregate)
  = map f (entries_of aggregate b).
Proof.
  assert (Hsame : forall kv, same_key iso_a2 key_r b (f kv) = joins b kv).
  { intros kv. unfold joins, same_key. now rewrite key_of_record. }
  unfold entries_of.
  induction aggregate as [|kv aggregate IH]; [reflexivity|].
  cbn [map filter]. rewrite Hsame, IH. now destruct (joins b kv).
Qed.

Lemma merge_left_records world (aggregate : list (string * V)) :
  merge_left iso_a2 key_r world (map f aggregate)
  = map (fun lr => (fst lr, option_map f (snd lr)))
        (merge_left iso_a2 (fun kv : string * V => upper (fst kv)) world aggregate).
Proof.
  unfold merge_left. induction world as [|b world IH]; [reflexivity|].
  cbn [flat_map]. rewrite map_app, IH. f_equal.
  rewrite filter_records. unfold entries_of, joins.
  destruct (filter _ aggregate) as [|kv ms]; [reflexivity|].
  rewrite map_map. cbn [map fst snd option_map]. f_equal.
  now rewrite map_map.
Qed.

Lemma records_lookup world (aggregate : list (string * V)) :
  NoDup (map (fun kv => upper (fst kv)) aggregate) ->
  merge_left iso_a2 key_r world (map f aggregate)
  = map (fun b => (b, option_map f (entry_of aggregate b))) world.
Proof.
  intros Hnd. rewrite merge_left_records.
  rewrite (merge_left_lookup iso_a2 (fun kv : string * V => upper (fst kv)))
    by exact Hnd.
  rewrite map_map. reflexivity.
Qed.

Lemma records_rows world (aggregate : list (string * V)) :
  map fst (merge_left iso_a2 key_r world (map f aggregate))
  = flat_map (fun b => repeat b (Nat.max 1 (List.length (entries_of aggregate b))))
             world.
Proof.
  rewrite merge_left_rows. apply flat_map_ext. intros b.
  now rewrite filter_records, length_map.
Qed.

End Records.

Lemma assoc_None {V} k (l : list (string * V)) :
  assoc k l = None <-> ~ In k (map fst l).
Proof.
  induction l as [|[k' v] l IH]; cbn [assoc map In fst].
  - tauto.
  - destruct (String.eqb k' k) eqn:E.
    + apply String.eqb_eq in E. split; [discriminate|]. intros H. destruct H. now left.
    + apply String.eqb_neq in E. rewrite IH. tauto.
Qed.

Lemma assoc_own {V} (l : list (string * V)) :
  NoDup (map fst l) ->
  forall kv, In kv l -> assoc (fst kv) l = Some (snd kv).
Proof.
  induction l as [|[k' v] l IH]; intros Hnd kv Hin; [contradiction|].
  inversion Hnd as [|x xs Hnotin Hnd']; subst. cbn [assoc].
  destruct Hin as [<-|Hin]; cbn [fst snd].
  - now rewrite String.eqb_refl.
  - destruct (String.eqb k' (fst kv)) eqn:E; [|now apply IH].
    apply String.eqb_eq in E. exfalso. apply Hnotin. rewrite E.
    now apply in_map.
Qed.

(** *** The per-genre loop of [app.py] *)

(** The tooltip text [app.py] gives to a market's artists. *)
#[local] Abbreviation app_tip genre arts :=
  (or_default
     (String.concat ", "
        (map (fun a : string * Z => (fst a ++ " (" ++ str_of_int (snd a) ++ ")")%string)
             (slice_to (get_default genre arts []) 5)))
     "None").

Lemma genre_loop_ok country_pop genre (country_art : artists) :
  (forall m, In m (map fst country_art) -> assoc m country_pop <> None) ->
  App.genre_loop country_pop genre country_art
  = Ret (map (fun kv => (upper (fst kv),
                         get_default genre (get_default (fst kv) country_pop []) 0))
             country_art,
         map (fun kv => (upper (fst kv), app_tip genre (snd kv))) country_art).
Proof.
  induction country_art as [|[iso2 arts] rest IH]; intros Hall; [reflexivity|].
  cbn [App.genre_loop].
  destruct (assoc iso2 country_pop) as [vals|] eqn:E.
  - rewrite IH by (intros m Hm; apply Hall; now right).
    cbn [map fst snd].
    replace (get_default iso2 country_pop []) with vals
      by (unfold get_default; now rewrite E).
    reflexivity.
  - exfalso. apply (Hall iso2); [now left | exact E].
Qed.

Lemma genre_loop_missing country_pop genre (country_art : artists) m :
  In m (map fst country_art) -> assoc m country_pop = None ->
  App.genre_loop country_pop genre country_art = Raise KeyError.
Proof.
  intros Hin Hm. induction country_art as [|[iso2 arts] rest IH]; [contradiction|].
  cbn [App.genre_loop]. destruct (assoc iso2 country_pop) as [vals|] eqn:E;
    [|reflexivity].
  destruct Hin as [Heq|Hin]; [cbn in Heq; congruence|].
  now rewrite (IH Hin).
Qed.

Lemma tooltip_missing (country_art : artists) genre b :
  match iso_a2 b with
  | Some k => App.tooltip_of
                (map (fun kv => (upper (fst kv), app_tip genre (snd kv))) country_art) k
  | None => None
  end = None
  <-> Joiner.no_entry country_art b.
Proof.
  unfold Joiner.no_entry. destruct (iso_a2 b) as [k|].
  - unfold App.tooltip_of.
    match goal with |- ?lhs = None <-> _ =>
      match lhs with assoc ?k' ?l' => pose proof (assoc_None k' l') as Hk end
    end.
    rewrite <- map_rev, map_map in Hk. cbn [fst] in Hk. rewrite <- map_rev.
    split.
    + intros Hn kv Hkv Heq. apply (proj1 Hk Hn). inversion Heq; subst.
      apply in_map_iff. exists kv. split; [reflexivity|]. now apply in_rev in Hkv.
    + intros Hn. apply (proj2 Hk). intros Hin.
      apply in_map_iff in Hin. destruct Hin as (kv & <- & Hkv).
      apply (Hn kv); [now apply in_rev | reflexivity].
  - split; [intros _ kv _; discriminate | reflexivity].
Qed.



(** X12.  No boundary record is lost in a join, whatever the market
    codes: over a non-empty snapshot each filled view holds every record,
    in order, once when no market code matches and else once per market
    whose upper-cased code is the record's ISO-2 code.  Two codes that
    differ only in case so show their country twice. *)
Theorem views_keep_every_boundary (world : list boundary) (popularity : popularity)
        (artists : artists) (genre : string) :
  popularity <> [] ->
  let kept := flat_map (fun b => repeat b (Nat.max 1 (List.length
                                                     (entries_of popularity b))))
                       world in
  (exists rows, RenderMaps.merged_total world popularity = Ret rows
                /\ map joined_boundary rows = kept)
  /\ (exists rows, RenderMaps.merged_g world popularity artists genre = Ret rows
                   /\ map joined_boundary rows = kept)
  /\ (exists rows, App.merged_tot world popularity = Ret rows
                   /\ map joined_boundary rows = kept).
Proof.
  intros Hne kept. split; [|split].
  - unfold RenderMaps.merged_total, RenderMaps.merge_fill.
    destruct (RenderMaps.total_records popularity) as [|r rs] eqn:E.
    { destruct popularity; [congruence | discriminate]. }
    rewrite <- E. eexists. split; [reflexivity|].
    rewrite map_map. cbn [joined_boundary]. unfold RenderMaps.total_records.
    match goal with |- context [merge_left _ _ _ (map ?f _)] =>
      apply (records_rows RenderMaps.rec_iso_a2 f (fun kv => eq_refl))
    end.
  - unfold RenderMaps.merged_g, RenderMaps.merge_fill.
    destruct (RenderMaps.genre_records popularity artists genre) as [|r rs] eqn:E.
    { destruct popularity; [congruence | discriminate]. }
    rewrite <- E. eexists. split; [reflexivity|].
    rewrite map_map. cbn [joined_boundary]. unfold RenderMaps.genre_records.
    match goal with |- context [merge_left _ _ _ (map ?f _)] =>
      apply (records_rows RenderMaps.rec_iso_a2 f (fun kv => eq_refl))
    end.
  - unfold App.merged_tot.
    destruct (App.tot_records popularity) as [|r rs] eqn:E.
    { destruct popularity; [congruence | discriminate]. }
    rewrite <- E. eexists. split; [reflexivity|].
    rewrite map_map. cbn [joined_boundary]. unfold App.tot_records.
    match goal with |- context [merge_left _ _ _ (map ?f _)] =>
      apply (records_rows App.tot_iso_a2 f (fun kv => eq_refl))
    end.
Qed.

Lemma views_keep_every_boundary_witness :
  exists rows,
    RenderMaps.merged_total [country "GB" "United Kingdom"; country "FR" "France"]
                            popularity_gb_twice = Ret rows
    /\ map joined_boundary rows
       = [country "GB" "United Kingdom"; country "GB" "United Kingdom";
          country "FR" "France"].
Proof.
  refine (proj1 (views_keep_every_boundary
                   [country "GB" "United Kingdom"; country "FR" "France"]
                   popularity_gb_twice [] "G1" _)).
  discriminate.
Defined.

(** X13.  The per-genre view of [app.py] walks the markets of
    [top_artists] and reads [country_genre_popularity] at each: it fails
    with KeyError when a market of [top_artists] is missing there, or when
    [top_artists] is empty.  Otherwise it keeps every boundary record, and
    a row has no tooltip at all exactly when no market of [top_artists]
    matches its record, the value then being 0. *)
Theorem app_genre_view (world : list boundary) (country_pop : popularity)
        (country_art : artists) (genre : string) :
  ((exists m, In m (map fst country_art) /\ assoc m country_pop = None) ->
   App.merged_g world country_pop country_art genre = Raise KeyError)
  /\ (country_art = [] ->
      App.merged_g world country_pop country_art genre = Raise KeyError)
  /\ (country_art <> [] ->
      (forall m, In m (map fst country_art) -> assoc m country_pop <> None) ->
      exists rows,
        App.merged_g world country_pop country_art genre = Ret rows
        /\ map joined_boundary rows
           = flat_map (fun b => repeat b (Nat.max 1 (List.length
                                                      (entries_of country_art b))))
                      world
        /\ forall row, In row rows ->
             (joined_tooltip row = None
              <-> Joiner.no_entry country_art (joined_boundary row))
             /\ (Joiner.no_entry country_art (joined_boundary row) ->
                 joined_value row = 0)).
Proof.
  split; [|split].
  - intros (m & Hin & Hm). unfold App.merged_g.
    now rewrite (genre_loop_missing country_pop genre country_art m Hin Hm).
  - intros ->. reflexivity.
  - intros Hne Hall. unfold App.merged_g.
    rewrite (genre_loop_ok country_pop genre country_art Hall).
    set (f := fun kv : string * list (string * list (string * Z)) =>
                (upper (fst kv),
                 get_default genre (get_default (fst kv) country_pop []) 0)).
    destruct (map f country_art) as [|r rs] eqn:E.
    { destruct country_art; [congruence | discriminate]. }
    rewrite <- E. eexists. split; [reflexivity|]. split.
    + rewrite map_map. cbn [joined_boundary].
      apply (records_rows fst f (fun kv => eq_refl)).
    + intros row Hin. apply in_map_iff in Hin. destruct Hin as ([b o] & <- & Hin).
      cbn [joined_tooltip joined_boundary joined_value fst snd]. split.
      * apply tooltip_missing.
      * intros Hno.
        rewrite (Joiner.merge_left_unmatched iso_a2 fst world (map f country_art)
                   b o Hin); [reflexivity|].
        apply (Joiner.no_entry_same_key fst f country_art b (fun kv => eq_refl) Hno).
Qed.

Lemma app_genre_view_witness :
  App.merged_g three_countries sample_popularity artists_with_fr "G1" = Raise KeyError
  /\ exists rows,
       App.merged_g three_countries sample_popularity sample_artists "G1" = Ret rows
       /\ map joined_boundary rows = three_countries.
Proof.
  pose proof (app_genre_view three_countries sample_popularity artists_with_fr "G1")
    as (H1 & _ & _).
  pose proof (app_genre_view three_countries sample_popularity sample_artists "G1")
    as (_ & _ & H3).
  split.
  - apply H1. exists "FR". split; [cbn; tauto | reflexivity].
  - destruct H3 as (rows & Hr & Hb & _).
    + discriminate.
    + intros m Hm. cbn in Hm. destruct Hm as [<-|[<-|[]]]; discriminate.
    + exists rows. split; [exact Hr | exact Hb].
Defined.

Lemma recs_agree (country_pop : popularity) genre :
  forall (country_art : artists) (pop' : popularity),
  map fst country_art = map fst pop' ->
  (forall kv, In kv pop' -> assoc (fst kv) country_pop = Some (snd kv)) ->
  map (fun kv : string * list (string * list (string * Z)) =>
         (upper (fst kv), get_default genre (get_default (fst kv) country_pop []) 0))
      country_art
  = map (fun kv : string * list (string * Z) =>
           (upper (fst kv), get_default genre (snd kv) 0)) pop'.
Proof.
  induction country_art as [|a art IH]; intros [|kv pop'] Hk Hown;
    try discriminate; [reflexivity|].
  cbn [map] in *. injection Hk as Ha Hk. f_equal.
  - rewrite Ha. unfold get_default at 2. rewrite (Hown kv) by now left. reflexivity.
  - apply IH; [exact Hk|]. intros kv' Hin. apply Hown. now right.
Qed.

(** X14.  The two scripts colour the maps alike.  For every snapshot the
    total view of [app.py] shows the same boundary records with the same
    values as the total view of [prepare_and_render_maps.py], or both fail
    alike; and so do the per-genre views when [top_artists] lists the
    markets of [country_genre_popularity], in the same order, as [main]
    writes them. *)
Theorem scripts_show_the_same (world : list boundary) (country_pop : popularity)
        (country_art : artists) (genre : string) :
  shown (App.merged_tot world country_pop)
  = shown (RenderMaps.merged_total world country_pop)
  /\ (map fst country_art = map fst country_pop ->
      NoDup (map fst country_pop) ->
      shown (App.merged_g world country_pop country_art genre)
      = shown (RenderMaps.merged_g world country_pop country_art genre)).
Proof.
  split.
  - unfold App.merged_tot, RenderMaps.merged_total, RenderMaps.merge_fill.
    destruct country_pop as [|kv0 pop0]; [reflexivity|].
    destruct (App.tot_records (kv0 :: pop0)) as [|r rs] eqn:E; [discriminate|].
    destruct (RenderMaps.total_records (kv0 :: pop0)) as [|r' rs'] eqn:E';
      [discriminate|].
    rewrite <- E, <- E'. unfold App.tot_records, RenderMaps.total_records, shown.
    f_equal. rewrite !map_map. cbn [joined_boundary joined_value].
    match goal with |- context [merge_left _ App.tot_iso_a2 _ (map ?f _)] =>
      rewrite (merge_left_records App.tot_iso_a2 f (fun kv => eq_refl))
    end.
    match goal with |- context [merge_left _ RenderMaps.rec_iso_a2 _ (map ?f _)] =>
      rewrite (merge_left_records RenderMaps.rec_iso_a2 f (fun kv => eq_refl))
    end.
    rewrite !map_map. apply map_ext. intros [b [kv|]]; reflexivity.
  - intros Hk Hnd.
    unfold App.merged_g, RenderMaps.merged_g, RenderMaps.merge_fill.
    rewrite genre_loop_ok.
    2:{ intros m Hm. rewrite Hk in Hm. intros Hn. now apply assoc_None in Hn. }
    rewrite (recs_agree country_pop genre country_art country_pop Hk
               (assoc_own country_pop Hnd)).
    destruct country_pop as [|kv0 pop0]; [reflexivity|].
    set (fA := fun kv : string * list (string * Z) =>
                 (upper (fst kv), get_default genre (snd kv) 0)).
    destruct (map fA (kv0 :: pop0)) as [|r rs] eqn:E; [discriminate|].
    destruct (RenderMaps.genre_records (kv0 :: pop0) country_art genre)
      as [|r' rs'] eqn:E'; [discriminate|].
    rewrite <- E, <- E'. unfold RenderMaps.genre_records, shown.
    f_equal. rewrite !map_map. cbn [joined_boundary joined_value].
    rewrite (merge_left_records fst fA (fun kv => eq_refl)).
    match goal with |- context [merge_left _ RenderMaps.rec_iso_a2 _ (map ?f _)] =>
      rewrite (merge_left_records RenderMaps.rec_iso_a2 f (fun kv => eq_refl))
    end.
    rewrite !map_map. apply map_ext. intros [b [kv|]]; reflexivity.
Qed.

Lemma scripts_show_the_same_witness :
  shown (App.merged_g three_countries sample_popularity sample_artists "G1")
  = shown (RenderMaps.merged_g three_countries sample_popularity sample_artists "G1").
Proof.
  refine (proj2 (scripts_show_the_same three_countries sample_popularity
                   sample_artists "G1") _ _).
  - reflexivity.
  - repeat constructor; cbn; intuition discriminate.
Defined.

End JoinerRows.

(** ** The Boundary Normalizer: when the two scripts agree, and label clashes *)

Module NormalizerMore.
Import Py Pandas Examples.

Lemma upper_char_idem c : upper_char (upper_char c) = upper_char c.
Proof. destruct c as [[] [] [] [] [] [] [] []]; reflexivity. Qed.

Lemma upper_idem s : upper (upper s) = upper s.
Proof.
  unfold upper. induction s as [|c s IH]; cbn [map_string]; [reflexivity|].
  now rewrite upper_char_idem, IH.
Qed.

Lemma upper_cells_idem (cells : list cell) :
  map (option_map upper) (map (option_map upper) cells)
  = map (option_map upper) cells.
Proof.
  rewrite map_map. apply map_ext. intros [x|]; cbn [option_map]; [|reflexivity].
  now rewrite upper_idem.
Qed.

Lemma not_iso2_like_not_alias x :
  App.is_iso2_like x = false -> RenderMaps.is_alias x = false.
Proof.
  intros H. destruct (RenderMaps.is_alias x) eqn:E; [|reflexivity].
  apply Normalizer.alias_is_iso2_like in E. congruence.
Qed.

(** A frame with one code-like column, under an alias label. *)
Lemma normalize_single pre c cells post :
  RenderMaps.is_alias c = true ->
  (forall x, In x (labels (pre ++ post)) -> App.is_iso2_like x = false) ->
  RenderMaps.normalize (pre ++ (c, cells) :: post)
  = Ret (pre ++ ("iso_a2", map (option_map upper) cells) :: post)
  /\ App.normalize (pre ++ (c, cells) :: post)
     = Ret (pre ++ ("iso_a2", map (option_map upper) cells) :: post).
Proof.
  intros Hc Hothers.
  assert (Hlike : App.is_iso2_like c = true) by now apply Normalizer.alias_is_iso2_like.
  assert (Hne : forall x, In x (labels (pre ++ post)) -> x <> c /\ x <> "iso_a2").
  { intros x Hx. specialize (Hothers x Hx). split; intros ->; [congruence|].
    discriminate Hothers. }
  assert (Hpre : forall x, In x (labels pre) -> App.is_iso2_like x = false).
  { intros x Hx. apply Hothers. unfold labels in *. rewrite map_app.
    apply in_or_app. now left. }
  assert (Hpost : forall x, In x (labels post) -> App.is_iso2_like x = false).
  { intros x Hx. apply Hothers. unfold labels in *. rewrite map_app.
    apply in_or_app. now right. }
  split.
  - unfold RenderMaps.normalize. rewrite Normalizer.labels_split.
    rewrite (Normalizer.rename_iso2_first _ _ _ _
               (fun x Hx => not_iso2_like_not_alias x (Hpre x Hx)) Hc).
    rewrite Normalizer.rename_unique by (intros x Hx; apply (Hne x Hx)).
    apply Normalizer.upper_column_unique. intros x Hx. apply (Hne x Hx).
  - unfold App.normalize, App.iso2_col. rewrite Normalizer.labels_split.
    rewrite (Normalizer.iso2_col_last _ _ _ Hlike Hpost).
    rewrite Normalizer.rename_unique by (intros x Hx; apply (Hne x Hx)).
    apply Normalizer.upper_column_unique. intros x Hx. apply (Hne x Hx).
Qed.

(** X15.  On a frame whose only code-like column bears one of the four
    alias labels, the two scripts normalize alike: both rename that column
    to [iso_a2] and upper-case its values.  Normalizing the result again, in
    either script, changes nothing. *)
Theorem normalizers_agree (pre : frame) (c : string) (cells : list cell)
        (post : frame) :
  RenderMaps.is_alias c = true ->
  (forall x, In x (labels (pre ++ post)) -> App.is_iso2_like x = false) ->
  let normalized := pre ++ ("iso_a2", map (option_map upper) cells) :: post in
  RenderMaps.normalize (pre ++ (c, cells) :: post) = Ret normalized
  /\ App.normalize (pre ++ (c, cells) :: post) = Ret normalized
  /\ RenderMaps.normalize normalized = Ret normalized
  /\ App.normalize normalized = Ret normalized.
Proof.
  intros Hc Hothers normalized.
  destruct (normalize_single pre c cells post Hc Hothers) as [H1 H2].
  destruct (normalize_single pre "iso_a2" (map (option_map upper) cells) post
              eq_refl Hothers) as [H3 H4].
  rewrite upper_cells_idem in H3, H4. now repeat split.
Qed.

Lemma normalizers_agree_witness :
  RenderMaps.normalize frame_datahub
  = Ret [("name", [Some "France"; Some "Kosovo"]); ("iso_a2", [Some "FR"; None])]
  /\ App.normalize frame_datahub
     = Ret [("name", [Some "France"; Some "Kosovo"]); ("iso_a2", [Some "FR"; None])].
Proof.
  destruct (normalizers_agree [("name", [Some "France"; Some "Kosovo"])]
              "ISO3166-1-Alpha-2" [Some "fr"; None] [] eq_refl) as (H1 & H2 & _).
  - intros x Hx. cbn in Hx. destruct Hx as [<-|[]]. reflexivity.
  - split; [exact H1 | exact H2].
Defined.

(** *** Two columns under the label [iso_a2] *)

Lemma upper_column_two label (fr : frame) :
  (2 <= List.length (filter (fun col => String.eqb (fst col) label) fr))%nat ->
  upper_column label fr = Raise AttributeError.
Proof.
  unfold upper_column.
  destruct (filter _ fr) as [|a [|b l]]; cbn [List.length]; intros H;
    [lia | lia | reflexivity].
Qed.

Lemma renamed_label_counts old new (fr : frame) x :
  In x (labels fr) -> x = old \/ x = new ->
  (1 <= List.length (filter (fun col => String.eqb (fst col) new)
                            (rename old new fr)))%nat.
Proof.
  unfold labels, rename. induction fr as [|col fr IH]; intros Hin Hx; [contradiction|].
  cbn [map filter fst]. destruct Hin as [Heq|Hin].
  - subst x. destruct (String.eqb (fst col) old) eqn:E.
    + rewrite String.eqb_refl. cbn [List.length]. lia.
    + destruct Hx as [Hx|Hx].
      * rewrite Hx, String.eqb_refl in E. discriminate.
      * rewrite Hx, String.eqb_refl. cbn [List.length]. lia.
  - specialize (IH Hin Hx).
    destruct (String.eqb (if String.eqb (fst col) old then new else fst col) new);
      cbn [List.length]; lia.
Qed.

Lemma clash_count old (pre : frame) cells post :
  (exists x, In x (labels (pre ++ post)) /\ (x = old \/ x = "iso_a2")) ->
  (2 <= List.length
          (filter (fun col => String.eqb (fst col) "iso_a2")
                  (rename old "iso_a2" (pre ++ (old, cells) :: post))))%nat.
Proof.
  intros (x & Hin & Hx). unfold labels in Hin. rewrite map_app in Hin.
  unfold rename at 1. rewrite map_app. cbn [map fst]. rewrite String.eqb_refl.
  rewrite filter_app. cbn [filter fst]. cbn [String.eqb Ascii.eqb Bool.eqb].
  rewrite length_app. cbn [List.length].
  fold (rename old "iso_a2" pre). fold (rename old "iso_a2" post).
  apply in_app_or in Hin. destruct Hin as [Hin|Hin].
  - pose proof (renamed_label_counts old "iso_a2" pre x Hin Hx). lia.
  - pose proof (renamed_label_counts old "iso_a2" post x Hin Hx). lia.
Qed.

(** X16.  Neither script guards against a second column that ends under
    the label [iso_a2]: when another column already bears the label of the
    chosen one, or the label [iso_a2] itself, the upper-casing step fails
    with AttributeError.  A frame with the columns [iso_a2] and [ISO2] is
    normalized by [prepare_and_render_maps.py], which takes the first, and
    rejected by [app.py], which renames the last. *)
Theorem normalizer_label_clash (pre : frame) (c : string) (cells : list cell)
        (post : frame) :
  (exists x, In x (labels (pre ++ post)) /\ (x = c \/ x = "iso_a2")) ->
  ((forall x, In x (labels pre) -> RenderMaps.is_alias x = false) ->
   RenderMaps.is_alias c = true ->
   RenderMaps.normalize (pre ++ (c, cells) :: post) = Raise AttributeError)
  /\ (App.is_iso2_like c = true ->
      (forall x, In x (labels post) -> App.is_iso2_like x = false) ->
      App.normalize (pre ++ (c, cells) :: post) = Raise AttributeError).
Proof.
  intros Hclash. split.
  - intros Hpre Hc. unfold RenderMaps.normalize. rewrite Normalizer.labels_split.
    rewrite (Normalizer.rename_iso2_first _ _ _ _ Hpre Hc).
    apply upper_column_two. now apply clash_count.
  - intros Hc Hpost. unfold App.normalize, App.iso2_col.
    rewrite Normalizer.labels_split.
    rewrite (Normalizer.iso2_col_last _ _ _ Hc Hpost).
    apply upper_column_two. now apply clash_count.
Qed.

Lemma normalizer_label_clash_witness :
  App.normalize Samples.frame_two_codes = Raise AttributeError
  /\ RenderMaps.normalize Samples.frame_two_codes
     = Ret [("name", [Some "France"]); ("iso_a2", [Some "FR"]); ("ISO2", [Some "fx"])].
Proof.
  split; [|reflexivity].
  refine (proj2 (normalizer_label_clash
                   [("name", [Some "France"]); ("iso_a2", [Some "fr"])]
                   "ISO2" [Some "fx"] [] _) _ _).
  - exists "iso_a2". split; [cbn; tauto | now right].
  - reflexivity.
  - intros x [].
Defined.

End NormalizerMore.

(** ** The tables of [app.py] *)

Module TablesFacts.
Import Py Snapshot Vocab Words Tables Examples.

Lemma get_str_set {V} a k (v dflt : V) d :
  get_default a (str_set k v d) dflt
  = if String.eqb k a then v else get_default a d dflt.
Proof.
  unfold get_default. induction d as [|[k' v'] d IH]; cbn [str_set assoc].
  - now destruct (String.eqb k a).
  - destruct (String.eqb k' k) eqn:E; cbn [assoc].
    + apply String.eqb_eq in E. subst k'. now destruct (String.eqb k a).
    + destruct (String.eqb k' a) eqn:E'; [|exact IH].
      apply String.eqb_eq in E'. subst k'.
      rewrite String.eqb_sym, E. reflexivity.
Qed.

Lemma keys_str_set {V} k (v : V) d :
  (In k (map fst d) /\ map fst (str_set k v d) = map fst d)
  \/ (~ In k (map fst d) /\ str_set k v d = d ++ [(k, v)]).
Proof.
  induction d as [|[k' v'] d IH]; cbn [str_set map fst In app].
  - right. split; [tauto | reflexivity].
  - destruct (String.eqb k' k) eqn:E.
    + apply String.eqb_eq in E. left. split; [now left | reflexivity].
    + apply String.eqb_neq in E. destruct IH as [[Hin Hk]|[Hn Hk]].
      * left. split; [now right|]. cbn [map fst]. now rewrite Hk.
      * right. split; [tauto|]. now rewrite Hk.
Qed.

Lemma sum_str_set k v (d : list (string * Z)) :
  sum_scores (str_set k v d) = sum_scores d - get_default k d 0 + v.
Proof.
  unfold sum_scores, get_default.
  induction d as [|[k' v'] d IH]; cbn [str_set assoc map snd fold_right]; [lia|].
  destruct (String.eqb k' k); cbn [map snd fold_right]; lia.
Qed.

Lemma fold_left_add (l : list Z) :
  forall a, fold_left Z.add l a = a + fold_right Z.add 0 l.
Proof.
  induction l as [|x l IH]; intros a; cbn [fold_left fold_right]; [lia|].
  rewrite IH. lia.
Qed.

(** *** [agg] *)

Lemma agg_entries (country_art : artists) genre :
  agg country_art genre = fold_left add_artist (genre_entries country_art genre) [].
Proof.
  unfold agg, genre_entries.
  assert (H : forall d,
            fold_left (fun agg kv =>
                         fold_left add_artist (get_default genre (snd kv) []) agg)
                      country_art d
            = fold_left add_artist
                (flat_map (fun kv => get_default genre (snd kv) []) country_art) d).
  { induction country_art as [|kv rest IH]; intros d; [reflexivity|].
    cbn [fold_left flat_map]. now rewrite fold_left_app, IH. }
  apply H.
Qed.

Lemma add_artist_fold l :
  forall d,
    (NoDup (map fst d) -> NoDup (map fst (fold_left add_artist l d)))
    /\ (forall a, In a (map fst (fold_left add_artist l d))
                  <-> In a (map fst d) \/ In a (map fst l))
    /\ (forall a, get_default a (fold_left add_artist l d) 0
                  = get_default a d 0 + total_of a l)
    /\ sum_scores (fold_left add_artist l d) = sum_scores d + sum_scores l.
Proof.
  induction l as [|[k p] l IH]; intros d; cbn [fold_left].
  - repeat split; try tauto.
    + intros [H|[]]. exact H.
    + unfold total_of. cbn. lia.
    + unfold sum_scores at 3. cbn. lia.
  - destruct (IH (add_artist d (k, p))) as (Hnd & Hin & Hget & Hsum).
    unfold add_artist in *. cbn [fst snd] in *.
    destruct (keys_str_set k (get_default k d 0 + p) d) as [[Hk Hkeys]|[Hk Hset]].
    + repeat split.
      * intros H. apply Hnd. now rewrite Hkeys.
      * rewrite Hin, Hkeys. cbn [map fst In]. intros [H|H]; [tauto|]. tauto.
      * rewrite Hin, Hkeys. cbn [map fst In]. intros [H|[<-|H]]; tauto.
      * intros a. rewrite Hget, get_str_set. unfold total_of.
        cbn [filter fst]. rewrite (String.eqb_sym k a).
        destruct (String.eqb a k) eqn:E; cbn [map snd fold_right]; [|lia].
        apply String.eqb_eq in E. subst a. lia.
      * rewrite Hsum, sum_str_set. unfold sum_scores at 4. cbn [map snd fold_right].
        fold (sum_scores l). lia.
    + assert (Hkeys : map fst (str_set k (get_default k d 0 + p) d) = map fst d ++ [k]).
      { rewrite Hset, map_app. reflexivity. }
      repeat split.
      * intros H. apply Hnd. rewrite Hkeys.
        apply NoDup_app; [exact H | repeat constructor; intros [] |].
        intros x Hx [<-|[]]. now apply Hk.
      * rewrite Hin, Hkeys, in_app_iff. cbn [map fst In]. tauto.
      * rewrite Hin, Hkeys, in_app_iff. cbn [map fst In]. tauto.
      * intros a. rewrite Hget, get_str_set. unfold total_of.
        cbn [filter fst]. rewrite (String.eqb_sym k a).
        destruct (String.eqb a k) eqn:E; cbn [map snd fold_right]; [|lia].
        apply String.eqb_eq in E. subst a. lia.
      * rewrite Hsum, sum_str_set. unfold sum_scores at 4. cbn [map snd fold_right].
        fold (sum_scores l). lia.
Qed.

(** X17.  The table of overall top artists is built on per-artist totals:
    before sorting, [agg] holds every artist listed for the selected genre
    in any market exactly once, with the sum of the scores listed for that
    artist over all markets; nothing else is in it, and the totals add up
    to the sum of all listed scores. *)
Theorem agg_totals (country_art : artists) (selected_genre : string) :
  let entries := genre_entries country_art selected_genre in
  let table := agg country_art selected_genre in
  NoDup (map fst table)
  /\ (forall a, In a (map fst table) <-> In a (map fst entries))
  /\ (forall a, get_default a table 0 = total_of a entries)
  /\ sum_scores table = sum_scores entries.
Proof.
  intros entries table. unfold table. rewrite agg_entries. fold entries.
  destruct (add_artist_fold entries []) as (Hnd & Hin & Hget & Hsum).
  repeat split.
  - apply Hnd. constructor.
  - intros H. apply Hin in H. destruct H as [[]|H]. exact H.
  - intros H. apply Hin. now right.
  - intros a. rewrite Hget. reflexivity.
  - rewrite Hsum. unfold sum_scores at 1. cbn. lia.
Qed.

(** *** [genre_totals] *)

Lemma genre_totals_fold (F : string -> Z) (l : list string) :
  forall d, NoDup l -> (forall g, In g l -> ~ In g (map fst d)) ->
  fold_left (fun d g => str_set g (F g) d) l d = d ++ map (fun g => (g, F g)) l.
Proof.
  induction l as [|g l IH]; intros d Hnd Hfresh; cbn [fold_left map].
  - now rewrite app_nil_r.
  - inversion Hnd as [|x xs Hnotin Hnd']; subst.
    destruct (keys_str_set g (F g) d) as [[Hin _]|[_ ->]].
    { exfalso. apply (Hfresh g); [now left | exact Hin]. }
    rewrite IH; [now rewrite <- app_assoc | exact Hnd' |].
    intros g' Hg'. rewrite map_app, in_app_iff. cbn [map fst In].
    intros [H|[<-|[]]]; [|contradiction].
    apply (Hfresh g'); [now right | exact H].
Qed.

Lemma genre_total_sum (country_pop : popularity) genre :
  NoDup (map fst country_pop) ->
  genre_total country_pop genre
  = fold_right Z.add 0 (map (fun kv => get_default genre (snd kv) 0) country_pop).
Proof.
  intros Hnd. unfold genre_total. rewrite fold_left_add. cbn [Z.add]. f_equal.
  apply map_ext_in. intros kv Hin. unfold get_default at 2.
  now rewrite (JoinerRows.assoc_own country_pop Hnd kv Hin).
Qed.

Lemma sum_swap {A B} (F : A -> B -> Z) (la : list A) (lb : list B) :
  fold_right Z.add 0 (map (fun a => fold_right Z.add 0 (map (F a) lb)) la)
  = fold_right Z.add 0 (map (fun b => fold_right Z.add 0 (map (fun a => F a b) la)) lb).
Proof.
  induction la as [|a la IH]; cbn [map fold_right].
  - induction lb as [|b lb IHb]; cbn [map fold_right]; lia.
  - rewrite IH. clear IH.
    induction lb as [|b lb IHb]; cbn [map fold_right]; lia.
Qed.

Lemma sum_perm (h : string -> Z) l1 l2 :
  Permutation l1 l2 ->
  fold_right Z.add 0 (map h l1) = fold_right Z.add 0 (map h l2).
Proof. induction 1; cbn [map fold_right]; lia. Qed.

Lemma country_total (vals : list (string * Z)) top_genres :
  NoDup (map fst vals) -> Permutation (map fst vals) top_genres ->
  fold_right Z.add 0 (map (fun g => get_default g vals 0) top_genres) = total vals.
Proof.
  intros Hnd Hperm. rewrite <- (sum_perm _ _ _ Hperm), map_map.
  unfold total. rewrite fold_left_add. cbn [Z.add]. f_equal.
  apply map_ext_in. intros kv Hin. unfold get_default.
  now rewrite (JoinerRows.assoc_own vals Hnd kv Hin).
Qed.

(** X18.  The table of genre rankings, before sorting.  With distinct top
    genres and distinct markets, [genre_totals] lists the top genres in
    order, each with the sum over the markets of that genre's score (0
    where a market lacks it).  When moreover every market scores exactly
    the top genres, as in a snapshot [main] writes, the table's totals add
    up to the sum of the values of the total map. *)
Theorem genre_totals_conserve (top_genres : list string) (country_pop : popularity) :
  NoDup top_genres ->
  NoDup (map fst country_pop) ->
  genre_totals top_genres country_pop
  = map (fun g => (g, fold_right Z.add 0
                        (map (fun kv => get_default g (snd kv) 0) country_pop)))
        top_genres
  /\ ((forall kv, In kv country_pop ->
                  NoDup (map fst (snd kv))
                  /\ Permutation (map fst (snd kv)) top_genres) ->
      sum_scores (genre_totals top_genres country_pop)
      = fold_right Z.add 0 (map (fun kv => total (snd kv)) country_pop)).
Proof.
  intros Hg Hm.
  assert (Htable : genre_totals top_genres country_pop
                   = map (fun g => (g, fold_right Z.add 0
                                         (map (fun kv => get_default g (snd kv) 0)
                                              country_pop)))
                         top_genres).
  { unfold genre_totals.
    rewrite (genre_totals_fold (genre_total country_pop) top_genres [] Hg)
      by (intros g _ []).
    cbn [app]. apply map_ext. intros g. now rewrite genre_total_sum. }
  split; [exact Htable|]. intros Hshape. rewrite Htable.
  unfold sum_scores. rewrite map_map. cbn [snd].
  rewrite (sum_swap (fun g (kv : string * list (string * Z)) =>
                       get_default g (snd kv) 0)).
  f_equal. apply map_ext_in. intros kv Hin.
  destruct (Hshape kv Hin) as [Hnd Hperm]. now apply country_total.
Qed.

Lemma genre_totals_conserve_witness :
  genre_totals ["G1"; "G2"] sample_popularity = [("G1", 15); ("G2", 20)]
  /\ sum_scores (genre_totals ["G1"; "G2"] sample_popularity) = 30 + 5.
Proof.
  destruct (genre_totals_conserve ["G1"; "G2"] sample_popularity) as [H1 H2].
  - repeat constructor; cbn; intuition discriminate.
  - repeat constructor; cbn; intuition discriminate.
  - split; [exact H1|]. apply H2. intros kv Hin.
    cbn in Hin. destruct Hin as [<-|[<-|[]]]; cbn [snd map fst];
      (split; [repeat constructor; cbn; intuition discriminate | reflexivity]).
Defined.

End TablesFacts.
